(** * The positive-sum grader (script.js): grading pipeline

    A shallow embedding of the grading core of [script.js]: the execution
    adapter [runCProgram], the test catalog [generateTestCases], the
    orchestrator [runAllTests], the output interpreter
    [extractSumFromOutput], the judge [compareSums], the scorer
    [calculateScore] and the feedback synthesizer [generateFeedback];
    and of what surrounds it: the click handler [handleRunTests], the
    updates of the page ([setUIRunning], [clearPreviousResults],
    [displayResults], [displayError]) and the start-up [initializeApp].

    Conventions of the embedding.
    - A JavaScript string is the list of its UTF-16 code units.
    - A JavaScript number is a double.  An integral number that is given
      (an expected sum, the points of a test, an exit code) is the integer
      it denotes ([Z]); a number read from a text is rounded to a double
      ([Number_of_Z]) and may be an infinity ([jsint]), and a number is
      printed as [Number::toString] prints it ([String_of_number]).  The
      score arithmetic is carried out over the rationals ([Q]) extended
      with the infinities and [NaN], each operation rounding its exact
      result to the nearest double ([fl]); sums of points are taken exact
      (integers up to 2^53), and signed zeros are not told apart.
    - The interpreter [JSCPP.run] is external: it is a parameter that, for
      a source and an input, yields the writes it made to standard output
      and how the call completed (an exit code, or a thrown value). *)

From Stdlib Require Import Ascii String DecimalString.
From Stdlib Require DecimalZ.
From Stdlib Require Import List Sorted Bool Arith NArith ZArith QArith Qround Qminmax Qpower Lia Lqa.
Import ListNotations.

Set Implicit Arguments.

Close Scope Q_scope.
Open Scope Z_scope.

(** ** JavaScript strings as UTF-16 code units *)

Module JsString.

Definition codeunit := N.
Definition jsstring := list codeunit.

Definition byte_of_ascii (a : ascii) : N := N_of_ascii a.

Fixpoint bytes_of_string (s : string) : list N :=
  match s with
  | EmptyString => []
  | String a s' => byte_of_ascii a :: bytes_of_string s'
  end.

(** The literals of the source file are UTF-8 text; [utf16_of_utf8] gives the
    code units the engine holds for them (a surrogate pair above U+FFFF). *)
Fixpoint utf16_of_utf8 (bs : list N) : jsstring :=
  match bs with
  | [] => []
  | b1 :: t1 =>
      if (b1 <? 128)%N then b1 :: utf16_of_utf8 t1
      else if (b1 <? 224)%N then
        match t1 with
        | b2 :: t2 =>
            (N.lor (N.shiftl (N.land b1 31) 6) (N.land b2 63)) :: utf16_of_utf8 t2
        | [] => [65533%N]
        end
      else if (b1 <? 240)%N then
        match t1 with
        | b2 :: b3 :: t3 =>
            (N.lor (N.shiftl (N.land b1 15) 12)
               (N.lor (N.shiftl (N.land b2 63) 6) (N.land b3 63)))
              :: utf16_of_utf8 t3
        | _ => [65533%N]
        end
      else
        match t1 with
        | b2 :: b3 :: b4 :: t4 =>
            let cp := N.lor (N.shiftl (N.land b1 7) 18)
                        (N.lor (N.shiftl (N.land b2 63) 12)
                           (N.lor (N.shiftl (N.land b3 63) 6) (N.land b4 63))) in
            let v := (cp - 65536)%N in
            (55296 + N.shiftr v 10)%N :: (56320 + N.land v 1023)%N
              :: utf16_of_utf8 t4
        | _ => [65533%N]
        end
  end.

Definition js (s : string) : jsstring := utf16_of_utf8 (bytes_of_string s).

(** A literal with the escape [\n] of the source (backslash, n): the line
    feed it denotes. *)
Fixpoint unescape (s : jsstring) : jsstring :=
  match s with
  | 92%N :: 110%N :: s' => 10%N :: unescape s'
  | c :: s' => c :: unescape s'
  | [] => []
  end.

Definition jse (s : string) : jsstring := unescape (js s).

(** The code unit of a one-character literal. *)
Definition cu (s : string) : codeunit := hd 0%N (js s).

Fixpoint str_eqb (a b : jsstring) : bool :=
  match a, b with
  | [], [] => true
  | x :: a', y :: b' => (x =? y)%N && str_eqb a' b'
  | _, _ => false
  end.

(** [startsWith p s]: [p] is a prefix of [s]. *)
Fixpoint startsWith (p s : jsstring) : bool :=
  match p, s with
  | [], _ => true
  | x :: p', y :: s' => (x =? y)%N && startsWith p' s'
  | _ :: _, [] => false
  end.

(** [String.prototype.includes]: [p] occurs somewhere in [s]. *)
Fixpoint includes (s p : jsstring) : bool :=
  startsWith p s ||
  match s with
  | [] => false
  | _ :: s' => includes s' p
  end.

(** [Array.prototype.join]. *)
Fixpoint join (sep : jsstring) (l : list jsstring) : jsstring :=
  match l with
  | [] => []
  | [x] => x
  | x :: l' => x ++ sep ++ join sep l'
  end.

(** Character classes of the regular expressions and of [parseInt]. *)
Definition is_digit (c : codeunit) : bool := ((48 <=? c) && (c <=? 57))%N.

Definition is_word (c : codeunit) : bool :=
  (((48 <=? c) && (c <=? 57)) || ((65 <=? c) && (c <=? 90))
   || ((97 <=? c) && (c <=? 122)) || (c =? 95))%N.

(** [\s] and [StrWhiteSpaceChar]: white space and line terminators. *)
Definition is_space (c : codeunit) : bool :=
  (((9 <=? c) && (c <=? 13)) || (c =? 32) || (c =? 160) || (c =? 5760)
   || ((8192 <=? c) && (c <=? 8202)) || (c =? 8232) || (c =? 8233)
   || (c =? 8239) || (c =? 8287) || (c =? 12288) || (c =? 65279))%N.

Definition digit_value (c : codeunit) : Z := Z.of_N c - 48.

(** An integral number: an integer that is a double, or an infinity. *)
Inductive jsint : Type :=
| Int (z : Z)
| PosInfinity
| NegInfinity.

Coercion Int : Z >-> jsint.

(** [a === b] *)
Definition jsint_eqb (a b : jsint) : bool :=
  match a, b with
  | Int x, Int y => x =? y
  | PosInfinity, PosInfinity => true
  | NegInfinity, NegInfinity => true
  | _, _ => false
  end.

(** The Number value of an integer: the integer itself up to [2^53] in
    magnitude, and beyond that the nearest integer with 53 significant
    bits, a tie going to the even one; an infinity from [2^1024] on. *)
Definition Number_of_Z (z : Z) : jsint :=
  let a := Z.abs z in
  if a <=? 2 ^ 53 then Int z
  else
    let shift := Z.log2 a - 52 in
    let m := a / 2 ^ shift in
    let r := a mod 2 ^ shift in
    let half := 2 ^ (shift - 1) in
    let m' := if (half <? r) || ((r =? half) && Z.odd m) then m + 1 else m in
    let v := m' * 2 ^ shift in
    if 2 ^ 1024 <=? v then (if 0 <? z then PosInfinity else NegInfinity)
    else Int (Z.sgn z * v).

(** The decimal numeral of an integer. *)
Definition decimal_numeral (n : Z) : jsstring :=
  js (NilZero.string_of_int (Z.to_int n)).

(** [Number::toString] on a positive integer [v] above [2^53]. The
    candidates with [k] digits are the pairs [(n, s)] with
    [10^(k-1) <= s < 10^k] whose [s * 10^(n-k)] has the Number value [v];
    [k] is the least with a candidate, and of two candidates the nearer to
    [v] is taken, then the even one. *)
Definition digit_candidates (v k : Z) : list (Z * Z) :=
  let d := Z.of_nat (length (decimal_numeral v)) in
  flat_map
    (fun n =>
       let p := 10 ^ (n - k) in
       filter
         (fun c => (10 ^ (k - 1) <=? snd c) && (snd c <? 10 ^ k)
                   && jsint_eqb (Number_of_Z (snd c * p)) (Int v))
         [(n, v / p); (n, v / p + 1)])
    [d; d + 1].

Definition better_candidate (v k : Z) (c1 c2 : Z * Z) : Z * Z :=
  let d1 := Z.abs (snd c1 * 10 ^ (fst c1 - k) - v) in
  let d2 := Z.abs (snd c2 * 10 ^ (fst c2 - k) - v) in
  if d1 <? d2 then c1
  else if d2 <? d1 then c2
  else if Z.even (snd c1) then c1 else c2.

Fixpoint shortest_digits (fuel : nat) (v k : Z) : option (Z * Z * Z) :=
  match fuel with
  | O => None
  | S fuel' =>
      match digit_candidates v k with
      | c :: cs =>
          let best := fold_left (better_candidate v k) cs c in
          Some (fst best, k, snd best)
      | [] => shortest_digits fuel' v (k + 1)
      end
  end.

(** Up to [2^53] the digits are those of the integer; beyond, the shortest
    digits that read back as [v], followed by zeros up to 21 digits and in
    exponent form from there on. Seventeen digits always suffice. *)
Definition String_of_positive (v : Z) : jsstring :=
  if v <=? 2 ^ 53 then decimal_numeral v
  else
    match shortest_digits 17 v 1 with
    | Some (n, k, s) =>
        let digits := decimal_numeral s in
        if n <=? 21 then digits ++ repeat 48%N (Z.to_nat (n - k))
        else
          match digits with
          | d :: [] => d :: js "e+" ++ decimal_numeral (n - 1)
          | d :: ds => d :: js "." ++ ds ++ js "e+" ++ decimal_numeral (n - 1)
          | [] => []
          end
    | None => decimal_numeral v
    end.

(** [String(x)] and [`${x}`], [x] an integral number. *)
Definition String_of_number (x : jsint) : jsstring :=
  match x with
  | Int z =>
      if z <? 0 then js "-" ++ String_of_positive (- z)
      else String_of_positive z
  | PosInfinity => js "Infinity"
  | NegInfinity => js "-Infinity"
  end.

(** The same for an integer that is given. *)
Definition string_of_Z (n : Z) : jsstring := String_of_number (Number_of_Z n).

(** [parseInt(s, 10)]: skip leading white space, read a sign, then the
    longest run of decimal digits, and give the Number value of the
    integer they denote; [None] stands for [NaN]. (Beyond 20 significant
    digits the language lets an engine read the rest as zeros; the engines
    round the whole numeral.) *)
Fixpoint skip_space (s : jsstring) : jsstring :=
  match s with
  | c :: s' => if is_space c then skip_space s' else s
  | [] => []
  end.

Fixpoint take_digits (s : jsstring) : jsstring :=
  match s with
  | c :: s' => if is_digit c then c :: take_digits s' else []
  | [] => []
  end.

Definition decimal_value (ds : jsstring) : Z :=
  fold_left (fun acc c => 10 * acc + digit_value c) ds 0.

Definition parseInt10 (s : jsstring) : option jsint :=
  let s1 := skip_space s in
  let '(sign, s2) :=
    match s1 with
    | c :: s' =>
        if (c =? cu "-")%N then (-1, s')
        else if (c =? cu "+")%N then (1, s')
        else (1, s1)
    | [] => (1, s1)
    end in
  match take_digits s2 with
  | [] => None
  | ds => Some (Number_of_Z (sign * decimal_value ds))
  end.

#[global] Arguments is_digit : simpl never.
#[global] Arguments is_word : simpl never.
#[global] Arguments is_space : simpl never.
#[global] Arguments cu : simpl never.
#[global] Arguments js : simpl never.

End JsString.
Import JsString.

(** ** Regular expressions

    The fragment of ECMAScript patterns the script uses, with the
    backtracking matcher of the language: [rmatch r p] lists, in priority
    order, the positions at which a match of [r] started at [p] can end.
    A position records the code unit before it (for [\b]) and the text that
    remains. Quantifiers are greedy, and an iteration of [*] that consumes
    nothing is rejected, as RepeatMatcher does. *)

Module Regex.

Inductive regex : Type :=
| Eps : regex
| Chr : (codeunit -> bool) -> regex
| WordB : regex
| Seq : regex -> regex -> regex
| Alt : regex -> regex -> regex
| Star : regex -> regex.

Definition Opt (r : regex) : regex := Alt r Eps.
Definition Plus (r : regex) : regex := Seq r (Star r).

Definition lit (c : codeunit) : codeunit -> bool := fun x => (x =? c)%N.
Definition not_lit (c : codeunit) : codeunit -> bool := fun x => negb (x =? c)%N.

Fixpoint Str (s : jsstring) : regex :=
  match s with
  | [] => Eps
  | c :: s' => Seq (Chr (lit c)) (Str s')
  end.

(** A sequence of terms, and a disjunction of alternatives. *)
Fixpoint Seqs (l : list regex) : regex :=
  match l with
  | [] => Eps
  | r :: l' => Seq r (Seqs l')
  end.

Fixpoint Alts (l : list regex) : regex :=
  match l with
  | [] => Chr (fun _ => false)
  | [r] => r
  | r :: l' => Alt r (Alts l')
  end.

Record pos : Type := mkPos { before : option codeunit; rest : jsstring }.

Definition word_before (p : pos) : bool :=
  match before p with Some c => is_word c | None => false end.

Definition word_after (p : pos) : bool :=
  match rest p with c :: _ => is_word c | [] => false end.

Definition at_boundary (p : pos) : bool := xorb (word_before p) (word_after p).

Fixpoint star_loop (f : pos -> list pos) (fuel : nat) (p : pos) : list pos :=
  match fuel with
  | O => [p]
  | S k =>
      flat_map
        (fun q => if (length (rest q) <? length (rest p))%nat
                  then star_loop f k q else [])
        (f p)
      ++ [p]
  end.

Fixpoint rmatch (r : regex) (p : pos) : list pos :=
  match r with
  | Eps => [p]
  | Chr f =>
      match rest p with
      | c :: s' => if f c then [mkPos (Some c) s'] else []
      | [] => []
      end
  | WordB => if at_boundary p then [p] else []
  | Seq a b => flat_map (rmatch b) (rmatch a p)
  | Alt a b => rmatch a p ++ rmatch b p
  | Star a => star_loop (rmatch a) (length (rest p)) p
  end.

(** The positions of a string, from its start to its end. *)
Fixpoint positions_from (prev : option codeunit) (s : jsstring) : list pos :=
  mkPos prev s ::
  match s with
  | [] => []
  | c :: s' => positions_from (Some c) s'
  end.

(** [RegExp.prototype.test] for a pattern without flags: some position
    starts a match. *)
Definition test (r : regex) (s : jsstring) : bool :=
  existsb (fun p => match rmatch r p with [] => false | _ :: _ => true end)
    (positions_from None s).

(** [String.prototype.match] with a global pattern: the matched texts, found
    left to right; each search resumes where the last match ended (one
    code unit further after an empty match). [None] is the [null] the
    method returns when nothing matched. *)
Fixpoint match_from (r : regex) (fuel : nat) (p : pos) : list jsstring :=
  match fuel with
  | O => []
  | S k =>
      match rmatch r p with
      | q :: _ =>
          let n := (length (rest p) - length (rest q))%nat in
          firstn n (rest p) ::
          match n, rest p with
          | O, c :: s' => match_from r k (mkPos (Some c) s')
          | O, [] => []
          | S _, _ => match_from r k q
          end
      | [] =>
          match rest p with
          | c :: s' => match_from r k (mkPos (Some c) s')
          | [] => []
          end
      end
  end.

Definition match_global (r : regex) (s : jsstring) : option (list jsstring) :=
  match match_from r (S (length s)) (mkPos None s) with
  | [] => None
  | ms => Some ms
  end.

#[global] Arguments lit : simpl never.
#[global] Arguments not_lit : simpl never.

End Regex.
Import Regex.

(** ** Numbers

    The numbers of the score arithmetic: a rational, an infinity, or [NaN].
    Signed zeros are not told apart. The right operand of each operation is
    the finite constant or the finite value the script has there. *)

Module JsNumber.

Inductive number : Type :=
| Num : Q -> number
| PosInf : number
| NegInf : number
| NaN : number.

(** *** Rounding to a double

    An arithmetic operation gives the double nearest to its exact result,
    a tie going to the double with an even last bit. *)

(** The binade of a positive rational: the [z] with [2^z <= x < 2^(z+1)]. *)
Definition binade (x : Q) : Z :=
  let k := Z.log2 (Qnum x) - Z.log2 (Z.pos (Qden x)) in
  if Qle_bool (2 ^ k) x then k else k - 1.

(** The nearest integer, a tie going to the even one. *)
Definition round_half_even (q : Q) : Z :=
  let f := Qfloor q in
  match (q - inject_Z f ?= 1 # 2)%Q with
  | Lt => f
  | Gt => f + 1
  | Eq => if Z.even f then f else f + 1
  end.

(** The exponent of the last place of the double nearest to [x]: 52 below
    the binade, and no lower than that of the subnormal numbers. *)
Definition last_place (x : Q) : Z := Z.max (binade x) (-1022) - 52.

(** The double nearest to a positive rational, as a rational. *)
Definition nearest_double (x : Q) : Q :=
  (inject_Z (round_half_even (x / 2 ^ last_place x)) * 2 ^ last_place x)%Q.

(** Rounding: an infinity from [2^1024] on. *)
Definition fl (x : Q) : number :=
  match (x ?= 0)%Q with
  | Eq => Num 0
  | Gt =>
      let v := nearest_double x in
      if Qle_bool (2 ^ 1024) v then PosInf else Num (Qred v)
  | Lt =>
      let v := nearest_double (- x) in
      if Qle_bool (2 ^ 1024) v then NegInf else Num (Qred (- v))
  end.

(** [a / b] for finite [a] and [b]: no finite quotient when [b] is 0. *)
Definition js_div (a b : Q) : number :=
  if Qeq_bool b 0 then
    if Qeq_bool a 0 then NaN else if Qle_bool 0 a then PosInf else NegInf
  else fl (a / b).

(** [x * k] *)
Definition js_mul (x : number) (k : Q) : number :=
  match x with
  | Num q => fl (q * k)
  | PosInf => if Qeq_bool k 0 then NaN else if Qle_bool 0 k then PosInf else NegInf
  | NegInf => if Qeq_bool k 0 then NaN else if Qle_bool 0 k then NegInf else PosInf
  | NaN => NaN
  end.

(** [x + k] *)
Definition js_add (x : number) (k : Q) : number :=
  match x with
  | Num q => fl (q + k)
  | PosInf => PosInf
  | NegInf => NegInf
  | NaN => NaN
  end.

(** [Math.min(k, x)] and [Math.max(k, x)] *)
Definition Math_min (k : Q) (x : number) : number :=
  match x with
  | Num q => Num (Qmin k q)
  | PosInf => Num k
  | NegInf => NegInf
  | NaN => NaN
  end.

Definition Math_max (k : Q) (x : number) : number :=
  match x with
  | Num q => Num (Qmax k q)
  | PosInf => PosInf
  | NegInf => Num k
  | NaN => NaN
  end.

(** [Math.round(x)]: the nearest integer, a tie going up. *)
Definition Math_round (x : number) : number :=
  match x with
  | Num q => Num (inject_Z (Qfloor (q + (1 # 2))%Q))
  | PosInf => PosInf
  | NegInf => NegInf
  | NaN => NaN
  end.

(** [x === k] and [x >= k] *)
Definition js_eq (x : number) (k : Q) : bool :=
  match x with
  | Num q => Qeq_bool q k
  | _ => false
  end.

Definition js_ge (x : number) (k : Q) : bool :=
  match x with
  | Num q => Qle_bool k q
  | PosInf => true
  | _ => false
  end.

End JsNumber.
Import JsNumber.

(** ** The grader *)

(** How a call completes: with a value, or with a thrown value. *)
Inductive completion (E A : Type) : Type :=
| Normal : A -> completion E A
| Abrupt : E -> completion E A.

Arguments Normal {E A} _.
Arguments Abrupt {E A} _.

(** The values the interpreter throws: an [Error] object, with its [name]
    and [message], or a string. *)
Inductive thrown : Type :=
| ErrorObject : jsstring -> jsstring -> thrown
| StringValue : jsstring -> thrown.

(** Truthiness of a string: it is not empty. *)
Definition truthy (s : jsstring) : bool :=
  match s with [] => false | _ :: _ => true end.

(** [error && error.message]: the message when the value is truthy and has
    a truthy one. *)
Definition message_of (error : thrown) : option jsstring :=
  match error with
  | ErrorObject _ message => if truthy message then Some message else None
  | StringValue _ => None
  end.

(** [String(error)]: [Error.prototype.toString] for an object, the string
    itself for a string. *)
Definition String_of (error : thrown) : jsstring :=
  match error with
  | ErrorObject name message =>
      if negb (truthy name) then message
      else if negb (truthy message) then name
      else name ++ js ": " ++ message
  | StringValue s => s
  end.

(** One call of [JSCPP.run]: what it handed to [stdio.write], in order, and
    how it completed (its exit code, or what it threw: a compile error, a
    runtime error, the time limit). *)
Record EngineRun : Type := mkRun {
  writes : list jsstring;
  completes : completion thrown Z
}.

Definition engine : Type := jsstring -> jsstring -> EngineRun.

Record ExecResult : Type := mkExec {
  compiled : bool;
  compileOutput : jsstring;
  stdout : jsstring;
  stderr : jsstring
}.

Record TestCase : Type := mkCase {
  name : jsstring;
  input : jsstring;
  expectedSum : Z;
  points : Z;
  isValidationTest : bool
}.

(** A result spreads its test case ([...testCase]) and adds four fields; a
    field that is not set reads as falsy. *)
Record TestResult : Type := mkResult {
  testCase : TestCase;
  passed : bool;
  reportedSum : option jsint;
  notes : jsstring;
  compilationFailed : bool
}.

Record ParseResult : Type := mkParse {
  sum : option jsint;
  allNumbers : list jsint
}.

Record Comparison : Type := mkComparison {
  cmp_passed : bool;
  cmp_notes : jsstring
}.

Definition generateTestCases : list TestCase :=
  [ mkCase (js "Test 1: 1 2 3 4 5") (jse "1\n2\n3\n4\n5\n") 15 25 false;
    mkCase (js "Test 2: 10 20 30 40 50") (jse "10\n20\n30\n40\n50\n") 150 25 false;
    mkCase (js "Test 3: קלט עם 0 ושלילי – בדיקת תקינות")
      (jse "0\n-3\n5\n7\n8\n9\n10\n11\n") 39 25 true;
    mkCase (js "Test 4: רצף עם מספר ניסיונות שגויים")
      (jse "-1\n0\n-2\n0\n3\n4\n5\n6\n7\n") 25 25 true ].

(** [/-?\d+/g] *)
Definition re_number : regex := Seq (Opt (Chr (lit (cu "-")))) (Plus (Chr is_digit)).

(** [/\b(for|while|do)\b/] *)
Definition re_loop : regex :=
  Seqs [WordB; Alts [Str (js "for"); Str (js "while"); Str (js "do")]; WordB].

(** [\bif\s*\([^)]*], the common start of the two guard patterns. *)
Definition re_if_open : list regex :=
  [WordB; Str (js "if"); Star (Chr is_space); Chr (lit (cu "("));
   Star (Chr (not_lit (cu ")")))].

(** [/\bif\s*\([^)]*(<=\s*0|<\s*1|num\s*<=\s*0|num\s*<\s*1)/] *)
Definition re_guard_le : regex :=
  Seqs (re_if_open ++
    [Alts [Seqs [Str (js "<="); Star (Chr is_space); Str (js "0")];
           Seqs [Str (js "<"); Star (Chr is_space); Str (js "1")];
           Seqs [Str (js "num"); Star (Chr is_space); Str (js "<=");
                 Star (Chr is_space); Str (js "0")];
           Seqs [Str (js "num"); Star (Chr is_space); Str (js "<");
                 Star (Chr is_space); Str (js "1")]]]).

(** [/\bif\s*\([^)]*>\s*0/] *)
Definition re_guard_gt : regex :=
  Seqs (re_if_open ++ [Str (js ">"); Star (Chr is_space); Str (js "0")]).

Definition hasLoop (codeSource : jsstring) : bool := test re_loop codeSource.

Definition hasPositiveCheck (codeSource : jsstring) : bool :=
  test re_guard_le codeSource || test re_guard_gt codeSource.

(** The texts of the script. *)
Definition MSG_EXIT_PREFIX : jsstring := js "Compilation/execution successful (exit code ".
Definition MSG_EXIT_SUFFIX : jsstring := js ")".
Definition MSG_NOT_COMPILED : jsstring := js "הקוד לא הצליח להתקמפל".
Definition MSG_NO_NUMBER : jsstring :=
  js "לא הצלחתי למצוא מספר סופי בפלט. ודא שבסוף התוכנית אתה מדפיס את סכום 5 המספרים (רצוי בפורמט sum = X) ושאין הדפסות נוספות של מספרים אחרי הסכום.".
Definition MSG_WRONG_1 : jsstring := js "הסכום שגוי. צפוי ".
Definition MSG_WRONG_2 : jsstring := js ", התקבל ".
Definition MSG_WRONG_3 : jsstring := js ".".
Definition MSG_PASSED : jsstring := js "עבר בהצלחה ✓".
Definition MSG_COMPILE_FAILURE : jsstring :=
  js "הקוד לא מתקמפל. אנא תקן את שגיאות הקומפילציה ונסה שוב.".
Definition MSG_EXCELLENT : jsstring :=
  js "מצוין! קלטת 5 מספרים חיוביים, ביצעת בדיקות תקינות והסכום מחושב ומודפס בצורה נכונה. 🎉".
Definition WRONG_SUM_PHRASE : jsstring := js "הסכום שגוי".
Definition HINT_SUM : jsstring :=
  js "יש בעיה בחישוב או בהדפסת הסכום. בדוק שהקוד באמת מחשב את סכום 5 המספרים החיוביים בלבד.".
Definition HINT_VALIDATION : jsstring :=
  js "נראה שהקוד לא מטפל כראוי במספרים שאינם חיוביים (0 או שליליים). עליך לבקש מהמשתמש להזין מחדש במקום לספור אותם כאחד מ־5 המספרים.".
Definition HINT_LOOP : jsstring :=
  js "נראה שאין שימוש בלולאה כדי לקלוט את המספרים. התרגיל דורש שימוש בלולאה עד שנקלטו 5 מספרים חיוביים.".
Definition HINT_GUARD : jsstring :=
  js "חסרה בדיקת תקינות על כך שהמספר חיובי. ודא שאתה בודק שהמספר גדול מ־0 לפני שאתה מוסיף אותו לסכום ומתקדם לספירה.".
Definition MSG_GOOD : jsstring :=
  js "עבודה טובה! רוב הבדיקות עברו, יש כמה נקודות קטנות לשיפור – בדוק את פירוט מקרי הבדיקה.".
Definition MSG_PROGRESS : jsstring :=
  js "יש התקדמות יפה, אבל חלק מהבדיקות נכשלו. כדאי לבדוק את נושא בדיקת החיוביות וחישוב הסכום.".
Definition MSG_NEEDS_WORK : jsstring :=
  js "הקוד זקוק לעבודה נוספת. בדוק את לוגיקת הלולאה, תנאי החיוביות והאופן שבו אתה מחשב ומדפיס את הסכום.".

(** *** Execution adapter *)

Section Adapter.

Variable JSCPP_run : engine.

(** The promise [runCProgram] returns settles with [Normal] when it
    resolves and [Abrupt] when it rejects; [stdout += s] runs for each
    write, and [try]/[catch] turns a throw of the interpreter into a
    value. *)
Definition runCProgram (cSource input : jsstring) : completion thrown ExecResult :=
  let run := JSCPP_run cSource input in
  let stdout := fold_left (fun out s => out ++ s) (writes run) [] in
  let stderr := [] in
  match completes run with
  | Normal exitCode =>
      Normal (mkExec true
                (MSG_EXIT_PREFIX ++ string_of_Z exitCode ++ MSG_EXIT_SUFFIX)
                stdout stderr)
  | Abrupt error =>
      let errorMsg :=
        match message_of error with
        | Some message => message
        | None => String_of error
        end in
      Normal (mkExec false errorMsg stdout errorMsg)
  end.

End Adapter.

(** *** Output interpreter and judge *)

Definition extractSumFromOutput (stdout : jsstring) : ParseResult :=
  if negb (truthy stdout) then mkParse None []
  else
    let matches :=
      match match_global re_number stdout with
      | Some ms => ms
      | None => []
      end in
    let numbers :=
      flat_map (fun n => match n with Some z => [z] | None => [] end)
        (map parseInt10 matches) in
    if (length numbers =? 0)%nat then mkParse None []
    else
      let reportedSum := nth (length numbers - 1) numbers (Int 0) in
      mkParse (Some reportedSum) numbers.

Definition compareSums (expectedSum : Z) (parseResult : ParseResult) : Comparison :=
  match sum parseResult with
  | None => mkComparison false MSG_NO_NUMBER
  | Some s =>
      if negb (jsint_eqb s (Int expectedSum))
      then mkComparison false
             (MSG_WRONG_1 ++ string_of_Z expectedSum ++ MSG_WRONG_2
                ++ String_of_number s ++ MSG_WRONG_3)
      else mkComparison true MSG_PASSED
  end.

(** *** Orchestrator *)

Section Orchestrator.

Variable JSCPP_run : engine.

(** The loop of [runAllTests] over the cases that remain. Next to the
    results it keeps the inputs handed to the interpreter so far, one per
    call; [await] passes a rejection on. *)
Fixpoint runAllTests_loop (studentCode : jsstring) (testCases : list TestCase)
    (results : list TestResult) (calls : list jsstring)
  : completion thrown (list TestResult * list jsstring) :=
  match testCases with
  | [] => Normal (results, calls)
  | testCase :: remaining =>
      match runCProgram JSCPP_run studentCode (input testCase) with
      | Abrupt e => Abrupt e
      | Normal result =>
          let calls := calls ++ [input testCase] in
          if negb (compiled result) then
            Normal (results ++
                      [mkResult testCase false None
                         (if truthy (compileOutput result)
                          then compileOutput result else MSG_NOT_COMPILED)
                         true],
                    calls)
          else
            let parseResult := extractSumFromOutput (stdout result) in
            let comparisonResult := compareSums (expectedSum testCase) parseResult in
            runAllTests_loop studentCode remaining
              (results ++
                 [mkResult testCase (cmp_passed comparisonResult)
                    (sum parseResult) (cmp_notes comparisonResult) false])
              calls
      end
  end.

Definition runAllTests (studentCode : jsstring) (testCases : list TestCase)
  : completion thrown (list TestResult * list jsstring) :=
  runAllTests_loop studentCode testCases [] [].

End Orchestrator.

(** *** Scorer *)

(** [testResults.length > 0 && testResults[0].compilationFailed] *)
Definition firstCompilationFailed (testResults : list TestResult) : bool :=
  match testResults with
  | [] => false
  | first :: _ => compilationFailed first
  end.

(** [test.points || 0] is [test.points]: the points are numbers, and 0 is
    the only falsy one. The two sums are the integers themselves, which is
    what the additions of doubles give as long as the points are not
    negative and add up to at most 2^53. *)
Definition totalPoints (testResults : list TestResult) : Z :=
  fold_left (fun sum test => sum + points (testCase test)) testResults 0.

Definition earnedPoints (testResults : list TestResult) : Z :=
  fold_left
    (fun sum test => sum + (if passed test then points (testCase test) else 0))
    testResults 0.

Definition functionalScore (testResults : list TestResult) : number :=
  if totalPoints testResults >? 0
  then js_mul
         (js_div (inject_Z (earnedPoints testResults))
            (inject_Z (totalPoints testResults)))
         (inject_Z 80)
  else Num 0.

Definition qualityScore (codeSource : jsstring) : Z :=
  let qualityScore := 20 in
  let qualityScore :=
    if negb (hasLoop codeSource) then qualityScore - 10 else qualityScore in
  let qualityScore :=
    if negb (hasPositiveCheck codeSource) then qualityScore - 10 else qualityScore in
  if qualityScore <? 0 then 0 else qualityScore.

Definition calculateScore (testResults : list TestResult) (codeSource : jsstring)
  : number :=
  if firstCompilationFailed testResults then Num 0
  else
    Math_round
      (Math_max 0
         (Math_min (inject_Z 100)
            (js_add (functionalScore testResults)
               (inject_Z (qualityScore codeSource))))).

(** *** Feedback synthesizer *)

Definition generateFeedback (testResults : list TestResult) (score : number)
    (codeSource : jsstring) : jsstring :=
  if firstCompilationFailed testResults then MSG_COMPILE_FAILURE
  else if js_eq score (inject_Z 100) then MSG_EXCELLENT
  else
    let feedback := [] in
    let anyWrongSum :=
      existsb
        (fun t => negb (passed t) && truthy (notes t)
                  && includes (notes t) WRONG_SUM_PHRASE)
        testResults in
    let feedback := if anyWrongSum then feedback ++ [HINT_SUM] else feedback in
    let validationTests :=
      filter (fun t => isValidationTest (testCase t)) testResults in
    let failedValidation := existsb (fun t => negb (passed t)) validationTests in
    let feedback :=
      if failedValidation then feedback ++ [HINT_VALIDATION] else feedback in
    let feedback :=
      if negb (hasLoop codeSource) then feedback ++ [HINT_LOOP] else feedback in
    let feedback :=
      if negb (hasPositiveCheck codeSource) then feedback ++ [HINT_GUARD]
      else feedback in
    if (length feedback =? 0)%nat then
      if js_ge score (inject_Z 80) then MSG_GOOD
      else if js_ge score (inject_Z 60) then MSG_PROGRESS
      else MSG_NEEDS_WORK
    else join (js " ") feedback.

(** *** A grading run *)

Record GradeReport : Type := mkReport {
  results : list TestResult;
  score : number;
  feedbackText : jsstring
}.

(** The [try] block of [handleRunTests]: run the catalog, score, explain. *)
Definition gradeRun (JSCPP_run : engine) (studentCode : jsstring)
  : completion thrown GradeReport :=
  let testCases := generateTestCases in
  match runAllTests JSCPP_run studentCode testCases with
  | Abrupt e => Abrupt e
  | Normal (testResults, _) =>
      let score := calculateScore testResults studentCode in
      let feedback := generateFeedback testResults score studentCode in
      Normal (mkReport testResults score feedback)
  end.

(** ** A declarative reading of the patterns

    What the matcher is checked against: [denote r p q] says that [r]
    matches the text between the positions [p] and [q]. *)

Module RegexSpec.

(** The code unit before the position reached after reading [w]. *)
Definition last_of (w : jsstring) (prev : option codeunit) : option codeunit :=
  match rev w with
  | c :: _ => Some c
  | [] => prev
  end.

(** [reads p w q]: from [p], reading [w] leads to [q]. *)
Definition reads (p : pos) (w : jsstring) (q : pos) : Prop :=
  rest p = w ++ rest q /\ before q = last_of w (before p).

Inductive star (R : pos -> pos -> Prop) : pos -> pos -> Prop :=
| star_refl : forall p, star R p p
| star_step : forall p m q, R p m -> star R m q -> star R p q.

(** [denote r p q]: [r] matches the text between [p] and [q]. *)
Fixpoint denote (r : regex) (p q : pos) : Prop :=
  match r with
  | Eps => q = p
  | Chr f => exists c, rest p = c :: rest q /\ f c = true /\ before q = Some c
  | WordB => q = p /\ at_boundary p = true
  | Seq a b => exists m, denote a p m /\ denote b m q
  | Alt a b => denote a p q \/ denote b p q
  | Star a => star (denote a) p q
  end.

Definition ends_word (u : jsstring) : bool :=
  match last_of u None with Some c => is_word c | None => false end.

Definition starts_word (v : jsstring) : bool :=
  match v with c :: _ => is_word c | [] => false end.

End RegexSpec.
Import RegexSpec.

(** The two textual heuristics, read off their patterns. *)

Definition loop_keywords : list jsstring := [js "for"; js "while"; js "do"].

(** One of [for], [while], [do] stands in the source as a whole word. *)
Definition has_loop_keyword (src : jsstring) : Prop :=
  exists u kw v,
    src = u ++ kw ++ v /\ In kw loop_keywords /\
    ends_word u = false /\ starts_word v = false.

Definition guard_comparisons : list (jsstring * jsstring) :=
  [(js "<=", js "0"); (js "<", js "1"); (js ">", js "0")].

(** The word [if], white space, an opening parenthesis, text without a
    closing parenthesis, and then one of [<= 0], [< 1], [> 0] (with any
    white space between operator and digit). *)
Definition has_positivity_guard (src : jsstring) : Prop :=
  exists u ws body op ws' d v,
    src = u ++ js "if" ++ ws ++ js "(" ++ body ++ op ++ ws' ++ d ++ v /\
    ends_word u = false /\
    forallb is_space ws = true /\
    forallb (not_lit (cu ")")) body = true /\
    In (op, d) guard_comparisons /\
    forallb is_space ws' = true.

(** ** Numbers in a text

    What [/-?\d+/g] is meant to find: the maximal pieces of the text made
    of an optional minus sign and one or more decimal digits. *)

Definition is_number_text (t : jsstring) : bool :=
  match t with
  | c :: ds =>
      if (c =? cu "-")%N then truthy ds && forallb is_digit ds
      else forallb is_digit t
  | [] => false
  end.

(** The integer a run of digits denotes in base ten, digit by digit. *)
Fixpoint digits_value (ds : jsstring) : Z :=
  match ds with
  | [] => 0
  | d :: ds' => digit_value d * 10 ^ Z.of_nat (length ds') + digits_value ds'
  end.

Definition number_value (t : jsstring) : Z :=
  match t with
  | c :: ds => if (c =? cu "-")%N then - digits_value ds else digits_value t
  | [] => 0
  end.

(** [t] stands in [s] between [u] and [v]. *)
Definition number_at (s u t v : jsstring) : Prop :=
  s = u ++ t ++ v /\ is_number_text t = true.

(** ... and no number of [s] extends it to the left or to the right. *)
Definition maximal_number_at (s u t v : jsstring) : Prop :=
  number_at s u t v /\
  forall u' t' v',
    number_at s u' t' v' ->
    (exists a, u = u' ++ a) -> (exists b, v = b ++ v') ->
    u' = u /\ t' = t /\ v' = v.

Definition occurrence : Type := (jsstring * jsstring * jsstring)%type.

Definition occ_before (o : occurrence) : jsstring := fst (fst o).
Definition occ_text (o : occurrence) : jsstring := snd (fst o).
Definition occ_after (o : occurrence) : jsstring := snd o.

(** An occurrence ends before the next one starts. *)
Definition occ_precedes (a b : occurrence) : Prop :=
  (length (occ_before a) + length (occ_text a) <= length (occ_before b))%nat.

Definition starts_digit (v : jsstring) : bool :=
  match v with c :: _ => is_digit c | [] => false end.

Definition ends_digit_or_minus (u : jsstring) : bool :=
  match last_of u None with
  | Some c => is_digit c || (c =? cu "-")%N
  | None => false
  end.

(** The same, by what stands next to the piece. *)
Definition bounded_number_at (s u t v : jsstring) : Prop :=
  number_at s u t v /\ starts_digit v = false /\
  (starts_digit t = true -> ends_digit_or_minus u = false).

(** Where a scan of [u0 ++ s] stands between [u0] and [s], no number reaches
    across: digits ahead are not preceded by a digit or a minus sign. *)
Definition cut_ok (u0 s : jsstring) : Prop :=
  starts_digit s = true -> ends_digit_or_minus u0 = false.

(** The longest number that starts a text, empty when none does. *)
Definition number_prefix (s : jsstring) : jsstring :=
  match s with
  | c :: s' =>
      if (c =? cu "-")%N then
        match take_digits s' with [] => [] | ds => c :: ds end
      else take_digits s
  | [] => []
  end.

Fixpoint last_number {A : Type} (l : list A) : option A :=
  match l with
  | [] => None
  | [x] => Some x
  | _ :: l' => last_number l'
  end.

(** ** Reading the pipeline

    The notions the statements about the pipeline are phrased with. *)

Definition Zsum (l : list Z) : Z := fold_right Z.add 0 l.

(** The message of a failure of the interpreter: the [message] of an error
    object, or its string form when it has none; the string itself when a
    string was thrown. *)
Definition failure_message (error : thrown) : jsstring :=
  match error with
  | ErrorObject name message =>
      match message with
      | [] => name
      | _ :: _ => message
      end
  | StringValue s => s
  end.

(** What the adapter resolves with for a test case. It never rejects, so
    the second branch is not taken. *)
Definition outcome_of (JSCPP_run : engine) (studentCode : jsstring)
    (testCase : TestCase) : ExecResult :=
  match runCProgram JSCPP_run studentCode (input testCase) with
  | Normal result => result
  | Abrupt _ => mkExec false [] [] []
  end.

(** The result of a test case whose run succeeded, from interpreter and
    judge, and of one whose run failed. *)
Definition judged_result (testCase : TestCase) (result : ExecResult) : TestResult :=
  let parseResult := extractSumFromOutput (stdout result) in
  let comparisonResult := compareSums (expectedSum testCase) parseResult in
  mkResult testCase (cmp_passed comparisonResult) (sum parseResult)
    (cmp_notes comparisonResult) false.

Definition failed_result (testCase : TestCase) (note : jsstring) : TestResult :=
  mkResult testCase false None note true.

(** The note of a failed run: the diagnostic of the adapter, or the fixed
    note when the diagnostic is empty. *)
Definition failure_note (result : ExecResult) : jsstring :=
  match compileOutput result with
  | [] => MSG_NOT_COMPILED
  | _ :: _ => compileOutput result
  end.

(** The results of [runAllTests], case by case: the cases are judged in
    order up to the first whose run fails, which gives the last result. *)
Fixpoint run_results (JSCPP_run : engine) (studentCode : jsstring)
    (testCases : list TestCase) : list TestResult :=
  match testCases with
  | [] => []
  | testCase :: remaining =>
      let result := outcome_of JSCPP_run studentCode testCase in
      if compiled result
      then judged_result testCase result
             :: run_results JSCPP_run studentCode remaining
      else [failed_result testCase (failure_note result)]
  end.

(** The inputs the interpreter is called with, in order. *)
Fixpoint run_calls (JSCPP_run : engine) (studentCode : jsstring)
    (testCases : list TestCase) : list jsstring :=
  match testCases with
  | [] => []
  | testCase :: remaining =>
      input testCase ::
      if compiled (outcome_of JSCPP_run studentCode testCase)
      then run_calls JSCPP_run studentCode remaining
      else []
  end.

(** The four hints, each on its own condition, in their order. *)
Definition wrong_sum_noted (testResults : list TestResult) : bool :=
  existsb (fun t => negb (passed t) && includes (notes t) WRONG_SUM_PHRASE)
    testResults.

Definition validation_failed (testResults : list TestResult) : bool :=
  existsb (fun t => isValidationTest (testCase t) && negb (passed t)) testResults.

Definition triggered_hints (testResults : list TestResult) (codeSource : jsstring)
  : list jsstring :=
  (if wrong_sum_noted testResults then [HINT_SUM] else [])
  ++ (if validation_failed testResults then [HINT_VALIDATION] else [])
  ++ (if hasLoop codeSource then [] else [HINT_LOOP])
  ++ (if hasPositiveCheck codeSource then [] else [HINT_GUARD]).

(** A score that is the integer [z]; a score that is at least [z]. *)
Definition score_is (score : number) (z : Z) : Prop :=
  exists q, score = Num q /\ (q == inject_Z z)%Q.

Definition score_at_least (score : number) (z : Z) : Prop :=
  score = PosInf \/ exists q, score = Num q /\ (inject_Z z <= q)%Q.

Definition banded_message (score : number) : jsstring :=
  if js_ge score (inject_Z 80) then MSG_GOOD
  else if js_ge score (inject_Z 60) then MSG_PROGRESS
  else MSG_NEEDS_WORK.

(** A conditional test that compares against 0 or 1 with [<=], [<] or [>]:
    the shape of [has_positivity_guard], with every operator next to
    either digit. *)
Definition wide_comparisons : list (jsstring * jsstring) :=
  [(js "<=", js "0"); (js "<=", js "1"); (js "<", js "0"); (js "<", js "1");
   (js ">", js "0"); (js ">", js "1")].

Definition has_wide_guard (src : jsstring) : Prop :=
  exists u ws body op ws' d v,
    src = u ++ js "if" ++ ws ++ js "(" ++ body ++ op ++ ws' ++ d ++ v /\
    ends_word u = false /\
    forallb is_space ws = true /\
    forallb (not_lit (cu ")")) body = true /\
    In (op, d) wide_comparisons /\
    forallb is_space ws' = true.

(** ** Sample runs *)

(** An interpreter running a submission that sums five inputs and loops
    for ever on an input that is not positive: the catalog's third and
    fourth inputs, which start with [0] and [-], end at the time limit. *)
Definition sample_engine : engine :=
  fun _ input =>
    if str_eqb input (jse "1\n2\n3\n4\n5\n")
    then mkRun [js "sum = "; js "15"; jse "\n"] (Normal 0)
    else if str_eqb input (jse "10\n20\n30\n40\n50\n")
    then mkRun [js "sum = "; js "150"; jse "\n"] (Normal 0)
    else mkRun [js "Enter a number: "]
           (Abrupt (ErrorObject (js "Error") (js "Time limit exceeded"))).

Definition sample_source : jsstring :=
  js "int main() { int n, s = 0, i = 0; while (i < 5) { scanf(&n); while (n <= 0) { } s += n; i++; } printf(s); }".

(** A source with a loop and a test of [n] against 0 with [<]. *)
Definition negative_test_source : jsstring :=
  js "int main() { int n; while (1) { scanf(&n); if (n < 0) break; } }".

(** A source with a loop and the test [if (n <= 0)]. *)
Definition sample_guarded_source : jsstring :=
  js "int main() { int n, s = 0, i = 0; while (i < 5) { scanf(&n); if (n <= 0) continue; s += n; i++; } printf(s); }".

(** An interpreter running a reference submission, which sums the first
    five positive inputs, and one running a submission that sums every
    input. *)
Definition reference_engine : engine :=
  fun _ input =>
    if str_eqb input (jse "1\n2\n3\n4\n5\n")
    then mkRun [js "sum = 15"] (Normal 0)
    else if str_eqb input (jse "10\n20\n30\n40\n50\n")
    then mkRun [js "sum = 150"] (Normal 0)
    else if str_eqb input (jse "0\n-3\n5\n7\n8\n9\n10\n11\n")
    then mkRun [js "sum = 39"] (Normal 0)
    else mkRun [js "sum = 25"] (Normal 0).

Definition summing_engine : engine :=
  fun _ input =>
    if str_eqb input (jse "1\n2\n3\n4\n5\n")
    then mkRun [js "sum = 15"] (Normal 0)
    else if str_eqb input (jse "10\n20\n30\n40\n50\n")
    then mkRun [js "sum = 150"] (Normal 0)
    else if str_eqb input (jse "0\n-3\n5\n7\n8\n9\n10\n11\n")
    then mkRun [js "sum = 47"] (Normal 0)
    else mkRun [js "sum = 22"] (Normal 0).

(** A source that sums without a test of the input. *)
Definition summing_source : jsstring :=
  js "int main() { int n, s = 0, i; for (i = 0; i < 5; i++) { scanf(&n); s += n; } printf(s); }".

(** An interpreter that throws the empty string. *)
Definition silent_engine : engine :=
  fun _ _ => mkRun [] (Abrupt (StringValue [])).

Definition sample_results : list TestResult :=
  [ mkResult (mkCase (js "one") (jse "1\n") 1 25 false) true (Some (Int 1)) MSG_PASSED false;
    mkResult (mkCase (js "two") (jse "0\n2\n") 2 25 true) false (Some (Int 0))
      (MSG_WRONG_1 ++ js "2" ++ MSG_WRONG_2 ++ js "0" ++ MSG_WRONG_3) false ].

(** ** A direct scan for numbers *)

(** The numbers of a text by a direct scan: at each place the longest
    number that starts there, or one code unit further when none does. *)
Fixpoint number_texts (fuel : nat) (s : jsstring) : list jsstring :=
  match fuel with
  | O => []
  | S k =>
      match number_prefix s with
      | [] => match s with c :: s' => number_texts k s' | [] => [] end
      | t => t :: number_texts k (skipn (length t) s)
      end
  end.

Definition numbers_in (s : jsstring) : list jsstring :=
  number_texts (S (length s)) s.


(** The code units of a decimal numeral. *)
Fixpoint uint_codes (d : Decimal.uint) : jsstring :=
  match d with
  | Decimal.Nil => []
  | Decimal.D0 d' => 48%N :: uint_codes d'
  | Decimal.D1 d' => 49%N :: uint_codes d'
  | Decimal.D2 d' => 50%N :: uint_codes d'
  | Decimal.D3 d' => 51%N :: uint_codes d'
  | Decimal.D4 d' => 52%N :: uint_codes d'
  | Decimal.D5 d' => 53%N :: uint_codes d'
  | Decimal.D6 d' => 54%N :: uint_codes d'
  | Decimal.D7 d' => 55%N :: uint_codes d'
  | Decimal.D8 d' => 56%N :: uint_codes d'
  | Decimal.D9 d' => 57%N :: uint_codes d'
  end.


(** ** The page

    The elements [script.js] reads and writes, each taken to be on the page
    (the functions below reach them with [getElementById] and without a
    test), with the part of their state the script touches. Log output and
    the deferred scroll are left out. *)

(** [String.prototype.trim] *)
Definition trim (s : jsstring) : jsstring :=
  rev (skip_space (rev (skip_space s))).

(** [test.input.replace(/\n/g, '\\n')]: each line feed becomes a backslash
    and an [n]. *)
Fixpoint escape_newlines (s : jsstring) : jsstring :=
  match s with
  | [] => []
  | c :: s' =>
      if (c =? 10)%N then 92%N :: 110%N :: escape_newlines s'
      else c :: escape_newlines s'
  end.

(** A [classList]: the class names of an element, in order. *)
Definition classList : Type := list jsstring.

Definition contains (l : classList) (token : jsstring) : bool :=
  existsb (str_eqb token) l.

Definition classList_add (l : classList) (token : jsstring) : classList :=
  if contains l token then l else l ++ [token].

Definition classList_remove (l : classList) (tokens : list jsstring) : classList :=
  filter (fun c => negb (existsb (str_eqb c) tokens)) l.

Definition classList_toggle (l : classList) (token : jsstring) (force : bool)
  : classList :=
  if force then classList_add l token else classList_remove l [token].

(** What a text node shows: a string, or the string form of a number. *)
Inductive shown : Type :=
| Text : jsstring -> shown
| NumberText : number -> shown.

Record Page : Type := mkPage {
  codeEditor_value : jsstring;
  runButton_disabled : bool;
  loadingIndicator_classes : classList;
  resultsSection_classes : classList;
  compilationOutput_text : jsstring;
  compilationOutput_color : jsstring;
  scoreValue_text : shown;
  scoreFeedback_text : jsstring;
  scoreCircle_classes : classList;
  scoreFeedback_classes : classList;
  testResultsBody_rows : list jsstring;
  alerts : list jsstring
}.

(** The double quote. *)
Definition dq : jsstring := [34%N].

Definition MSG_PASTE_CODE : jsstring := js "אנא הדבק קוד C לפני הרצת הבדיקות".
Definition MSG_NOT_LOADED : jsstring :=
  jse "שגיאה: מערכת ההרצה לא נטענה כראוי. אנא רענן את הדף ונסה שוב.\n\nודא שיש לך חיבור לאינטרנט (JSCPP נטען מ-CDN).".
Definition MSG_GENERAL_ERROR : jsstring := js "שגיאה כללית בזמן הרצת הבדיקות: ".
Definition MSG_RAN : jsstring := js "✅ הקוד התקמפל והורץ בהצלחה".
Definition MSG_ERROR_FEEDBACK : jsstring := js "אירעה שגיאה בזמן הבדיקה.".
Definition COLOR_RED : jsstring := js "#f44336".
Definition COLOR_GREEN : jsstring := js "#4CAF50".
Definition HIDDEN : jsstring := js "hidden".
Definition EXCELLENT : jsstring := js "excellent".
Definition GOOD : jsstring := js "good".
Definition POOR : jsstring := js "poor".
Definition ICON_PASS : jsstring := js "✓".
Definition ICON_FAIL : jsstring := js "✗".
Definition CLASS_PASS : jsstring := js "pass".
Definition CLASS_FAIL : jsstring := js "fail".

(** The pieces of the row template, around its six holes. *)
Definition ROW_1 : jsstring :=
  jse "\n            <td>".
Definition ROW_2 : jsstring :=
  jse "</td>\n            <td>".
Definition ROW_3 : jsstring :=
  jse "</td>\n            <td><code class=" ++ dq ++ jse "test-input" ++ dq ++ jse ">".
Definition ROW_4 : jsstring :=
  jse "</code></td>\n            <td><span class=" ++ dq ++ jse "test-status ".
Definition ROW_5 : jsstring :=
  dq ++ jse ">".
Definition ROW_6 : jsstring :=
  jse "</span></td>\n            <td class=" ++ dq ++ jse "test-notes" ++ dq ++ jse ">".
Definition ROW_7 : jsstring :=
  jse "</td>\n        ".

Section PageUpdates.

Variable page : Page.

Definition set_runButton_disabled (b : bool) : Page :=
  mkPage (codeEditor_value page) b (loadingIndicator_classes page)
    (resultsSection_classes page) (compilationOutput_text page)
    (compilationOutput_color page) (scoreValue_text page)
    (scoreFeedback_text page) (scoreCircle_classes page)
    (scoreFeedback_classes page) (testResultsBody_rows page) (alerts page).

Definition set_loadingIndicator_classes (l : classList) : Page :=
  mkPage (codeEditor_value page) (runButton_disabled page) l
    (resultsSection_classes page) (compilationOutput_text page)
    (compilationOutput_color page) (scoreValue_text page)
    (scoreFeedback_text page) (scoreCircle_classes page)
    (scoreFeedback_classes page) (testResultsBody_rows page) (alerts page).

Definition set_resultsSection_classes (l : classList) : Page :=
  mkPage (codeEditor_value page) (runButton_disabled page)
    (loadingIndicator_classes page) l (compilationOutput_text page)
    (compilationOutput_color page) (scoreValue_text page)
    (scoreFeedback_text page) (scoreCircle_classes page)
    (scoreFeedback_classes page) (testResultsBody_rows page) (alerts page).

Definition set_compilationOutput (text color : jsstring) : Page :=
  mkPage (codeEditor_value page) (runButton_disabled page)
    (loadingIndicator_classes page) (resultsSection_classes page) text color
    (scoreValue_text page) (scoreFeedback_text page) (scoreCircle_classes page)
    (scoreFeedback_classes page) (testResultsBody_rows page) (alerts page).

Definition set_score_texts (value : shown) (feedback : jsstring) : Page :=
  mkPage (codeEditor_value page) (runButton_disabled page)
    (loadingIndicator_classes page) (resultsSection_classes page)
    (compilationOutput_text page) (compilationOutput_color page) value feedback
    (scoreCircle_classes page) (scoreFeedback_classes page)
    (testResultsBody_rows page) (alerts page).

Definition set_score_classes (circle feedback : classList) : Page :=
  mkPage (codeEditor_value page) (runButton_disabled page)
    (loadingIndicator_classes page) (resultsSection_classes page)
    (compilationOutput_text page) (compilationOutput_color page)
    (scoreValue_text page) (scoreFeedback_text page) circle feedback
    (testResultsBody_rows page) (alerts page).

Definition set_rows (rows : list jsstring) : Page :=
  mkPage (codeEditor_value page) (runButton_disabled page)
    (loadingIndicator_classes page) (resultsSection_classes page)
    (compilationOutput_text page) (compilationOutput_color page)
    (scoreValue_text page) (scoreFeedback_text page) (scoreCircle_classes page)
    (scoreFeedback_classes page) rows (alerts page).

(** [alert(message)] *)
Definition alert (message : jsstring) : Page :=
  mkPage (codeEditor_value page) (runButton_disabled page)
    (loadingIndicator_classes page) (resultsSection_classes page)
    (compilationOutput_text page) (compilationOutput_color page)
    (scoreValue_text page) (scoreFeedback_text page) (scoreCircle_classes page)
    (scoreFeedback_classes page) (testResultsBody_rows page)
    (alerts page ++ [message]).

End PageUpdates.

Definition setUIRunning (isRunning : bool) (page : Page) : Page :=
  let page := set_runButton_disabled page isRunning in
  set_loadingIndicator_classes page
    (classList_toggle (loadingIndicator_classes page) HIDDEN (negb isRunning)).

(** The compilation text keeps its colour; the rows go. *)
Definition clearPreviousResults (page : Page) : Page :=
  let page :=
    set_resultsSection_classes page
      (classList_add (resultsSection_classes page) HIDDEN) in
  let page := set_compilationOutput page [] (compilationOutput_color page) in
  set_rows page [].

(** The markup of one row of the table, [index] counting from 0. *)
Definition row_markup (index : nat) (test : TestResult) : jsstring :=
  let statusIcon := if passed test then ICON_PASS else ICON_FAIL in
  let statusClass := if passed test then CLASS_PASS else CLASS_FAIL in
  let inputDisplay := escape_newlines (input (testCase test)) in
  ROW_1 ++ string_of_Z (Z.of_nat index + 1) ++ ROW_2 ++ name (testCase test)
    ++ ROW_3 ++ inputDisplay ++ ROW_4 ++ statusClass ++ ROW_5 ++ statusIcon
    ++ ROW_6 ++ notes test ++ ROW_7.

(** [testResults.forEach((test, index) => ...)], the rows appended one by
    one to those there. *)
Fixpoint append_rows (index : nat) (testResults : list TestResult)
    (rows : list jsstring) : list jsstring :=
  match testResults with
  | [] => rows
  | test :: remaining =>
      append_rows (S index) remaining (rows ++ [row_markup index test])
  end.

Definition displayResults (testResults : list TestResult) (score : number)
    (feedback : jsstring) (page : Page) : Page :=
  let page :=
    set_resultsSection_classes page
      (classList_remove (resultsSection_classes page) [HIDDEN]) in
  let page :=
    if firstCompilationFailed testResults
    then set_compilationOutput page
           (match testResults with first :: _ => notes first | [] => [] end)
           COLOR_RED
    else set_compilationOutput page MSG_RAN COLOR_GREEN in
  let page := set_score_texts page (NumberText score) feedback in
  let page :=
    set_score_classes page
      (classList_remove (scoreCircle_classes page) [EXCELLENT; GOOD; POOR])
      (classList_remove (scoreFeedback_classes page) [EXCELLENT; GOOD; POOR]) in
  let page :=
    if js_ge score (inject_Z 85) then
      set_score_classes page
        (classList_add (scoreCircle_classes page) EXCELLENT)
        (classList_add (scoreFeedback_classes page) EXCELLENT)
    else if js_ge score (inject_Z 60) then
      set_score_classes page
        (classList_add (scoreCircle_classes page) GOOD)
        (classList_add (scoreFeedback_classes page) GOOD)
    else
      set_score_classes page
        (classList_add (scoreCircle_classes page) POOR)
        (classList_add (scoreFeedback_classes page) POOR) in
  let page := set_rows page [] in
  set_rows page (append_rows 0 testResults (testResultsBody_rows page)).

Definition displayError (errorMessage : jsstring) (page : Page) : Page :=
  let page :=
    set_resultsSection_classes page
      (classList_remove (resultsSection_classes page) [HIDDEN]) in
  let page := set_compilationOutput page errorMessage COLOR_RED in
  set_score_texts page (Text (js "0")) MSG_ERROR_FEEDBACK.

(** [handleRunTests]: [JSCPP] is the interpreter when the library is loaded.
    What the [try] block awaits and computes is [gradeRun]; [catch] shows
    the message of what was thrown, and [finally] ends the busy state. *)
Definition handleRunTests (JSCPP : option engine) (page : Page) : Page :=
  let studentCode := trim (codeEditor_value page) in
  if negb (truthy studentCode) then alert page MSG_PASTE_CODE
  else
    match JSCPP with
    | None => alert page MSG_NOT_LOADED
    | Some JSCPP_run =>
        let page := setUIRunning true page in
        let page := clearPreviousResults page in
        let page :=
          match gradeRun JSCPP_run studentCode with
          | Normal report =>
              displayResults (results report) (score report)
                (feedbackText report) page
          | Abrupt error =>
              displayError
                (MSG_GENERAL_ERROR ++
                   match message_of error with
                   | Some message => message
                   | None => String_of error
                   end)
                page
          end in
        setUIRunning false page
    end.

(** ** Reading the reports *)

(** The sub-lists of a list, each in the order of the list. *)
Fixpoint sublists {A : Type} (l : list A) : list (list A) :=
  match l with
  | [] => [[]]
  | x :: l' => map (cons x) (sublists l') ++ sublists l'
  end.

(** Every text the feedback synthesizer can return: the five fixed
    messages, and the hints joined, for each choice of hints but the empty
    one. *)
Definition feedback_texts : list jsstring :=
  [MSG_COMPILE_FAILURE; MSG_EXCELLENT; MSG_GOOD; MSG_PROGRESS; MSG_NEEDS_WORK]
  ++ map (join (js " "))
       (filter (fun l => negb (length l =? 0)%nat)
          (sublists [HINT_SUM; HINT_VALIDATION; HINT_LOOP; HINT_GUARD])).

(** The order of the numbers; [NaN] is not compared. *)
Definition num_le (a b : number) : Prop :=
  match a, b with
  | Num x, Num y => (x <= y)%Q
  | NegInf, (Num _ | PosInf | NegInf) => True
  | Num _, PosInf => True
  | PosInf, PosInf => True
  | _, _ => False
  end.


(** A comment that names a loop and a comparison satisfies both
    heuristics. *)
Definition quality_comment : jsstring := jse "\n// while if (n > 0)".

(** ** Reading the page *)

(** The rows of results numbered from [index] on. *)
Fixpoint rows_from (index : nat) (testResults : list TestResult) : list jsstring :=
  match testResults with
  | [] => []
  | test :: remaining => row_markup index test :: rows_from (S index) remaining
  end.

(** The class of the band of a score: 85 and above, 60 and above, or
    anything else. *)
Definition band_class (score : number) : jsstring :=
  if js_ge score (inject_Z 85) then EXCELLENT
  else if js_ge score (inject_Z 60) then GOOD
  else POOR.

Definition BANDS : list jsstring := [EXCELLENT; GOOD; POOR].

(** A page before its first run: the loading indicator and the results
    hidden, nothing shown. *)
Definition sample_page (code : jsstring) : Page :=
  mkPage code false [js "loading"; HIDDEN] [js "results"; HIDDEN] [] []
    (Text (js "0")) [] [js "score-circle"] [js "score-feedback"] [] [].

(** ** Start-up

    [initializeApp] observes whether the interpreter is defined and
    whether the run button is on the page. What it leaves behind: the
    click listeners registered on the button, and whether a retry is
    scheduled ([setTimeout(initializeApp, 500)]). *)

Record Boot : Type := mkBoot {
  clickListeners : nat;
  retryScheduled : bool
}.

Definition initializeApp (JSCPP_defined runButton_found : bool) (st : Boot) : Boot :=
  if negb JSCPP_defined then mkBoot (clickListeners st) true
  else if runButton_found then mkBoot (S (clickListeners st)) (retryScheduled st)
  else st.

(** The calls of [initializeApp] from the load of the page on: the first
    call, and one more each time the scheduled retry fires, each with what
    it observes; the list holds the observations that are available. *)
Fixpoint boot (observed : list (bool * bool)) (st : Boot) : Boot :=
  match observed with
  | [] => st
  | (JSCPP_defined, runButton_found) :: later =>
      let st' :=
        initializeApp JSCPP_defined runButton_found
          (mkBoot (clickListeners st) false) in
      if retryScheduled st' then boot later st' else st'
  end.

(** ** The exercise

    What a scenario of the catalog asks for: the sum of the first five
    positive integers of its input. *)
Definition integers_in (text : jsstring) : list Z :=
  flat_map (fun x => match x with Int z => [z] | _ => [] end)
    (allNumbers (extractSumFromOutput text)).

Definition first_five_positive_sum (input : jsstring) : Z :=
  Zsum (firstn 5 (filter (fun n => 0 <? n) (integers_in input))).

(** ** Reading the numbers *)

(** [x] is the Number value of the integer [z]: [z] itself up to [2^53]
    in magnitude; beyond, with [2^shift] the distance of the doubles around
    [z], the multiple of [2^shift] nearest to [z], the even multiple when
    two are as near, with the sign of [z]; an infinity when that multiple
    reaches [2^1024]. *)
Definition rounds_to (z : Z) (x : jsint) : Prop :=
  if Z.abs z <=? 2 ^ 53 then x = Int z
  else
    let shift := Z.log2 (Z.abs z) - 52 in
    exists m,
      2 * Z.abs (m * 2 ^ shift - Z.abs z) <= 2 ^ shift /\
      (2 * Z.abs (m * 2 ^ shift - Z.abs z) = 2 ^ shift -> Z.even m = true) /\
      x = if 2 ^ 1024 <=? m * 2 ^ shift
          then (if 0 <? z then PosInfinity else NegInfinity)
          else Int (Z.sgn z * (m * 2 ^ shift)).

(** Two results whose points put the functional component next to a tie:
    158999999999999 points passed out of 159999999999999. *)
Definition tie_results : list TestResult :=
  [ mkResult (mkCase (js "one") (jse "1\n") 1 158999999999999 false) true
      (Some (Int 1)) MSG_PASSED false;
    mkResult (mkCase (js "two") (jse "0\n2\n") 2 1000000000000 true) false
      (Some (Int 0))
      (MSG_WRONG_1 ++ js "2" ++ MSG_WRONG_2 ++ js "0" ++ MSG_WRONG_3) false ].

(** A source with neither a loop nor a test of the input. *)
Definition bare_source : jsstring :=
  js "int main() { int a, b, c, d, e; scanf(&a, &b, &c, &d, &e); printf(a + b + c + d + e); }".
(** * Properties *)

(** ** Strings *)

Lemma startsWith_iff (p s : jsstring) :
  startsWith p s = true <-> exists t, s = p ++ t.
Proof.
  revert s; induction p as [|x p IH]; intros s; simpl.
  - split; [intros _; now exists s | reflexivity].
  - destruct s as [|y s].
    + split; [discriminate | intros [t Ht]; discriminate].
    + rewrite andb_true_iff, N.eqb_eq, IH. split.
      * intros [-> [t ->]]. now exists t.
      * intros [t Ht]. injection Ht as -> ->. split; [reflexivity | now exists t].
Qed.

Lemma includes_iff (s p : jsstring) :
  includes s p = true <-> exists a b, s = a ++ p ++ b.
Proof.
  induction s as [|c s IH].
  - simpl. rewrite orb_false_r, startsWith_iff. split.
    + intros [t Ht]. now exists [], t.
    + intros [a [b H]]. destruct a; [now exists b | discriminate].
  - cbn [includes]. rewrite orb_true_iff, startsWith_iff, IH. split.
    + intros [[t Ht] | [a [b Hab]]].
      * now exists [], t.
      * exists (c :: a), b. now rewrite Hab.
    + intros [a [b Hab]]. destruct a as [|x a].
      * left. now exists b.
      * right. injection Hab as -> ->. now exists a, b.
Qed.

Lemma str_eqb_eq (a b : jsstring) : str_eqb a b = true <-> a = b.
Proof.
  revert b; induction a as [|x a IH]; intros [|y b]; simpl; try easy.
  rewrite andb_true_iff, N.eqb_eq, IH. split.
  - now intros [-> ->].
  - intros H; injection H as -> ->; auto.
Qed.

(** ** The matcher against a declarative reading of the patterns *)

Module RegexFacts.

Lemma last_of_nil prev : last_of [] prev = prev.
Proof. reflexivity. Qed.

Lemma last_of_app w1 w2 prev :
  last_of (w1 ++ w2) prev = last_of w2 (last_of w1 prev).
Proof.
  unfold last_of. rewrite rev_app_distr.
  destruct (rev w2); simpl; reflexivity.
Qed.

Lemma last_of_cons c w prev : last_of (c :: w) prev = last_of w (Some c).
Proof. change (c :: w) with ([c] ++ w). now rewrite last_of_app. Qed.

Lemma reads_nil p q : reads p [] q <-> q = p.
Proof.
  unfold reads, last_of; simpl. split.
  - intros [H1 H2]. destruct p, q; simpl in *. congruence.
  - intros ->. auto.
Qed.

Lemma reads_trans p m q w1 w2 :
  reads p w1 m -> reads m w2 q -> reads p (w1 ++ w2) q.
Proof.
  unfold reads. intros [H1 H2] [H3 H4]. split.
  - now rewrite H1, H3, app_assoc.
  - now rewrite last_of_app, <- H2.
Qed.

Lemma reads_length p w q :
  reads p w q -> length (rest p) = (length w + length (rest q))%nat.
Proof. intros [H _]. now rewrite H, length_app. Qed.

Lemma denote_reads r : forall p q, denote r p q -> exists w, reads p w q.
Proof.
  induction r as [|f| |a IHa b IHb|a IHa b IHb|a IHa]; simpl; intros p q H.
  - exists []. now apply reads_nil.
  - destruct H as [c [H1 [_ H2]]]. exists [c]. split; simpl; auto.
  - destruct H as [-> _]. exists []. now apply reads_nil.
  - destruct H as [m [H1 H2]].
    destruct (IHa _ _ H1) as [w1 R1], (IHb _ _ H2) as [w2 R2].
    exists (w1 ++ w2). eapply reads_trans; eauto.
  - destruct H as [H|H]; eauto.
  - induction H as [p|p m q H1 _ [w2 R2]].
    + exists []. now apply reads_nil.
    + destruct (IHa _ _ H1) as [w1 R1].
      exists (w1 ++ w2). eapply reads_trans; eauto.
Qed.

Lemma denote_length r p q :
  denote r p q -> (length (rest q) <= length (rest p))%nat.
Proof.
  intros H. destruct (denote_reads _ _ _ H) as [w R].
  apply reads_length in R. lia.
Qed.

Lemma denote_same_length r p q :
  denote r p q -> length (rest q) = length (rest p) -> q = p.
Proof.
  intros H E. destruct (denote_reads _ _ _ H) as [w R].
  pose proof (reads_length R) as L.
  destruct w; [now apply reads_nil in R | simpl in L; lia].
Qed.

Lemma flat_map_nil {A B} (l : list A) : flat_map (fun _ : A => @nil B) l = [].
Proof. induction l; simpl; auto. Qed.

Lemma star_loop_end f n p : length (rest p) = 0%nat -> star_loop f n p = [p].
Proof.
  intros E. destruct n; simpl; [reflexivity|].
  rewrite (flat_map_ext _ (fun _ : pos => @nil pos)).
  - now rewrite flat_map_nil.
  - intros q. rewrite E.
    destruct (Nat.ltb_spec (length (rest q)) 0); [lia|reflexivity].
Qed.

Lemma star_loop_fuel2 f : forall n m p,
  (length (rest p) <= n)%nat -> (length (rest p) <= m)%nat ->
  star_loop f n p = star_loop f m p.
Proof.
  induction n as [|n IH]; intros m p Hn Hm.
  - rewrite !star_loop_end by lia. reflexivity.
  - destruct m as [|m].
    + rewrite !star_loop_end by lia. reflexivity.
    + simpl. f_equal. apply flat_map_ext. intros q.
      destruct (Nat.ltb_spec (length (rest q)) (length (rest p))); [|reflexivity].
      apply IH; lia.
Qed.

Lemma star_loop_fuel f n p :
  (length (rest p) <= n)%nat ->
  star_loop f n p = star_loop f (length (rest p)) p.
Proof. intros H. apply star_loop_fuel2; lia. Qed.

Lemma star_loop_sound (R : pos -> pos -> Prop) f :
  (forall p q, In q (f p) -> R p q) ->
  forall n p q, In q (star_loop f n p) -> star R p q.
Proof.
  intros Hf. induction n as [|n IH]; intros p q H; simpl in H.
  - destruct H as [->|[]]. constructor.
  - apply in_app_or in H. destruct H as [H|[->|[]]]; [|constructor].
    apply in_flat_map in H. destruct H as [m [Hm Hq]].
    destruct (length (rest m) <? length (rest p))%nat; [|destruct Hq].
    eapply star_step; eauto.
Qed.

Theorem rmatch_sound r : forall p q, In q (rmatch r p) -> denote r p q.
Proof.
  induction r as [|f| |a IHa b IHb|a IHa b IHb|a IHa]; simpl; intros p q H.
  - now destruct H as [->|[]].
  - destruct (rest p) as [|c s] eqn:E; [destruct H|].
    destruct (f c) eqn:Ef; [|destruct H].
    destruct H as [<-|[]]. exists c. simpl. auto.
  - destruct (at_boundary p) eqn:E; [|destruct H].
    destruct H as [->|[]]. auto.
  - apply in_flat_map in H. destruct H as [m [H1 H2]]. eauto.
  - apply in_app_or in H. destruct H; auto.
  - eapply star_loop_sound; eauto.
Qed.

Theorem rmatch_complete r : forall p q, denote r p q -> In q (rmatch r p).
Proof.
  induction r as [|f| |a IHa b IHb|a IHa b IHb|a IHa]; simpl; intros p q H.
  - now left.
  - destruct H as [c [H1 [H2 H3]]]. rewrite H1, H2. left.
    destruct q; simpl in *. now subst.
  - destruct H as [-> ->]. now left.
  - destruct H as [m [H1 H2]]. apply in_flat_map. eauto.
  - apply in_or_app. destruct H; auto.
  - induction H as [p|p m q H1 H2 IH].
    + destruct (length (rest p)); simpl; [now left|].
      apply in_or_app. right. now left.
    + pose proof (denote_length _ _ _ H1) as L.
      destruct (Nat.eq_dec (length (rest m)) (length (rest p))) as [E|NE].
      * now rewrite <- (denote_same_length _ _ _ H1 E).
      * destruct (length (rest p)) as [|k] eqn:E; [lia|].
        simpl. apply in_or_app. left. apply in_flat_map.
        exists m. split; [auto|]. rewrite E.
        destruct (Nat.ltb_spec (length (rest m)) (S k)); [|lia].
        rewrite star_loop_fuel by lia. exact IH.
Qed.

Lemma rmatch_iff r p q : In q (rmatch r p) <-> denote r p q.
Proof. split; [apply rmatch_sound | apply rmatch_complete]. Qed.

End RegexFacts.
Import RegexFacts.

(** ** The two heuristics and their patterns *)

Lemma denote_Str s : forall p q, denote (Str s) p q <-> reads p s q.
Proof.
  induction s as [|c s IH]; intros p q.
  - simpl. symmetry. apply reads_nil.
  - cbn [Str denote]. split.
    + intros [m [[c' [H1 [H2 H3]]] H4]].
      apply N.eqb_eq in H2. subst c'. apply IH in H4. destruct H4 as [H4 H5].
      split.
      * rewrite H1, H4. reflexivity.
      * rewrite last_of_cons, <- H3. exact H5.
    + intros [H1 H2]. exists (mkPos (Some c) (s ++ rest q)). split.
      * exists c. simpl. unfold lit. rewrite N.eqb_refl. auto.
      * apply IH. split; simpl; [reflexivity|].
        now rewrite H2, last_of_cons.
Qed.

Lemma denote_Star_Chr f p q :
  denote (Star (Chr f)) p q <-> exists w, reads p w q /\ forallb f w = true.
Proof.
  cbn [denote]. split.
  - induction 1 as [p|p m q [c [H1 [H2 H3]]] _ [w [[H4 H5] H6]]].
    + exists []. split; [now apply reads_nil | reflexivity].
    + exists (c :: w). split.
      * split; [now rewrite H1, H4 | now rewrite last_of_cons, <- H3].
      * simpl. now rewrite H2, H6.
  - intros [w [R F]]. revert p R F.
    induction w as [|c w IH]; intros p R F.
    + apply reads_nil in R. subst. constructor.
    + simpl in F. apply andb_true_iff in F. destruct F as [F1 F2].
      destruct R as [R1 R2].
      apply star_step with (m := mkPos (Some c) (w ++ rest q)).
      * exists c. simpl. auto.
      * apply IH; [|exact F2]. split; simpl; [reflexivity|].
        now rewrite R2, last_of_cons.
Qed.

Lemma denote_Seqs_app l1 l2 p q :
  denote (Seqs (l1 ++ l2)) p q <->
  exists m, denote (Seqs l1) p m /\ denote (Seqs l2) m q.
Proof.
  revert p; induction l1 as [|r l1 IH]; intros p; simpl.
  - split.
    + intros H. now exists p.
    + now intros [m [-> H]].
  - split.
    + intros [m [H1 H2]]. apply IH in H2. destruct H2 as [m' [H2 H3]].
      exists m'. split; [exists m; auto | auto].
    + intros [m' [[m [H1 H2]] H3]]. exists m. split; [auto|].
      apply IH. now exists m'.
Qed.

(** [op \s* d]: a comparison operator, white space, a digit. *)
Lemma denote_cmp op d p q :
  denote (Seqs [Str op; Star (Chr is_space); Str d]) p q <->
  exists ws, reads p (op ++ ws ++ d) q /\ forallb is_space ws = true.
Proof.
  cbn [Seqs]. cbn [denote]. split.
  - intros [m1 [H1 [m2 [H2 [m3 [H3 ->]]]]]].
    apply denote_Str in H1, H3. apply denote_Star_Chr in H2.
    destruct H2 as [ws [H2 F]]. exists ws. split; [|exact F].
    eapply reads_trans; [eauto|]. eapply reads_trans; eauto.
  - intros [ws [[R1 R2] F]].
    set (m2 := mkPos (last_of (op ++ ws) (before p)) (d ++ rest q)).
    set (m1 := mkPos (last_of op (before p)) (ws ++ d ++ rest q)).
    exists m1. split.
    { apply denote_Str. split; simpl; [now rewrite R1, <- !app_assoc | reflexivity]. }
    exists m2. split.
    { apply denote_Star_Chr. exists ws. split; [|exact F].
      split; simpl; [reflexivity | now rewrite last_of_app]. }
    exists q. split; [|reflexivity].
    apply denote_Str. split; simpl; [reflexivity|].
    now rewrite R2, !last_of_app.
Qed.

Lemma In_positions_from s : forall prev p,
  In p (positions_from prev s) <->
  exists u v, s = u ++ v /\ p = mkPos (last_of u prev) v.
Proof.
  induction s as [|c s IH]; intros prev p.
  - simpl. split.
    + intros [<-|[]]. now exists [], [].
    + intros [u [v [H ->]]]. symmetry in H. apply app_eq_nil in H.
      destruct H as [-> ->]. now left.
  - cbn [positions_from In]. rewrite IH. split.
    + intros [<-|[u [v [-> ->]]]].
      * now exists [], (c :: s).
      * exists (c :: u), v. now rewrite last_of_cons.
    + intros [u [v [H ->]]]. destruct u as [|x u].
      * left. simpl in H. now subst.
      * right. injection H as -> ->. exists u, v. now rewrite last_of_cons.
Qed.

(** [test]: some split of the text starts a match. *)
Lemma test_iff r s :
  test r s = true <->
  exists u v q, s = u ++ v /\ denote r (mkPos (last_of u None) v) q.
Proof.
  unfold test. rewrite existsb_exists. split.
  - intros [p [Hp Hm]]. apply In_positions_from in Hp.
    destruct Hp as [u [v [-> ->]]].
    destruct (rmatch r _) as [|q l] eqn:E; [discriminate|].
    exists u, v, q. split; [reflexivity|].
    apply rmatch_sound. rewrite E. now left.
  - intros [u [v [q [-> H]]]]. exists (mkPos (last_of u None) v). split.
    + apply In_positions_from. now exists u, v.
    + apply rmatch_complete in H. destruct (rmatch r _); [destruct H | reflexivity].
Qed.

Lemma last_of_nonempty w prev : w <> [] -> last_of w prev = last_of w None.
Proof.
  intros H. unfold last_of. destruct (rev w) eqn:E; [|reflexivity].
  apply (f_equal (@rev _)) in E. rewrite rev_involutive in E. contradiction.
Qed.

Lemma starts_word_app kw v : starts_word kw = true -> starts_word (kw ++ v) = true.
Proof. destruct kw; simpl; [discriminate | auto]. Qed.

(** A word read between [p] and [m] lies between two boundaries exactly
    when no word character touches it on either side. *)
Lemma word_between_boundaries kw p m :
  reads p kw m -> starts_word kw = true -> ends_word kw = true ->
  (at_boundary p = true /\ at_boundary m = true <->
   word_before p = false /\ word_after m = false).
Proof.
  intros [R1 R2] Hs He. unfold at_boundary.
  assert (Ha : word_after p = true).
  { unfold word_after. rewrite R1. now apply starts_word_app. }
  assert (Hb : word_before m = true).
  { unfold word_before. rewrite R2, last_of_nonempty.
    - exact He.
    - destruct kw; [discriminate | congruence]. }
  rewrite Ha, Hb.
  destruct (word_before p), (word_after m); simpl; intuition congruence.
Qed.

Lemma hasLoop_iff src : hasLoop src = true <-> has_loop_keyword src.
Proof.
  unfold hasLoop, has_loop_keyword. rewrite test_iff. split.
  - intros [u [v [q [-> H]]]]. unfold re_loop in H. cbn [Seqs Alts denote] in H.
    destruct H as [m0 [[-> B1] [m [H [m1 [[-> B2] ->]]]]]].
    assert (exists kw, In kw loop_keywords /\ reads (mkPos (last_of u None) v) kw m)
      as [kw [Hin R]].
    { destruct H as [H|[H|H]]; apply denote_Str in H;
        eexists; (split; [|exact H]); simpl; auto. }
    assert (starts_word kw = true /\ ends_word kw = true) as [Hs He].
    { destruct Hin as [<-|[<-|[<-|[]]]]; split; reflexivity. }
    destruct (proj1 (word_between_boundaries R Hs He) (conj B1 B2)) as [W1 W2].
    exists u, kw, (rest m). destruct R as [R1 _]. simpl in R1.
    repeat split; auto. now rewrite R1.
  - intros [u [kw [v [-> [Hin [W1 W2]]]]]].
    set (p := mkPos (last_of u None) (kw ++ v)).
    set (m := mkPos (last_of kw (before p)) v).
    assert (R : reads p kw m) by (split; reflexivity).
    assert (starts_word kw = true /\ ends_word kw = true) as [Hs He].
    { destruct Hin as [<-|[<-|[<-|[]]]]; split; reflexivity. }
    destruct (proj2 (word_between_boundaries R Hs He) (conj W1 W2)) as [B1 B2].
    exists u, (kw ++ v), m. split; [reflexivity|].
    unfold re_loop. cbn [Seqs Alts denote]. fold p.
    exists p. split; [auto|]. exists m. split.
    + destruct Hin as [<-|[<-|[<-|[]]]]; [left|right;left|right;right];
        now apply denote_Str.
    + exists m. auto.
Qed.

Lemma denote_Chr_lit c p q : denote (Chr (lit c)) p q <-> reads p [c] q.
Proof.
  rewrite <- (denote_Str [c]). cbn [Str denote]. split.
  - intros H. now exists q.
  - now intros [m [H ->]].
Qed.

(** [\bif\s*\([^)]*] *)
Lemma denote_if_open p m :
  denote (Seqs re_if_open) p m <->
  exists ws body,
    word_before p = false /\
    reads p (js "if" ++ ws ++ js "(" ++ body) m /\
    forallb is_space ws = true /\
    forallb (not_lit (cu ")")) body = true.
Proof.
  unfold re_if_open. cbn [Seqs]. cbn [denote]. split.
  - intros [m0 [[-> B] [m1 [H1 [m2 [H2 [m3 [H3 [m4 [H4 ->]]]]]]]]]].
    apply denote_Str in H1. apply denote_Star_Chr in H2, H4.
    apply denote_Chr_lit in H3.
    destruct H2 as [ws [H2 F2]], H4 as [body [H4 F4]].
    exists ws, body. repeat split; auto.
    + unfold at_boundary in B.
      assert (Ha : word_after p = true).
      { unfold word_after. destruct H1 as [-> _]. reflexivity. }
      rewrite Ha in B. now destruct (word_before p).
    + destruct (reads_trans H1 (reads_trans H2 (reads_trans H3 H4))); assumption.
    + destruct (reads_trans H1 (reads_trans H2 (reads_trans H3 H4))); assumption.
  - intros [ws [body [W [[R1 R2] [F2 F4]]]]].
    set (r4 := rest m).
    set (r3 := body ++ r4). set (r2 := js "(" ++ r3). set (r1 := ws ++ r2).
    assert (E : rest p = js "if" ++ r1).
    { rewrite R1. unfold r1, r2, r3, r4. now rewrite <- !app_assoc. }
    set (b1 := last_of (js "if") (before p)).
    set (b2 := last_of ws b1). set (b3 := last_of (js "(") b2).
    exists p. split.
    { split; [reflexivity|]. unfold at_boundary, word_after. rewrite E, W.
      reflexivity. }
    exists (mkPos b1 r1). split.
    { apply denote_Str. split; [exact E | reflexivity]. }
    exists (mkPos b2 r2). split.
    { apply denote_Star_Chr. exists ws. split; [split; reflexivity | exact F2]. }
    exists (mkPos b3 r3). split.
    { apply denote_Chr_lit. split; reflexivity. }
    exists m. split; [|reflexivity].
    apply denote_Star_Chr. exists body. split; [|exact F4].
    split; [reflexivity|]. simpl. rewrite R2. unfold b3, b2, b1.
    now rewrite !last_of_app.
Qed.

Lemma space_not_close c : is_space c = true -> not_lit (cu ")") c = true.
Proof.
  unfold is_space, not_lit. intros H.
  destruct (N.eqb_spec c (cu ")")) as [->|]; [discriminate | reflexivity].
Qed.

Lemma spaces_not_close ws :
  forallb is_space ws = true -> forallb (not_lit (cu ")")) ws = true.
Proof.
  induction ws as [|c ws IH]; simpl; [reflexivity|].
  intros H. apply andb_true_iff in H. destruct H as [H1 H2].
  now rewrite (space_not_close _ H1), IH.
Qed.

(** [num\s*] before a comparison is text without a closing parenthesis. *)
Lemma denote_num_cmp op d p q :
  denote (Seqs [Str (js "num"); Star (Chr is_space); Str op;
                Star (Chr is_space); Str d]) p q ->
  exists pre ws,
    forallb (not_lit (cu ")")) pre = true /\
    reads p (pre ++ op ++ ws ++ d) q /\ forallb is_space ws = true.
Proof.
  intros H. change (Seqs ?l) with
    (Seq (Str (js "num")) (Seq (Star (Chr is_space))
       (Seqs [Str op; Star (Chr is_space); Str d]))) in H.
  cbn [denote] in H. destruct H as [m1 [H1 [m2 [H2 H3]]]].
  apply denote_Str in H1. apply denote_Star_Chr in H2. apply denote_cmp in H3.
  destruct H2 as [ws1 [H2 F1]], H3 as [ws [H3 F]].
  exists (js "num" ++ ws1), ws. repeat split; auto.
  - rewrite forallb_app. now rewrite (spaces_not_close _ F1).
  - destruct (reads_trans (reads_trans H1 H2) H3); assumption.
  - destruct (reads_trans (reads_trans H1 H2) H3); assumption.
Qed.

Lemma guard_found u v m q ws body pre op ws' d :
  word_before (mkPos (last_of u None) v) = false ->
  reads (mkPos (last_of u None) v) (js "if" ++ ws ++ js "(" ++ body) m ->
  forallb is_space ws = true ->
  forallb (not_lit (cu ")")) body = true ->
  forallb (not_lit (cu ")")) pre = true ->
  reads m (pre ++ op ++ ws' ++ d) q ->
  forallb is_space ws' = true ->
  In (op, d) guard_comparisons ->
  has_positivity_guard (u ++ v).
Proof.
  intros W R Fws Fbody Fpre R' Fws' Hin.
  exists u, ws, (body ++ pre), op, ws', d, (rest q).
  repeat split; auto.
  - destruct R as [R _], R' as [R' _]. simpl in R. rewrite R, R'.
    now rewrite <- !app_assoc.
  - rewrite forallb_app. now rewrite Fbody, Fpre.
Qed.

Theorem hasPositiveCheck_iff src :
  hasPositiveCheck src = true <-> has_positivity_guard src.
Proof.
  unfold hasPositiveCheck. rewrite orb_true_iff, !test_iff. split.
  - intros [[u [v [q [-> H]]]] | [u [v [q [-> H]]]]].
    + unfold re_guard_le in H. apply denote_Seqs_app in H.
      destruct H as [m [H1 H2]]. apply denote_if_open in H1.
      destruct H1 as [ws [body [W [R [F1 F2]]]]].
      cbn [Seqs] in H2. cbn [denote] in H2. destruct H2 as [q' [H2 ->]].
      cbn [Alts] in H2. cbn [denote] in H2.
      destruct H2 as [H2|[H2|[H2|H2]]].
      * apply denote_cmp in H2. destruct H2 as [ws' [R' F']].
        eapply (@guard_found u v m q' ws body [] (js "<=") ws' (js "0"));
          simpl; auto.
      * apply denote_cmp in H2. destruct H2 as [ws' [R' F']].
        eapply (@guard_found u v m q' ws body [] (js "<") ws' (js "1"));
          simpl; auto.
      * apply denote_num_cmp in H2. destruct H2 as [pre [ws' [Fp [R' F']]]].
        eapply (@guard_found u v m q' ws body pre (js "<=") ws' (js "0"));
          simpl; auto.
      * apply denote_num_cmp in H2. destruct H2 as [pre [ws' [Fp [R' F']]]].
        eapply (@guard_found u v m q' ws body pre (js "<") ws' (js "1"));
          simpl; auto.
    + unfold re_guard_gt in H. apply denote_Seqs_app in H.
      destruct H as [m [H1 H2]]. apply denote_if_open in H1.
      destruct H1 as [ws [body [W [R [F1 F2]]]]].
      apply denote_cmp in H2. destruct H2 as [ws' [R' F']].
      eapply (@guard_found u v m q ws body [] (js ">") ws' (js "0"));
        simpl; auto.
  - intros [u [ws [body [op [ws' [d [v [-> [W [F1 [F2 [Hin F']]]]]]]]]]]].
    set (t := op ++ ws' ++ d ++ v).
    set (p := mkPos (last_of u None) (js "if" ++ ws ++ js "(" ++ body ++ t)).
    set (m := mkPos (last_of (js "if" ++ ws ++ js "(" ++ body) (before p)) t).
    set (q := mkPos (last_of (op ++ ws' ++ d) (before m)) v).
    assert (H1 : denote (Seqs re_if_open) p m).
    { apply denote_if_open. exists ws, body. repeat split; auto.
      simpl. now rewrite <- !app_assoc. }
    assert (H2 : denote (Seqs [Str op; Star (Chr is_space); Str d]) m q).
    { apply denote_cmp. exists ws'. split; [|exact F'].
      split; [|reflexivity]. simpl. unfold t. now rewrite <- !app_assoc. }
    destruct Hin as [E|[E|[E|[]]]]; injection E as <- <-.
    + left. exists u, (rest p), q. split; [reflexivity|].
      unfold re_guard_le. apply denote_Seqs_app. exists m. split; [exact H1|].
      cbn [Seqs]. cbn [denote]. exists q. split; [|reflexivity].
      cbn [Alts]. cbn [denote]. left. exact H2.
    + left. exists u, (rest p), q. split; [reflexivity|].
      unfold re_guard_le. apply denote_Seqs_app. exists m. split; [exact H1|].
      cbn [Seqs]. cbn [denote]. exists q. split; [|reflexivity].
      cbn [Alts]. cbn [denote]. right. left. exact H2.
    + right. exists u, (rest p), q. split; [reflexivity|].
      unfold re_guard_gt. apply denote_Seqs_app. exists m. split; [exact H1|].
      exact H2.
Qed.

(** ** Numbers in a text *)

Lemma minus_not_digit : is_digit (cu "-") = false.
Proof. reflexivity. Qed.

Lemma take_digits_split s :
  exists v, s = take_digits s ++ v /\ starts_digit v = false /\
            forallb is_digit (take_digits s) = true.
Proof.
  induction s as [|c s [v [E [Hv Hd]]]].
  - exists []. auto.
  - cbn [take_digits]. destruct (is_digit c) eqn:Ec.
    + exists v. cbn [forallb app]. rewrite Ec, Hd. repeat split; auto.
      now f_equal.
    + exists (c :: s). cbn [forallb app starts_digit]. auto.
Qed.

Lemma take_digits_app ds v :
  forallb is_digit ds = true -> starts_digit v = false ->
  take_digits (ds ++ v) = ds.
Proof.
  induction ds as [|d ds IH]; simpl; intros Hd Hv.
  - destruct v as [|c v]; [reflexivity|]. simpl in *. now rewrite Hv.
  - apply andb_true_iff in Hd. destruct Hd as [H1 H2].
    now rewrite H1, IH.
Qed.

Lemma take_digits_starts s : take_digits s = [] -> starts_digit s = false.
Proof.
  destruct s as [|c s]; simpl; [reflexivity|].
  destruct (is_digit c); [discriminate | reflexivity].
Qed.

Lemma number_prefix_split s :
  exists v, s = number_prefix s ++ v /\
    (number_prefix s <> [] ->
     is_number_text (number_prefix s) = true /\ starts_digit v = false).
Proof.
  destruct s as [|c s]; [exists []; split; [reflexivity | now intros []]|].
  unfold number_prefix. destruct (N.eqb_spec c (cu "-")) as [->|Hc].
  - destruct (take_digits_split s) as [v [E [Hv Hd]]].
    destruct (take_digits s) as [|d ds] eqn:Et.
    + exists (cu "-" :: s). split; [reflexivity | now intros []].
    + exists v. split; [now rewrite E at 1|]. intros _. split; [|exact Hv].
      unfold is_number_text. now rewrite N.eqb_refl.
  - destruct (take_digits_split (c :: s)) as [v [E [Hv Hd]]].
    exists v. split; [exact E|]. intros Hne. split; [|exact Hv].
    destruct (take_digits (c :: s)) as [|d ds] eqn:Et; [now destruct Hne|].
    assert (d = c) as ->.
    { simpl in Et. destruct (is_digit c); [congruence | discriminate]. }
    unfold is_number_text. apply N.eqb_neq in Hc. now rewrite Hc.
Qed.

Lemma number_text_cases t :
  is_number_text t = true ->
  (exists d ds, t = cu "-" :: d :: ds /\ forallb is_digit (d :: ds) = true) \/
  (exists d ds, t = d :: ds /\ d <> cu "-" /\ forallb is_digit (d :: ds) = true).
Proof.
  destruct t as [|c t]; [discriminate|]. unfold is_number_text.
  destruct (N.eqb_spec c (cu "-")) as [->|Hc]; intros H.
  - left. apply andb_true_iff in H. destruct H as [H1 H2].
    destruct t as [|d ds]; [discriminate|]. now exists d, ds.
  - right. now exists c, t.
Qed.

Lemma number_prefix_text t v :
  is_number_text t = true -> starts_digit v = false ->
  number_prefix (t ++ v) = t.
Proof.
  intros Ht Hv.
  destruct (number_text_cases _ Ht) as [[d [ds [-> Hd]]]|[d [ds [-> [Hc Hd]]]]].
  - cbn [app number_prefix]. rewrite N.eqb_refl.
    change (d :: ds ++ v) with ((d :: ds) ++ v).
    now rewrite (take_digits_app _ _ Hd Hv).
  - cbn [app number_prefix]. apply N.eqb_neq in Hc. rewrite Hc.
    change (d :: ds ++ v) with ((d :: ds) ++ v).
    now rewrite (take_digits_app _ _ Hd Hv).
Qed.

Lemma number_prefix_none s t v :
  number_prefix s = [] -> s = t ++ v -> is_number_text t = false.
Proof.
  intros Hn ->. destruct (is_number_text t) eqn:Ht; [|reflexivity].
  exfalso.
  destruct (number_text_cases _ Ht) as [[d [ds [-> Hd]]]|[d [ds [-> [Hc Hd]]]]];
    cbn [app number_prefix] in Hn; simpl in Hd;
    apply andb_true_iff in Hd; destruct Hd as [Hd _].
  - rewrite N.eqb_refl in Hn. simpl in Hn. rewrite Hd in Hn. discriminate.
  - apply N.eqb_neq in Hc. rewrite Hc in Hn. simpl in Hn. rewrite Hd in Hn.
    discriminate.
Qed.

(** The matcher on [\d*]: the longest run of digits comes first. *)
Lemma star_digits_head ds : forall n prev v,
  forallb is_digit ds = true -> starts_digit v = false ->
  (length (ds ++ v) <= n)%nat ->
  exists l, star_loop (rmatch (Chr is_digit)) n (mkPos prev (ds ++ v))
            = mkPos (last_of ds prev) v :: l.
Proof.
  set (f := rmatch (Chr is_digit)).
  induction ds as [|d ds IH]; intros n prev v Hd Hv Hn.
  - exists []. simpl app. destruct n as [|n]; [reflexivity|].
    cbn [star_loop].
    assert (Hf : f (mkPos prev v) = []).
    { unfold f. cbn [rmatch rest]. destruct v as [|c v]; [reflexivity|].
      simpl in Hv. now rewrite Hv. }
    now rewrite Hf.
  - simpl in Hd. apply andb_true_iff in Hd. destruct Hd as [H1 H2].
    destruct n as [|n]; [simpl in Hn; lia|].
    cbn [star_loop app].
    assert (Hf : f (mkPos prev (d :: ds ++ v)) = [mkPos (Some d) (ds ++ v)]).
    { unfold f. cbn [rmatch rest]. now rewrite H1. }
    rewrite Hf. cbn [flat_map rest]. simpl length in *.
    destruct (Nat.ltb_spec (length (ds ++ v)) (S (length (ds ++ v)))); [|lia].
    destruct (IH n (Some d) v H2 Hv ltac:(lia)) as [l ->].
    rewrite last_of_cons. eexists. reflexivity.
Qed.

Lemma rmatch_Seq a b p : rmatch (Seq a b) p = flat_map (rmatch b) (rmatch a p).
Proof. reflexivity. Qed.

Lemma rmatch_Alt a b p : rmatch (Alt a b) p = rmatch a p ++ rmatch b p.
Proof. reflexivity. Qed.

Lemma rmatch_Star a p :
  rmatch (Star a) p = star_loop (rmatch a) (length (rest p)) p.
Proof. reflexivity. Qed.

Lemma rmatch_Chr f p :
  rmatch (Chr f) p =
  match rest p with
  | c :: s' => if f c then [mkPos (Some c) s'] else []
  | [] => []
  end.
Proof. reflexivity. Qed.

Lemma rmatch_plus_digits_none p :
  starts_digit (rest p) = false -> rmatch (Plus (Chr is_digit)) p = [].
Proof.
  intros H. unfold Plus. rewrite rmatch_Seq, rmatch_Chr.
  destruct (rest p) as [|c s]; [reflexivity|]. simpl in H. now rewrite H.
Qed.

Lemma rmatch_plus_digits_some p d ds v :
  rest p = d :: ds ++ v -> forallb is_digit (d :: ds) = true ->
  starts_digit v = false ->
  exists l, rmatch (Plus (Chr is_digit)) p
            = mkPos (last_of (d :: ds) (before p)) v :: l.
Proof.
  intros E Hd Hv. unfold Plus. rewrite rmatch_Seq, rmatch_Chr, E.
  simpl in Hd. apply andb_true_iff in Hd. destruct Hd as [H1 H2].
  rewrite H1. cbn [flat_map]. rewrite rmatch_Star. cbn [rest].
  destruct (@star_digits_head ds (length (ds ++ v)) (Some d) v H2 Hv (le_n _))
    as [l ->].
  rewrite last_of_cons. eexists. reflexivity.
Qed.

Lemma rmatch_number_none p :
  number_prefix (rest p) = [] -> rmatch re_number p = [].
Proof.
  intros H. unfold re_number, Opt. rewrite rmatch_Seq, rmatch_Alt, rmatch_Chr.
  destruct (rest p) as [|c s] eqn:E.
  - cbn [app flat_map rmatch]. rewrite rmatch_plus_digits_none; [reflexivity|].
    now rewrite E.
  - unfold number_prefix in H. unfold lit.
    destruct (N.eqb_spec c (cu "-")) as [->|Hc].
    + cbn [app flat_map rmatch]. rewrite !rmatch_plus_digits_none; [reflexivity| |].
      * rewrite E. reflexivity.
      * cbn [rest]. destruct (take_digits s) eqn:Et; [|discriminate].
        now apply take_digits_starts.
    + cbn [app flat_map rmatch]. rewrite rmatch_plus_digits_none; [reflexivity|].
      rewrite E. now apply take_digits_starts.
Qed.

Lemma rmatch_number_some p t v :
  rest p = t ++ v -> is_number_text t = true -> starts_digit v = false ->
  exists l, rmatch re_number p = mkPos (last_of t (before p)) v :: l.
Proof.
  intros E Ht Hv. unfold re_number, Opt.
  rewrite rmatch_Seq, rmatch_Alt, rmatch_Chr.
  destruct (number_text_cases _ Ht) as [[d [ds [-> Hd]]]|[d [ds [-> [Hc Hd]]]]];
    rewrite E; cbn [app]; unfold lit.
  - rewrite N.eqb_refl. cbn [app flat_map].
    destruct (@rmatch_plus_digits_some (mkPos (Some (cu "-")) (d :: ds ++ v))
                d ds v eq_refl Hd Hv) as [l ->].
    rewrite (last_of_cons (cu "-")). eexists. reflexivity.
  - apply N.eqb_neq in Hc. rewrite Hc. cbn [app flat_map rmatch].
    destruct (@rmatch_plus_digits_some p d ds v E Hd Hv) as [l ->].
    eexists. reflexivity.
Qed.

Lemma number_text_nonempty t : is_number_text t = true -> t <> [].
Proof. now destruct t. Qed.

(** Inside a number every code unit is a digit, except a leading minus. *)
Lemma number_text_inner t x c y :
  is_number_text t = true -> t = x ++ c :: y -> x <> [] -> is_digit c = true.
Proof.
  intros Ht E Hx.
  assert (H : exists h r, t = h :: r /\ forallb is_digit r = true).
  { destruct (number_text_cases _ Ht) as [[d [ds [-> Hd]]]|[d [ds [-> [_ Hd]]]]].
    - now exists (cu "-"), (d :: ds).
    - simpl in Hd. apply andb_true_iff in Hd. now exists d, ds. }
  destruct H as [h [r [-> Hr]]].
  destruct x as [|x0 x]; [contradiction|].
  injection E as _ ->. rewrite forallb_app in Hr.
  apply andb_true_iff in Hr. destruct Hr as [_ Hr]. simpl in Hr.
  now apply andb_true_iff in Hr.
Qed.

Lemma number_text_any t x c y :
  is_number_text t = true -> t = x ++ c :: y ->
  is_digit c || (c =? cu "-")%N = true.
Proof.
  intros Ht E. destruct x as [|x0 x].
  - simpl in E. subst t.
    destruct (number_text_cases _ Ht) as [[d [ds [E Hd]]]|[d [ds [E [_ Hd]]]]];
      injection E as -> _.
    + now rewrite N.eqb_refl, orb_true_r.
    + simpl in Hd. apply andb_true_iff in Hd. destruct Hd as [-> _]. reflexivity.
  - rewrite (@number_text_inner t (x0 :: x) c y Ht E); [reflexivity | discriminate].
Qed.

Lemma number_text_digits t :
  is_number_text t = true -> starts_digit t = true -> forallb is_digit t = true.
Proof.
  intros Ht Hs.
  destruct (number_text_cases _ Ht) as [[d [ds [-> Hd]]]|[d [ds [-> [_ Hd]]]]].
  - simpl in Hs. rewrite minus_not_digit in Hs. discriminate.
  - exact Hd.
Qed.

Lemma number_text_snoc t c :
  is_number_text t = true -> is_digit c = true -> is_number_text (t ++ [c]) = true.
Proof.
  intros Ht Hc.
  destruct (number_text_cases _ Ht) as [[d [ds [-> Hd]]]|[d [ds [-> [Hm Hd]]]]].
  - cbn [app is_number_text]. rewrite N.eqb_refl.
    change (d :: ds ++ [c]) with ((d :: ds) ++ [c]).
    rewrite forallb_app, Hd. simpl. now rewrite Hc.
  - cbn [app is_number_text]. apply N.eqb_neq in Hm. rewrite Hm.
    change (d :: ds ++ [c]) with ((d :: ds) ++ [c]).
    rewrite forallb_app, Hd. simpl. now rewrite Hc.
Qed.

Lemma number_text_cons c t :
  is_number_text t = true -> starts_digit t = true ->
  is_digit c || (c =? cu "-")%N = true -> is_number_text (c :: t) = true.
Proof.
  intros Ht Hs Hc. pose proof (number_text_digits _ Ht Hs) as Hd.
  unfold is_number_text. destruct (N.eqb_spec c (cu "-")) as [->|Hm].
  - rewrite Hd. destruct t; [discriminate | reflexivity].
  - rewrite orb_false_r in Hc. simpl. now rewrite Hc, Hd.
Qed.

Lemma last_of_snoc u c prev : last_of (u ++ [c]) prev = Some c.
Proof. now rewrite last_of_app. Qed.

Lemma last_of_Some u c : last_of u None = Some c -> exists u', u = u' ++ [c].
Proof.
  destruct u as [|x u] using rev_ind; [discriminate|].
  rewrite last_of_snoc. intros [= ->]. now exists u.
Qed.

Lemma starts_digit_app t v : t <> [] -> starts_digit (t ++ v) = starts_digit t.
Proof. now destruct t. Qed.

Theorem bounded_maximal s u t v :
  bounded_number_at s u t v -> maximal_number_at s u t v.
Proof.
  intros [[E Ht] [Hv Hu]]. split; [now split|].
  intros u' t' v' [E' Ht'] [a ->] [b ->].
  assert (Et : t' = a ++ t ++ b).
  { rewrite E' in E. rewrite <- !app_assoc in E. apply app_inv_head in E.
    rewrite !app_assoc in E. apply app_inv_tail in E.
    now rewrite <- !app_assoc in E. }
  assert (Hb : b = []).
  { destruct b as [|c b]; [reflexivity|]. exfalso.
    simpl in Hv. rewrite app_assoc in Et.
    rewrite (@number_text_inner _ _ _ _ Ht' Et) in Hv; [discriminate|].
    intros H. apply app_eq_nil in H. destruct H as [_ H].
    now apply (number_text_nonempty Ht). }
  assert (Ha : a = []).
  { destruct a as [|c a] using rev_ind; [reflexivity|]. exfalso. clear IHa.
    destruct t as [|d t0]; [discriminate|].
    assert (Hd : is_digit d = true).
    { apply (@number_text_inner t' (a ++ [c]) d (t0 ++ b) Ht').
      - now rewrite Et.
      - now destruct a. }
    specialize (Hu Hd). unfold ends_digit_or_minus in Hu.
    rewrite app_assoc, last_of_snoc in Hu.
    rewrite <- app_assoc in Et. simpl in Et.
    now rewrite (@number_text_any _ _ _ _ Ht' Et) in Hu. }
  subst a b. rewrite !app_nil_r in *. simpl in Et. auto.
Qed.

Theorem maximal_bounded s u t v :
  maximal_number_at s u t v -> bounded_number_at s u t v.
Proof.
  intros [[E Ht] Hmax]. split; [now split|]. split.
  - destruct v as [|c v']; [reflexivity|]. simpl.
    destruct (is_digit c) eqn:Hc; [exfalso | reflexivity].
    destruct (Hmax u (t ++ [c]) v') as [_ [_ H]].
    + split; [now rewrite E, <- !app_assoc | now apply number_text_snoc].
    + exists []. now rewrite app_nil_r.
    + now exists [c].
    + apply (f_equal (@length _)) in H. simpl in H. lia.
  - intros Hs. destruct (ends_digit_or_minus u) eqn:He; [exfalso | reflexivity].
    unfold ends_digit_or_minus in He.
    destruct (last_of u None) as [c|] eqn:El; [|discriminate].
    destruct (last_of_Some _ El) as [u' ->].
    destruct (Hmax u' (c :: t) v) as [H _].
    + split; [now rewrite E, <- !app_assoc | now apply number_text_cons].
    + now exists [c].
    + now exists [].
    + apply (f_equal (@length _)) in H. rewrite length_app in H. simpl in H. lia.
Qed.

Lemma skip_keeps_cut u0 c s :
  number_prefix (c :: s) = [] -> cut_ok (u0 ++ [c]) s.
Proof.
  intros Hn Hs. unfold ends_digit_or_minus. rewrite last_of_snoc.
  unfold number_prefix in Hn. destruct (N.eqb_spec c (cu "-")) as [->|Hc].
  - destruct (take_digits s) eqn:Et; [|discriminate].
    apply take_digits_starts in Et. congruence.
  - apply take_digits_starts in Hn. simpl in Hn. now rewrite Hn.
Qed.

Lemma bounded_after_skip u0 c s u t v :
  number_prefix (c :: s) = [] ->
  (bounded_number_at ((u0 ++ [c]) ++ s) u t v /\ (exists x, u = (u0 ++ [c]) ++ x)
   <-> bounded_number_at (u0 ++ c :: s) u t v /\ (exists x, u = u0 ++ x)).
Proof.
  intros Hn. rewrite <- app_assoc. simpl. split.
  - intros [H [x ->]]. split; [exact H|]. exists ([c] ++ x).
    now rewrite app_assoc.
  - intros [H [x ->]]. split; [exact H|].
    destruct H as [[E Ht] _]. rewrite <- app_assoc in E.
    apply app_inv_head in E. destruct x as [|c' x].
    + simpl in E. now rewrite (number_prefix_none _ _ Hn E) in Ht.
    + injection E as <- _. exists x. now rewrite <- app_assoc.
Qed.

Lemma bounded_after_number u0 t v u t' v' :
  is_number_text t = true -> starts_digit v = false -> cut_ok u0 (t ++ v) ->
  (bounded_number_at (u0 ++ t ++ v) u t' v' /\ (exists x, u = u0 ++ x)
   <-> (u, t', v') = (u0, t, v) \/
       (bounded_number_at ((u0 ++ t) ++ v) u t' v' /\
        exists x, u = (u0 ++ t) ++ x)).
Proof.
  intros Ht Hv Hcut. pose proof (number_text_nonempty Ht) as Hne. split.
  - intros [H [x ->]]. destruct H as [[E Ht'] [Hv' Hu]].
    assert (E2 : t ++ v = x ++ t' ++ v').
    { rewrite <- app_assoc in E. now apply app_inv_head in E. }
    destruct (app_eq_app _ _ _ _ E2) as [l [[E3 E4]|[E3 E4]]].
    + destruct l as [|d l].
      * right. rewrite app_nil_r in E3. subst x.
        split; [|exists []; now rewrite app_nil_r].
        repeat split; auto. now rewrite E4.
      * destruct x as [|c x] using rev_ind.
        -- left. simpl in E2.
           pose proof (number_prefix_text _ _ Ht Hv) as P1.
           pose proof (number_prefix_text _ _ Ht' Hv') as P2.
           rewrite <- E2, P1 in P2. subst t'.
           apply app_inv_head in E2. subst v'. now rewrite app_nil_r.
        -- exfalso. clear IHx.
           assert (Hd : is_digit d = true).
           { apply (@number_text_inner t (x ++ [c]) d l Ht E3). now destruct x. }
           assert (Hs : starts_digit t' = true).
           { destruct t' as [|d' t'']; [discriminate|].
             simpl in E4. injection E4 as -> _. exact Hd. }
           specialize (Hu Hs). unfold ends_digit_or_minus in Hu.
           rewrite app_assoc, last_of_snoc in Hu.
           rewrite <- app_assoc in E3. simpl in E3.
           now rewrite (@number_text_any _ _ _ _ Ht E3) in Hu.
    + right. subst x. split; [|exists l; now rewrite app_assoc].
      repeat split; auto. now rewrite <- !app_assoc in *.
  - intros [[= -> -> ->]|[H [x ->]]].
    + split; [|exists []; now rewrite app_nil_r].
      repeat split; auto. intros Hs. apply Hcut.
      now rewrite starts_digit_app.
    + split; [|exists (t ++ x); now rewrite app_assoc].
      now rewrite <- app_assoc in H.
Qed.

Lemma firstn_length_app {A} (t v : list A) :
  firstn (length (t ++ v) - length v) (t ++ v) = t.
Proof.
  rewrite length_app. replace (length t + length v - length v)%nat
    with (length t + 0)%nat by lia.
  rewrite firstn_app_2. simpl. apply app_nil_r.
Qed.

(** The texts found from a cut on are the numbers of the whole text that
    start at or after the cut, each bounded on both sides, in order. *)
Lemma match_from_number fuel : forall u0 s,
  (length s < fuel)%nat -> cut_ok u0 s ->
  exists occs : list occurrence,
    match_from re_number fuel (mkPos (last_of u0 None) s) = map occ_text occs /\
    (forall u t v,
        In (u, t, v) occs <->
        bounded_number_at (u0 ++ s) u t v /\ exists x, u = u0 ++ x) /\
    StronglySorted occ_precedes occs.
Proof.
  induction fuel as [|k IH]; intros u0 s Hlen Hcut; [lia|].
  cbn [match_from].
  destruct (number_prefix_split s) as [v [E Hp]].
  destruct (number_prefix s) as [|c0 t0] eqn:En.
  - rewrite rmatch_number_none by exact En. cbn [rest].
    destruct s as [|c s'].
    + exists []. split; [reflexivity|]. split; [|constructor].
      intros u t v1. split; [contradiction|].
      intros [[[E' Ht] _] [x ->]]. apply number_text_nonempty in Ht.
      apply (f_equal (@length _)) in E'. rewrite !length_app in E'.
      destruct t; [contradiction | simpl in E'; lia].
    + destruct (IH (u0 ++ [c]) s') as [occs [Hm [Hin Hs]]].
      * simpl in Hlen. lia.
      * now apply skip_keeps_cut.
      * rewrite last_of_snoc in Hm. exists occs.
        split; [exact Hm|]. split; [|exact Hs].
        intros u t v1. rewrite Hin. now apply bounded_after_skip.
  - destruct (Hp ltac:(discriminate)) as [Ht Hv]. clear Hp En.
    remember (c0 :: t0) as t eqn:Et. subst s.
    destruct (@rmatch_number_some (mkPos (last_of u0 None) (t ++ v)) t v
                eq_refl Ht Hv) as [l ->].
    cbn [rest before]. rewrite firstn_length_app.
    assert (Hn : (length (t ++ v) - length v = S (length t0))%nat).
    { rewrite length_app, Et. cbn [length]. lia. }
    rewrite Hn.
    destruct (IH (u0 ++ t) v) as [occs [Hm [Hin Hs]]].
    + rewrite length_app, Et in Hlen. cbn [length] in Hlen. lia.
    + intros H. congruence.
    + rewrite last_of_app in Hm. rewrite Hm.
      exists ((u0, t, v) :: occs). split; [reflexivity|]. split.
      * intros u t' v'.
        rewrite (@bounded_after_number u0 t v u t' v' Ht Hv Hcut).
        cbn [In]. split.
        -- intros [H|H]; [left; now symmetry | right; now apply Hin].
        -- intros [H|H]; [left; now symmetry | right; now apply Hin].
      * constructor; [exact Hs|]. apply Forall_forall.
        intros [[u t'] v'] Ho. apply Hin in Ho. destruct Ho as [_ [x ->]].
        unfold occ_precedes, occ_before, occ_text. simpl.
        rewrite !length_app. simpl. lia.
Qed.

(** ** The output interpreter *)

Lemma digit_range c :
  is_digit c = true ->
  (c = 48 \/ c = 49 \/ c = 50 \/ c = 51 \/ c = 52 \/ c = 53 \/ c = 54 \/
   c = 55 \/ c = 56 \/ c = 57)%N.
Proof.
  unfold is_digit. intros H. apply andb_true_iff in H. destruct H as [H1 H2].
  apply N.leb_le in H1, H2. lia.
Qed.

Lemma digit_not_space c : is_digit c = true -> is_space c = false.
Proof.
  intros H. apply digit_range in H.
  repeat (destruct H as [->|H]; [reflexivity|]). now subst.
Qed.

Lemma digit_not_sign c :
  is_digit c = true -> (c =? cu "-")%N = false /\ (c =? cu "+")%N = false.
Proof.
  intros H. apply digit_range in H.
  repeat (destruct H as [->|H]; [split; reflexivity|]). now subst.
Qed.

Lemma take_digits_all ds : forallb is_digit ds = true -> take_digits ds = ds.
Proof.
  intros H. rewrite <- (app_nil_r ds) at 1. now apply take_digits_app.
Qed.

Lemma fold_decimal ds : forall acc,
  fold_left (fun acc c => 10 * acc + digit_value c) ds acc
  = acc * 10 ^ Z.of_nat (length ds) + digits_value ds.
Proof.
  induction ds as [|d ds IH]; intros acc.
  - simpl. lia.
  - cbn [fold_left digits_value length]. rewrite IH.
    rewrite Nat2Z.inj_succ, Z.pow_succ_r by lia. ring.
Qed.

Lemma decimal_value_digits ds : decimal_value ds = digits_value ds.
Proof. unfold decimal_value. rewrite fold_decimal. lia. Qed.

(** On a number of the text [parseInt] has no white space to skip and
    nothing to leave out: it returns the Number value of the integer the
    text denotes. *)
Lemma parseInt10_number t :
  is_number_text t = true ->
  parseInt10 t = Some (Number_of_Z (number_value t)).
Proof.
  intros Ht.
  destruct (number_text_cases _ Ht) as [[d [ds [-> Hd]]]|[d [ds [-> [Hm Hd]]]]].
  - unfold parseInt10. cbn [skip_space].
    replace (is_space (cu "-")) with false by reflexivity.
    rewrite N.eqb_refl, (take_digits_all _ Hd), decimal_value_digits.
    cbn [number_value]. rewrite N.eqb_refl. do 2 f_equal; lia.
  - assert (H1 : is_digit d = true).
    { simpl in Hd. now apply andb_true_iff in Hd. }
    unfold parseInt10. cbn [skip_space]. rewrite (digit_not_space _ H1).
    destruct (digit_not_sign _ H1) as [-> ->].
    rewrite (take_digits_all _ Hd), decimal_value_digits.
    cbn [number_value]. apply N.eqb_neq in Hm. rewrite Hm. do 2 f_equal; lia.
Qed.

Lemma numbers_of_texts (occs : list occurrence) :
  (forall o, In o occs -> is_number_text (occ_text o) = true) ->
  flat_map (fun n : option jsint => match n with Some z => [z] | None => [] end)
    (map parseInt10 (map occ_text occs))
  = map (fun o => Number_of_Z (number_value (occ_text o))) occs.
Proof.
  induction occs as [|o occs IH]; intros H; [reflexivity|].
  cbn [map flat_map]. rewrite parseInt10_number by (apply H; now left).
  cbn [app]. f_equal. apply IH. intros o' Ho. apply H. now right.
Qed.

Lemma last_number_nth {A} (l : list A) (d : A) :
  l <> [] -> last_number l = Some (nth (length l - 1) l d).
Proof.
  induction l as [|x l IH]; [contradiction|]. intros _.
  destruct l as [|y l]; [reflexivity|].
  change (last_number (x :: y :: l)) with (last_number (y :: l)).
  rewrite IH by discriminate. f_equal.
  replace (length (x :: y :: l) - 1)%nat with (S (length (y :: l) - 1))
    by (cbn [length]; lia).
  reflexivity.
Qed.

(** [stdout.match(re) || []] *)
Lemma match_global_or_empty r s :
  match match_global r s with Some ms => ms | None => [] end
  = match_from r (S (length s)) (mkPos None s).
Proof. unfold match_global. now destruct (match_from r _ _). Qed.

(** [extractSumFromOutput], all at once: its numbers are the values of the
    bounded numbers of the text, in order, and its sum is the last. *)
Lemma extractSumFromOutput_scan stdout :
  exists occs : list occurrence,
    (forall u t v, In (u, t, v) occs <-> bounded_number_at stdout u t v) /\
    StronglySorted occ_precedes occs /\
    let numbers := map (fun o => Number_of_Z (number_value (occ_text o))) occs in
    extractSumFromOutput stdout = mkParse (last_number numbers) numbers.
Proof.
  destruct (@match_from_number (S (length stdout)) [] stdout)
    as [occs [Hm [Hin Hs]]]; [lia | intros _; reflexivity |].
  cbn [last_of app] in Hm, Hin. change (last_of [] None) with (@None codeunit) in Hm.
  assert (Hin' : forall u t v,
             In (u, t, v) occs <-> bounded_number_at stdout u t v).
  { intros u t v. rewrite Hin. split; [tauto|]. intros H. split; [exact H|].
    now exists u. }
  exists occs. split; [exact Hin'|]. split; [exact Hs|]. cbv zeta.
  assert (Htok : forall o, In o occs -> is_number_text (occ_text o) = true).
  { intros [[u t] v] Ho. apply Hin' in Ho. now destruct Ho as [[_ Ht] _]. }
  unfold extractSumFromOutput. destruct stdout as [|c s].
  - cbn [truthy negb]. destruct occs as [|[[u t] v] occs]; [reflexivity|].
    exfalso. specialize (Htok _ (or_introl eq_refl)).
    destruct (proj1 (Hin' u t v) (or_introl eq_refl)) as [[E _] _].
    symmetry in E. apply app_eq_nil in E. destruct E as [_ E].
    apply app_eq_nil in E. destruct E as [-> _]. discriminate.
  - cbn [truthy negb]. rewrite match_global_or_empty, Hm.
    rewrite (numbers_of_texts _ Htok).
    set (numbers := map (fun o => Number_of_Z (number_value (occ_text o))) occs).
    destruct numbers as [|n numbers'] eqn:En; [reflexivity|].
    rewrite <- En.
    replace (length numbers =? 0)%nat with false
      by (rewrite En; reflexivity).
    rewrite (last_number_nth (Int 0)) by (rewrite En; discriminate). reflexivity.
Qed.

Lemma number_text_has_digit t :
  is_number_text t = true -> exists x d y, t = x ++ d :: y /\ is_digit d = true.
Proof.
  intros Ht.
  destruct (number_text_cases _ Ht) as [[d [ds [-> Hd]]]|[d [ds [-> [_ Hd]]]]];
    simpl in Hd; apply andb_true_iff in Hd; destruct Hd as [Hd _].
  - now exists [cu "-"], d, ds.
  - now exists [], d, ds.
Qed.

(** ** Rounding to a double

    What the statements about the score need of [fl]: it keeps the order,
    and it moves a small value by little. *)

Module DoubleFacts.

Local Open Scope Q_scope.

Lemma two_neq_0 : ~ 2 == 0.
Proof. discriminate. Qed.

Lemma pow2_pos z : 0 < 2 ^ z.
Proof. apply Qpower_0_lt. reflexivity. Qed.

Lemma pow2_succ z : 2 ^ (z + 1) == 2 * 2 ^ z.
Proof. rewrite Qpower_plus by apply two_neq_0. rewrite Qpower_1_r. ring. Qed.

Lemma pow2_le a b : (a <= b)%Z -> 2 ^ a <= 2 ^ b.
Proof. intros H. apply Qpower_le_compat_l; [exact H | discriminate]. Qed.

Lemma pow2_lt_inv a b : 2 ^ a < 2 ^ b -> (a < b)%Z.
Proof. intros H. apply (Qpower_lt_compat_l_inv 2); [exact H | reflexivity]. Qed.

Lemma pow2_Z a : (0 <= a)%Z -> inject_Z (2 ^ a) == 2 ^ a.
Proof. intros H. now rewrite Zpower_Qpower. Qed.

Lemma binade_spec x : 0 < x -> 2 ^ binade x <= x /\ x < 2 ^ (binade x + 1).
Proof.
  intros Hx. destruct x as [n d]. unfold binade. cbn [Qnum Qden].
  assert (Hn : (0 < n)%Z).
  { unfold Qlt in Hx. cbn in Hx. lia. }
  set (a := Z.log2 n). set (b := Z.log2 (Z.pos d)).
  destruct (Z.log2_spec n Hn) as [A1 A2]. fold a in A1, A2.
  destruct (Z.log2_spec (Z.pos d) eq_refl) as [B1 B2]. fold b in B1, B2.
  assert (Ha : (0 <= a)%Z) by apply Z.log2_nonneg.
  assert (Hb : (0 <= b)%Z) by apply Z.log2_nonneg.
  assert (QA1 : 2 ^ a <= inject_Z n).
  { rewrite <- pow2_Z by exact Ha. now rewrite <- Zle_Qle. }
  assert (QA2 : inject_Z n < 2 * 2 ^ a).
  { rewrite <- pow2_succ, <- pow2_Z by lia. now rewrite <- Zlt_Qlt. }
  assert (QB1 : 2 ^ b <= inject_Z (Z.pos d)).
  { rewrite <- pow2_Z by exact Hb. now rewrite <- Zle_Qle. }
  assert (QB2 : inject_Z (Z.pos d) < 2 * 2 ^ b).
  { rewrite <- pow2_succ, <- pow2_Z by lia. now rewrite <- Zlt_Qlt. }
  assert (E : (n # d) * inject_Z (Z.pos d) == inject_Z n).
  { rewrite (Qmake_Qdiv n d). field. discriminate. }
  assert (K : 2 ^ (a - b) * 2 ^ b == 2 ^ a).
  { rewrite <- Qpower_plus by apply two_neq_0. now replace (a - b + b)%Z with a by lia. }
  assert (K' : 2 * 2 ^ (a - b - 1) == 2 ^ (a - b)).
  { rewrite <- pow2_succ. now replace (a - b - 1 + 1)%Z with (a - b)%Z by lia. }
  pose proof (pow2_pos a) as Pa. pose proof (pow2_pos b) as Pb.
  pose proof (pow2_pos (a - b)) as Pk. pose proof (pow2_pos (a - b - 1)) as Pk'.
  destruct (Qle_bool (2 ^ (a - b)) (n # d)) eqn:C.
  - apply Qle_bool_iff in C. split; [exact C|].
    rewrite pow2_succ.
    set (x := n # d) in *. set (N := inject_Z n) in *.
    set (D := inject_Z (Z.pos d)) in *. set (PA := 2 ^ a) in *.
    set (PB := 2 ^ b) in *. set (PK := 2 ^ (a - b)) in *.
    clearbody x N D PA PB PK. nra.
  - assert (C' : n # d < 2 ^ (a - b)).
    { apply Qnot_le_lt. intros H. apply Qle_bool_iff in H. congruence. }
    replace (a - b - 1 + 1)%Z with (a - b)%Z by lia. split; [|exact C'].
    set (x := n # d) in *. set (N := inject_Z n) in *.
    set (D := inject_Z (Z.pos d)) in *. set (PA := 2 ^ a) in *.
    set (PB := 2 ^ b) in *. set (PK := 2 ^ (a - b)) in *.
    set (PK' := 2 ^ (a - b - 1)) in *.
    clearbody x N D PA PB PK PK'. nra.
Qed.

Lemma binade_unique x z : 0 < x -> 2 ^ z <= x -> x < 2 ^ (z + 1) -> binade x = z.
Proof.
  intros Hx H1 H2. destruct (binade_spec Hx) as [B1 B2].
  assert (L1 : (z < binade x + 1)%Z).
  { apply pow2_lt_inv. eapply Qle_lt_trans; eassumption. }
  assert (L2 : (binade x < z + 1)%Z).
  { apply pow2_lt_inv. eapply Qle_lt_trans; eassumption. }
  lia.
Qed.

Lemma binade_mono x y : 0 < x -> x <= y -> (binade x <= binade y)%Z.
Proof.
  intros Hx Hxy.
  destruct (binade_spec Hx) as [B1 _].
  destruct (@binade_spec y ltac:(lra)) as [_ B2].
  assert (L : (binade x < binade y + 1)%Z).
  { apply pow2_lt_inv. lra. }
  lia.
Qed.

Lemma floor_bounds q : inject_Z (Qfloor q) <= q /\ q < inject_Z (Qfloor q) + 1.
Proof.
  split; [apply Qfloor_le|].
  pose proof (Qlt_floor q) as H. rewrite inject_Z_plus in H. exact H.
Qed.

Lemma round_half_even_near q :
  inject_Z (round_half_even q) - (1 # 2) <= q /\
  q <= inject_Z (round_half_even q) + (1 # 2).
Proof.
  unfold round_half_even. destruct (floor_bounds q) as [F1 F2].
  destruct (Qcompare_spec (q - inject_Z (Qfloor q)) (1 # 2)) as [E|L|G].
  - destruct (Z.even (Qfloor q)); [|rewrite inject_Z_plus];
      change (inject_Z 1) with 1; lra.
  - lra.
  - rewrite inject_Z_plus. change (inject_Z 1) with 1. lra.
Qed.

Lemma round_half_even_Z k : round_half_even (inject_Z k) = k.
Proof.
  unfold round_half_even. rewrite Qfloor_Z.
  destruct (Qcompare_spec (inject_Z k - inject_Z k) (1 # 2)) as [E|L|G];
    [lra | reflexivity | lra].
Qed.

Lemma Qfloor_mono_lt q q' : q <= q' -> (Qfloor q <= Qfloor q')%Z.
Proof. apply Qfloor_resp_le. Qed.

Lemma round_half_even_mono q q' :
  q <= q' -> (round_half_even q <= round_half_even q')%Z.
Proof.
  intros H. pose proof (@Qfloor_resp_le _ _ H) as Hf.
  destruct (floor_bounds q) as [F1 F2]. destruct (floor_bounds q') as [F1' F2'].
  unfold round_half_even.
  destruct (Z.eq_dec (Qfloor q) (Qfloor q')) as [E|N].
  - rewrite <- E in *.
    destruct (Qcompare_spec (q - inject_Z (Qfloor q)) (1 # 2)) as [E1|L1|G1];
      destruct (Qcompare_spec (q' - inject_Z (Qfloor q)) (1 # 2)) as [E2|L2|G2];
      try destruct (Z.even (Qfloor q)); try lia; lra.
  - assert (L : (Qfloor q + 1 <= Qfloor q')%Z) by lia.
    destruct (q - inject_Z (Qfloor q) ?= 1 # 2),
      (q' - inject_Z (Qfloor q') ?= 1 # 2);
      try destruct (Z.even (Qfloor q)); try destruct (Z.even (Qfloor q'));
      lia.
Qed.

Lemma nearest_double_eq x :
  nearest_double x
  = inject_Z (round_half_even (x / 2 ^ last_place x)) * 2 ^ last_place x.
Proof. reflexivity. Qed.

Lemma nearest_double_near x :
  0 < x ->
  nearest_double x - 2 ^ last_place x * (1 # 2) <= x /\
  x <= nearest_double x + 2 ^ last_place x * (1 # 2).
Proof.
  intros Hx. rewrite nearest_double_eq.
  pose proof (pow2_pos (last_place x)) as Pu.
  destruct (round_half_even_near (x / 2 ^ last_place x)) as [R1 R2].
  assert (E : x == x / 2 ^ last_place x * 2 ^ last_place x).
  { field. intros H. rewrite H in Pu. lra. }
  set (u := 2 ^ last_place x) in *.
  set (m := inject_Z (round_half_even (x / u))) in *.
  set (q := x / u) in *. clearbody u m q. nra.
Qed.

Lemma nearest_double_nonneg x : 0 < x -> 0 <= nearest_double x.
Proof.
  intros Hx. rewrite nearest_double_eq.
  pose proof (pow2_pos (last_place x)) as Pu.
  assert (H : (0 <= round_half_even (x / 2 ^ last_place x))%Z).
  { rewrite <- (round_half_even_Z 0). apply round_half_even_mono.
    change (inject_Z 0) with 0. apply Qle_shift_div_l; [exact Pu | lra]. }
  rewrite Zle_Qle in H. change (inject_Z 0) with 0 in H.
  set (u := 2 ^ last_place x) in *.
  set (m := inject_Z (round_half_even (x / u))) in *. clearbody u m. nra.
Qed.

Lemma nearest_double_mono x y :
  0 < x -> x <= y -> nearest_double x <= nearest_double y.
Proof.
  intros Hx Hxy. assert (Hy : 0 < y) by lra.
  pose proof (binade_mono Hx Hxy) as Hb.
  rewrite !nearest_double_eq.
  destruct (Z.eq_dec (last_place x) (last_place y)) as [E|N].
  - rewrite E. pose proof (pow2_pos (last_place y)) as Pu.
    assert (H : (round_half_even (x / 2 ^ last_place y)
                 <= round_half_even (y / 2 ^ last_place y))%Z).
    { apply round_half_even_mono. apply Qmult_le_compat_r; [exact Hxy|].
      apply Qinv_le_0_compat. lra. }
    rewrite Zle_Qle in H.
    set (u := 2 ^ last_place y) in *.
    set (mx := inject_Z (round_half_even (x / u))) in *.
    set (my := inject_Z (round_half_even (y / u))) in *. clearbody u mx my. nra.
  - assert (Lt : (last_place x < last_place y)%Z) by (unfold last_place in *; lia).
    assert (By : last_place y = (binade y - 52)%Z) by (unfold last_place in *; lia).
    assert (Bx : (binade x <= last_place x + 52)%Z) by (unfold last_place; lia).
    destruct (binade_spec Hx) as [_ X2]. destruct (binade_spec Hy) as [Y1 _].
    pose proof (pow2_pos (last_place x)) as Pux.
    pose proof (pow2_pos (last_place y)) as Puy.
    (* the upper end of the binade of x *)
    assert (X3 : x <= 2 ^ (last_place x + 53)).
    { apply Qlt_le_weak. eapply Qlt_le_trans; [exact X2|]. apply pow2_le. lia. }
    assert (Sx : 2 ^ (last_place x + 53) == inject_Z (2 ^ 53) * 2 ^ last_place x).
    { rewrite Qpower_plus by apply two_neq_0. rewrite (@pow2_Z 53%Z) by lia. ring. }
    assert (Mx : (round_half_even (x / 2 ^ last_place x) <= 2 ^ 53)%Z).
    { rewrite <- (round_half_even_Z (2 ^ 53)). apply round_half_even_mono.
      apply Qle_shift_div_r; [exact Pux|]. now rewrite <- Sx. }
    assert (Sy : 2 ^ binade y == inject_Z (2 ^ 52) * 2 ^ last_place y).
    { rewrite By. rewrite (@pow2_Z 52%Z) by lia.
      rewrite <- Qpower_plus by apply two_neq_0.
      now replace (52 + (binade y - 52))%Z with (binade y) by lia. }
    assert (My : (2 ^ 52 <= round_half_even (y / 2 ^ last_place y))%Z).
    { rewrite <- (round_half_even_Z (2 ^ 52)) at 1. apply round_half_even_mono.
      apply Qle_shift_div_l; [exact Puy|]. now rewrite <- Sy. }
    assert (Step : inject_Z (2 ^ 53) * 2 ^ last_place x
                   <= inject_Z (2 ^ 52) * 2 ^ last_place y).
    { rewrite <- Sx, <- Sy. apply pow2_le. lia. }
    rewrite Zle_Qle in Mx, My.
    set (ux := 2 ^ last_place x) in *. set (uy := 2 ^ last_place y) in *.
    set (mx := inject_Z (round_half_even (x / ux))) in *.
    set (my := inject_Z (round_half_even (y / uy))) in *.
    set (c53 := inject_Z (2 ^ 53)) in *. set (c52 := inject_Z (2 ^ 52)) in *.
    assert (P53 : 0 < c53) by reflexivity. assert (P52 : 0 < c52) by reflexivity.
    clearbody ux uy mx my c53 c52. nra.
Qed.

Lemma fl_pos x :
  0 < x ->
  fl x = if Qle_bool (2 ^ 1024) (nearest_double x) then PosInf
         else Num (Qred (nearest_double x)).
Proof.
  intros Hx. unfold fl. destruct (Qcompare_spec x 0) as [E|L|G]; [lra | lra | reflexivity].
Qed.

Lemma fl_0 x : x == 0 -> fl x = Num 0.
Proof.
  intros Hx. unfold fl. destruct (Qcompare_spec x 0) as [E|L|G]; [reflexivity | lra | lra].
Qed.

(** Rounding keeps the order of what is not negative. *)
Lemma fl_mono_nonneg x y : 0 <= x -> x <= y -> num_le (fl x) (fl y).
Proof.
  intros Hx Hxy.
  destruct (Qlt_le_dec 0 x) as [Px|Zx].
  - assert (Py : 0 < y) by lra.
    rewrite (fl_pos Px), (fl_pos Py).
    pose proof (nearest_double_mono Px Hxy) as M.
    destruct (Qle_bool (2 ^ 1024) (nearest_double x)) eqn:Ox;
      destruct (Qle_bool (2 ^ 1024) (nearest_double y)) eqn:Oy; cbn [num_le];
      try exact I.
    + apply Qle_bool_iff in Ox.
      assert (Oy' : 2 ^ 1024 <= nearest_double y) by lra.
      apply Qle_bool_iff in Oy'. congruence.
    + now rewrite !Qred_correct.
  - rewrite (@fl_0 x) by lra.
    destruct (Qlt_le_dec 0 y) as [Py|Zy].
    + rewrite (fl_pos Py).
      destruct (Qle_bool (2 ^ 1024) (nearest_double y)); cbn [num_le]; [exact I|].
      rewrite Qred_correct. now apply nearest_double_nonneg.
    + rewrite (@fl_0 y) by lra. cbn [num_le]. lra.
Qed.

(** Below 128 a rounding moves a value by at most [2^-47]. *)
Lemma fl_small x :
  0 <= x -> x < 128 ->
  exists v, fl x = Num v /\ 0 <= v /\
            v - (1 # 140737488355328) <= x /\ x <= v + (1 # 140737488355328).
Proof.
  intros Hx Hs.
  destruct (Qlt_le_dec 0 x) as [Px|Zx].
  - rewrite (fl_pos Px).
    destruct (nearest_double_near Px) as [N1 N2].
    pose proof (nearest_double_nonneg Px) as N0.
    assert (Hb : (binade x < 7)%Z).
    { destruct (binade_spec Px) as [B1 _]. apply pow2_lt_inv.
      eapply Qle_lt_trans; [exact B1|]. exact Hs. }
    assert (Hu : 2 ^ last_place x <= 2 ^ (-46)).
    { apply pow2_le. unfold last_place. lia. }
    change (2 ^ (-46)) with (1 # 70368744177664) in Hu.
    pose proof (pow2_pos (last_place x)) as Pu.
    set (u := 2 ^ last_place x) in *. set (v := nearest_double x) in *.
    assert (Hv : v < 2 ^ 1024).
    { apply Qle_lt_trans with (x + u * (1 # 2)); [lra|].
      apply Qlt_le_trans with 129; [|discriminate].
      clearbody u v. lra. }
    destruct (Qle_bool (2 ^ 1024) v) eqn:O.
    + apply Qle_bool_iff in O. lra.
    + exists (Qred v). split; [reflexivity|]. rewrite !Qred_correct.
      change (1 # 140737488355328) with ((1 # 70368744177664) * (1 # 2)).
      clearbody u v. split; [exact N0|]. split; lra.
  - exists 0. split; [apply fl_0; lra|]. split; [lra|]. split; [|lra].
    assert (0 < 1 # 140737488355328) by reflexivity. lra.
Qed.

End DoubleFacts.
Import DoubleFacts.

(** ** Adapter, judge and scorer *)

Lemma fold_left_app_concat (ws : list jsstring) : forall out,
  fold_left (fun out s => out ++ s) ws out = out ++ concat ws.
Proof.
  induction ws as [|w ws IH]; intros out; simpl.
  - now rewrite app_nil_r.
  - now rewrite IH, app_assoc.
Qed.

Lemma includes_middle (a p b : jsstring) : includes (a ++ p ++ b) p = true.
Proof. apply includes_iff. now exists a, b. Qed.

Lemma fold_points (f : TestResult -> Z) (l : list TestResult) : forall acc,
  fold_left (fun sum test => sum + f test) l acc = acc + Zsum (map f l).
Proof.
  induction l as [|r l IH]; intros acc; simpl.
  - lia.
  - rewrite IH. lia.
Qed.

Lemma totalPoints_sum testResults :
  totalPoints testResults = Zsum (map (fun r => points (testCase r)) testResults).
Proof. unfold totalPoints. now rewrite fold_points. Qed.

Lemma earnedPoints_sum testResults :
  earnedPoints testResults
  = Zsum (map (fun r => points (testCase r)) (filter passed testResults)).
Proof.
  unfold earnedPoints. rewrite fold_points. simpl.
  induction testResults as [|r l IH]; simpl; [reflexivity|].
  destruct (passed r); simpl; lia.
Qed.

Lemma qualityScore_cases codeSource :
  qualityScore codeSource
  = Z.max 0 (20 - (if hasLoop codeSource then 0 else 10)
                - (if hasPositiveCheck codeSource then 0 else 10)).
Proof.
  unfold qualityScore.
  now destruct (hasLoop codeSource), (hasPositiveCheck codeSource).
Qed.

Lemma qualityScore_range codeSource : 0 <= qualityScore codeSource <= 20.
Proof.
  rewrite qualityScore_cases.
  destruct (hasLoop codeSource), (hasPositiveCheck codeSource); simpl; lia.
Qed.

(** Rounding [q + 1/2] down gives an integer at most one half away from
    [q], a tie going up. *)
Lemma round_nearest q :
  (inject_Z (Qfloor (q + (1 # 2))) - (1 # 2) <= q)%Q /\
  (q < inject_Z (Qfloor (q + (1 # 2))) + (1 # 2))%Q.
Proof.
  pose proof (Qfloor_le (q + (1 # 2))) as H1.
  pose proof (Qlt_floor (q + (1 # 2))) as H2.
  rewrite inject_Z_plus in H2. split.
  - apply Qplus_le_l with (z := (1 # 2)%Q). ring_simplify.
    ring_simplify in H1. exact H1.
  - apply Qplus_lt_l with (z := (1 # 2)%Q).
    eapply Qlt_le_trans; [exact H2|]. ring_simplify. apply Qle_refl.
Qed.

Lemma round_int z : Qfloor (inject_Z z + (1 # 2)) = z.
Proof.
  pose proof (round_nearest (inject_Z z)) as [H1 H2].
  set (r := Qfloor (inject_Z z + (1 # 2))) in *.
  unfold Qle, Qlt, Qminus, Qplus, Qopp, inject_Z in H1, H2. simpl in H1, H2. lia.
Qed.

Lemma round_mono x y :
  (x <= y)%Q -> Qfloor (x + (1 # 2)) <= Qfloor (y + (1 # 2)).
Proof. intros H. apply Qfloor_resp_le. now apply Qplus_le_l. Qed.

Lemma clamped_round_range x :
  0 <= Qfloor (Qmax 0 (Qmin (inject_Z 100) x) + (1 # 2)) <= 100.
Proof.
  split.
  - rewrite <- (round_int 0) at 1. apply round_mono, Q.le_max_l.
  - rewrite <- (round_int 100) at 2. apply round_mono.
    apply Q.max_lub; [discriminate | apply Q.le_min_l].
Qed.

Lemma inject_Z_nonzero z : 0 < z -> Qeq_bool (inject_Z z) 0 = false.
Proof.
  intros H. destruct (Qeq_bool (inject_Z z) 0) eqn:E; [|reflexivity].
  apply Qeq_bool_iff in E. unfold Qeq, inject_Z in E. simpl in E. lia.
Qed.

Lemma fl_not_NaN x : fl x <> NaN.
Proof.
  unfold fl. destruct (x ?= 0)%Q; [discriminate | |].
  - destruct (Qle_bool _ _); discriminate.
  - destruct (Qle_bool _ _); discriminate.
Qed.

Lemma fl_1 : fl 1 = Num 1.
Proof. vm_compute. reflexivity. Qed.

Lemma fl_80 : fl (inject_Z 80) = Num (inject_Z 80).
Proof. vm_compute. reflexivity. Qed.

Lemma fl_100 : fl (inject_Z 100) = Num (inject_Z 100).
Proof. vm_compute. reflexivity. Qed.

(** A rounding of a value between 0 and a double [k] below 128 lies
    between 0 and [k], at most [2^-47] from the value. *)
Lemma fl_within x k :
  fl k = Num k -> (0 <= x)%Q -> (x <= k)%Q -> (k < 128)%Q ->
  exists v, fl x = Num v /\ (0 <= v)%Q /\ (v <= k)%Q /\
            (v - (1 # 140737488355328) <= x)%Q /\
            (x <= v + (1 # 140737488355328))%Q.
Proof.
  intros Hk H0 Hx Hs.
  destruct (@fl_small x H0 ltac:(lra)) as [v [E [V0 [V1 V2]]]].
  exists v. split; [exact E|]. split; [exact V0|]. split; [|now split].
  pose proof (fl_mono_nonneg H0 Hx) as M. rewrite E, Hk in M. exact M.
Qed.

(** The functional component, for points that are not negative: the
    quotient rounded, times 80, rounded; or 0 when no points stand. *)
Lemma functionalScore_rounded testResults :
  0 <= earnedPoints testResults <= totalPoints testResults ->
  exists a b : Q,
    functionalScore testResults = Num b /\
    (0 <= a)%Q /\ (a <= 1)%Q /\ (0 <= b)%Q /\ (b <= inject_Z 80)%Q /\
    (0 < totalPoints testResults ->
     fl (inject_Z (earnedPoints testResults) / inject_Z (totalPoints testResults))
     = Num a /\ fl (a * inject_Z 80) = Num b /\
     (a - (1 # 140737488355328)
      <= inject_Z (earnedPoints testResults) / inject_Z (totalPoints testResults))%Q /\
     (inject_Z (earnedPoints testResults) / inject_Z (totalPoints testResults)
      <= a + (1 # 140737488355328))%Q /\
     (b - (1 # 140737488355328) <= a * inject_Z 80)%Q /\
     (a * inject_Z 80 <= b + (1 # 140737488355328))%Q) /\
    (totalPoints testResults <= 0 -> b = 0%Q).
Proof.
  intros He. unfold functionalScore.
  destruct (Z.gtb_spec (totalPoints testResults) 0) as [H|H].
  - unfold js_div. rewrite (inject_Z_nonzero H).
    set (x := (inject_Z (earnedPoints testResults)
               / inject_Z (totalPoints testResults))%Q).
    assert (Pt : (0 < inject_Z (totalPoints testResults))%Q).
    { rewrite Zlt_Qlt in H. exact H. }
    assert (X0 : (0 <= x)%Q).
    { unfold x. apply Qle_shift_div_l; [exact Pt|]. rewrite Qmult_0_l.
      destruct He as [He _]. rewrite Zle_Qle in He. exact He. }
    assert (X1 : (x <= 1)%Q).
    { unfold x. apply Qle_shift_div_r; [exact Pt|]. rewrite Qmult_1_l.
      destruct He as [_ He]. rewrite Zle_Qle in He. exact He. }
    destruct (@fl_within x 1 fl_1 X0 X1 ltac:(reflexivity))
      as [a [Ea [A0 [A1 [A2 A3]]]]].
    rewrite Ea. cbn [js_mul].
    assert (Y0 : (0 <= a * inject_Z 80)%Q).
    { change (inject_Z 80) with 80%Q. nra. }
    assert (Y1 : (a * inject_Z 80 <= inject_Z 80)%Q).
    { change (inject_Z 80) with 80%Q. nra. }
    destruct (@fl_within (a * inject_Z 80)%Q (inject_Z 80) fl_80 Y0 Y1
                ltac:(reflexivity)) as [b [Eb [B0 [B1 [B2 B3]]]]].
    exists a, b. split; [exact Eb|]. repeat (split; [assumption|]).
    split; [|lia]. intros _. split; [reflexivity|]. split; [exact Eb|].
    repeat (split; [assumption|]). exact B3.
  - exists 0%Q, 0%Q. split; [reflexivity|].
    repeat (split; [discriminate|]). split; [lia | reflexivity].
Qed.

(** The score from the functional component and its sum with the quality
    component, both doubles. *)
Lemma calculateScore_value testResults codeSource functional total :
  firstCompilationFailed testResults = false ->
  functionalScore testResults = Num functional ->
  fl (functional + inject_Z (qualityScore codeSource)) = Num total ->
  calculateScore testResults codeSource
  = Num (inject_Z
           (Qfloor (Qmax 0 (Qmin (inject_Z 100) total) + (1 # 2)))).
Proof.
  intros Hf E Et. unfold calculateScore. rewrite Hf, E. cbn [js_add].
  rewrite Et. reflexivity.
Qed.

(** The sum with the quality component, for a functional component
    between 0 and 80: a double between 0 and 100. *)
Lemma total_rounded codeSource b :
  (0 <= b)%Q -> (b <= inject_Z 80)%Q ->
  exists c, fl (b + inject_Z (qualityScore codeSource)) = Num c /\
            (0 <= c)%Q /\ (c <= inject_Z 100)%Q /\
            (c - (1 # 140737488355328)
             <= b + inject_Z (qualityScore codeSource))%Q /\
            (b + inject_Z (qualityScore codeSource)
             <= c + (1 # 140737488355328))%Q.
Proof.
  intros B0 B1. pose proof (qualityScore_range codeSource) as [Q0 Q1].
  rewrite Zle_Qle in Q0, Q1.
  change (inject_Z 0) with 0%Q in Q0. change (inject_Z 20) with 20%Q in Q1.
  change (inject_Z 80) with 80%Q in B1.
  apply (@fl_within _ (inject_Z 100) fl_100);
    [| change (inject_Z 100) with 100%Q | reflexivity];
    set (q := inject_Z (qualityScore codeSource)) in *; clearbody q; lra.
Qed.

Lemma js_eq_iff score z :
  js_eq score (inject_Z z) = true <-> score_is score z.
Proof.
  unfold score_is. destruct score as [q| | |]; cbn [js_eq].
  - rewrite Qeq_bool_iff. split.
    + intros H. now exists q.
    + now intros [q' [[= <-] H]].
  - split; [discriminate | now intros [q [E _]]].
  - split; [discriminate | now intros [q [E _]]].
  - split; [discriminate | now intros [q [E _]]].
Qed.

Lemma js_ge_iff score z :
  js_ge score (inject_Z z) = true <-> score_at_least score z.
Proof.
  unfold score_at_least. destruct score as [q| | |]; cbn [js_ge].
  - rewrite Qle_bool_iff. split.
    + intros H. right. now exists q.
    + intros [E|[q' [[= <-] H]]]; [discriminate | exact H].
  - split; auto.
  - split; [discriminate | intros [E|[q [E _]]]; discriminate].
  - split; [discriminate | intros [E|[q [E _]]]; discriminate].
Qed.

(** ** Orchestrator *)

Section OrchestratorFacts.

Variable JSCPP_run : engine.
Variable studentCode : jsstring.

Lemma runCProgram_outcome testCase :
  runCProgram JSCPP_run studentCode (input testCase)
  = Normal (outcome_of JSCPP_run studentCode testCase).
Proof.
  unfold outcome_of, runCProgram.
  now destruct (completes (JSCPP_run studentCode (input testCase))).
Qed.

Lemma truthy_note result :
  (if truthy (compileOutput result) then compileOutput result else MSG_NOT_COMPILED)
  = failure_note result.
Proof. unfold failure_note. now destruct (compileOutput result). Qed.

(** The loop adds to what it was given the results and the calls of the
    cases that remain. *)
Lemma runAllTests_loop_spec testCases :
  forall results calls,
    runAllTests_loop JSCPP_run studentCode testCases results calls
    = Normal (results ++ run_results JSCPP_run studentCode testCases,
              calls ++ run_calls JSCPP_run studentCode testCases).
Proof.
  induction testCases as [|tc rest IH]; intros results calls.
  - simpl. now rewrite !app_nil_r.
  - cbn [runAllTests_loop run_results run_calls].
    rewrite runCProgram_outcome.
    destruct (compiled (outcome_of JSCPP_run studentCode tc)); cbn [negb].
    + rewrite IH. now rewrite <- !app_assoc.
    + now rewrite truthy_note.
Qed.

Lemma runAllTests_spec testCases :
  runAllTests JSCPP_run studentCode testCases
  = Normal (run_results JSCPP_run studentCode testCases,
            run_calls JSCPP_run studentCode testCases).
Proof. unfold runAllTests. now rewrite runAllTests_loop_spec. Qed.

Lemma run_results_all testCases :
  Forall (fun c => compiled (outcome_of JSCPP_run studentCode c) = true) testCases ->
  run_results JSCPP_run studentCode testCases
  = map (fun c => judged_result c (outcome_of JSCPP_run studentCode c)) testCases /\
  run_calls JSCPP_run studentCode testCases = map input testCases.
Proof.
  induction 1 as [|c l Hc _ [IH1 IH2]]; [split; reflexivity|].
  cbn [run_results run_calls map]. rewrite Hc, IH1, IH2. split; reflexivity.
Qed.

Lemma run_results_stop pre tc post :
  Forall (fun c => compiled (outcome_of JSCPP_run studentCode c) = true) pre ->
  compiled (outcome_of JSCPP_run studentCode tc) = false ->
  run_results JSCPP_run studentCode (pre ++ tc :: post)
  = map (fun c => judged_result c (outcome_of JSCPP_run studentCode c)) pre
    ++ [failed_result tc (failure_note (outcome_of JSCPP_run studentCode tc))] /\
  run_calls JSCPP_run studentCode (pre ++ tc :: post)
  = map input pre ++ [input tc].
Proof.
  intros Hpre Htc. induction Hpre as [|c l Hc _ [IH1 IH2]].
  - cbn [app run_results run_calls map]. rewrite Htc. split; reflexivity.
  - cbn [app run_results run_calls map]. rewrite Hc, IH1, IH2. split; reflexivity.
Qed.

(** A failed result closes the sequence. *)
Lemma run_results_failed_last testCases :
  forall before r after,
    run_results JSCPP_run studentCode testCases = before ++ r :: after ->
    compilationFailed r = true -> after = [].
Proof.
  induction testCases as [|tc rest IH]; intros before r after E Hr.
  - destruct before; discriminate.
  - cbn [run_results] in E.
    destruct (compiled (outcome_of JSCPP_run studentCode tc)).
    + destruct before as [|b before].
      * injection E as <- _. discriminate.
      * injection E as _ E. eapply IH; eauto.
    + destruct before as [|b before].
      * now injection E as _ <-.
      * injection E as _ E. destruct before; discriminate.
Qed.

Lemma run_results_first_failed testCases :
  firstCompilationFailed (run_results JSCPP_run studentCode testCases) = true ->
  length (run_results JSCPP_run studentCode testCases) = 1%nat.
Proof.
  destruct testCases as [|tc rest]; [discriminate|].
  cbn [run_results].
  destruct (compiled (outcome_of JSCPP_run studentCode tc)); [discriminate|].
  reflexivity.
Qed.

End OrchestratorFacts.

(** ** Feedback *)

Lemma includes_nil_phrase : includes [] WRONG_SUM_PHRASE = false.
Proof. reflexivity. Qed.

Lemma anyWrongSum_noted testResults :
  existsb
    (fun t => negb (passed t) && truthy (notes t)
              && includes (notes t) WRONG_SUM_PHRASE) testResults
  = wrong_sum_noted testResults.
Proof.
  unfold wrong_sum_noted. induction testResults as [|t l IH]; [reflexivity|].
  cbn [existsb]. rewrite IH. f_equal.
  destruct (notes t); [now rewrite includes_nil_phrase, !andb_false_r|].
  cbn [truthy]. now rewrite andb_true_r.
Qed.

Lemma failedValidation_filter testResults :
  existsb (fun t => negb (passed t))
    (filter (fun t => isValidationTest (testCase t)) testResults)
  = validation_failed testResults.
Proof.
  unfold validation_failed. induction testResults as [|t l IH]; [reflexivity|].
  cbn [filter existsb]. destruct (isValidationTest (testCase t)); cbn [existsb andb].
  - now rewrite IH.
  - exact IH.
Qed.

Lemma generateFeedback_hints testResults score codeSource :
  firstCompilationFailed testResults = false ->
  js_eq score (inject_Z 100) = false ->
  generateFeedback testResults score codeSource
  = match triggered_hints testResults codeSource with
    | [] => banded_message score
    | _ :: _ => join (js " ") (triggered_hints testResults codeSource)
    end.
Proof.
  intros Hf Hs. unfold generateFeedback. rewrite Hf, Hs.
  rewrite anyWrongSum_noted, failedValidation_filter.
  unfold triggered_hints, banded_message.
  generalize HINT_SUM HINT_VALIDATION HINT_LOOP HINT_GUARD (js " ")
    MSG_GOOD MSG_PROGRESS MSG_NEEDS_WORK.
  intros hs hv hl hg sp m1 m2 m3.
  destruct (wrong_sum_noted testResults), (validation_failed testResults),
    (hasLoop codeSource), (hasPositiveCheck codeSource); reflexivity.
Qed.

Lemma wrong_sum_noted_iff testResults :
  wrong_sum_noted testResults = true <->
  exists t, In t testResults /\ passed t = false /\
            exists a b, notes t = a ++ WRONG_SUM_PHRASE ++ b.
Proof.
  unfold wrong_sum_noted. rewrite existsb_exists. split.
  - intros [t [Hin H]]. apply andb_true_iff in H. destruct H as [H1 H2].
    exists t. repeat split; auto.
    + now destruct (passed t).
    + now apply includes_iff.
  - intros [t [Hin [Hp Hn]]]. exists t. split; [exact Hin|].
    rewrite Hp. now apply includes_iff in Hn.
Qed.

Lemma validation_failed_iff testResults :
  validation_failed testResults = true <->
  exists t, In t testResults /\ isValidationTest (testCase t) = true /\
            passed t = false.
Proof.
  unfold validation_failed. rewrite existsb_exists. split.
  - intros [t [Hin H]]. apply andb_true_iff in H. destruct H as [H1 H2].
    exists t. repeat split; auto. now destruct (passed t).
  - intros [t [Hin [Hv Hp]]]. exists t. now rewrite Hv, Hp.
Qed.

Lemma join_contains sep h (l : list jsstring) :
  In h l -> exists a b, join sep l = a ++ h ++ b.
Proof.
  induction l as [|x l IH]; [contradiction|]. intros [->|Hin].
  - destruct l as [|y l].
    + exists [], []. simpl. now rewrite app_nil_r.
    + exists [], (sep ++ join sep (y :: l)). reflexivity.
  - destruct (IH Hin) as [a [b E]]. destruct l as [|y l]; [contradiction|].
    exists (x ++ sep ++ a), b. cbn [join] in *. rewrite E.
    now rewrite <- !app_assoc.
Qed.

Lemma str_neq (a b : jsstring) : str_eqb a b = false -> a <> b.
Proof. intros H E. apply str_eqb_eq in E. congruence. Qed.

Lemma hint_guard_triggered testResults codeSource :
  In HINT_GUARD (triggered_hints testResults codeSource)
  <-> hasPositiveCheck codeSource = false.
Proof.
  unfold triggered_hints.
  assert (N1 : HINT_SUM <> HINT_GUARD)
    by (apply str_neq; vm_compute; reflexivity).
  assert (N2 : HINT_VALIDATION <> HINT_GUARD)
    by (apply str_neq; vm_compute; reflexivity).
  assert (N3 : HINT_LOOP <> HINT_GUARD)
    by (apply str_neq; vm_compute; reflexivity).
  generalize dependent HINT_SUM. generalize dependent HINT_VALIDATION.
  generalize dependent HINT_LOOP. generalize dependent HINT_GUARD.
  intros hg hl N3 hv N2 hs N1.
  destruct (wrong_sum_noted testResults), (validation_failed testResults),
    (hasLoop codeSource), (hasPositiveCheck codeSource); simpl;
    intuition congruence.
Qed.

(** ** Runs of the catalog *)

(** A reference submission passes the four scenarios and scores 100. *)
Example reference_run :
  exists testResults,
    gradeRun reference_engine sample_guarded_source
    = Normal (mkReport testResults (Num (inject_Z 100)) MSG_EXCELLENT) /\
    length testResults = 4%nat /\
    forallb passed testResults = true.
Proof.
  eexists. split; [vm_compute; reflexivity|]. split; reflexivity.
Qed.

(** A submission that sums every input passes the first two scenarios and
    fails the two validation scenarios: 40 for the tests, 10 for the loop,
    and the hints on the sum, on validation and on the missing guard. *)
Example summing_run :
  exists testResults,
    gradeRun summing_engine summing_source
    = Normal (mkReport testResults (Num (inject_Z 50))
                (join (js " ") [HINT_SUM; HINT_VALIDATION; HINT_GUARD])) /\
    map passed testResults = [true; true; false; false] /\
    map reportedSum testResults = [Some (Int 15); Some (Int 150); Some (Int 47); Some (Int 22)].
Proof.
  eexists. split; [vm_compute; reflexivity|]. split; reflexivity.
Qed.

(** What the two patterns take for a loop and for a guard. *)
Example hasLoop_samples :
  map hasLoop [js "for (;;)"; js "do {"; js "while(1)"; js "double fork(dox)";
               js "a_for b"]
  = [true; true; true; false; false].
Proof. vm_compute. reflexivity. Qed.

Example hasPositiveCheck_samples :
  map hasPositiveCheck
    [js "if (n <= 0)"; js "if(num<1)"; js "if (n > 0)"; js "if (a && b >0)";
     js "if (n < 0)"; js "if (n > 1)"; js "if (n <= 1)"; js "if (n >= 1)";
     js "if (f(n) > 0)"; js "while (n <= 0)"; js "elif (n > 0)"]
  = [true; true; true; true; false; false; false; false; false; false; false].
Proof. vm_compute. reflexivity. Qed.

(** ** The scan for numbers, directly *)

Lemma match_from_texts fuel : forall prev s,
  (length s < fuel)%nat ->
  match_from re_number fuel (mkPos prev s) = number_texts fuel s.
Proof.
  induction fuel as [|k IH]; intros prev s Hlen; [lia|].
  cbn [match_from number_texts].
  destruct (number_prefix_split s) as [v [E Hp]].
  destruct (number_prefix s) as [|c0 t0] eqn:En.
  - rewrite rmatch_number_none by exact En. cbn [rest].
    destruct s as [|c s']; [reflexivity|].
    apply IH. simpl in Hlen. lia.
  - destruct (Hp ltac:(discriminate)) as [Ht Hv]. clear Hp.
    remember (c0 :: t0) as t eqn:Et.
    destruct (@rmatch_number_some (mkPos prev s) t v E Ht Hv) as [l ->].
    cbn [rest before].
    assert (Hs : skipn (length t) s = v).
    { rewrite E at 1. rewrite skipn_app, skipn_all, Nat.sub_diag. reflexivity. }
    rewrite Hs.
    assert (Hf : firstn (length s - length v) s = t).
    { rewrite E at 1 2. apply firstn_length_app. }
    rewrite Hf.
    assert (Hn : (length s - length v = S (length t0))%nat).
    { rewrite E at 1. rewrite length_app, Et. cbn [length]. lia. }
    rewrite Hn. f_equal. apply IH.
    rewrite E, length_app, Et in Hlen. cbn [length] in Hlen. lia.
Qed.

Lemma number_texts_fuel fuel : forall fuel' s,
  (length s < fuel)%nat -> (length s < fuel')%nat ->
  number_texts fuel s = number_texts fuel' s.
Proof.
  induction fuel as [|k IH]; intros fuel' s H H'; [lia|].
  destruct fuel' as [|k']; [lia|].
  cbn [number_texts].
  destruct (number_prefix_split s) as [v [E Hp]].
  destruct (number_prefix s) as [|c0 t0] eqn:En.
  - destruct s as [|c s']; [reflexivity|]. simpl in H, H'. apply IH; lia.
  - f_equal.
    assert (Hs : skipn (length (c0 :: t0)) s = v).
    { rewrite E at 1. rewrite skipn_app, skipn_all, Nat.sub_diag. reflexivity. }
    rewrite Hs. rewrite E, length_app in H, H'. cbn [length] in H, H'.
    apply IH; lia.
Qed.

Lemma number_texts_in fuel s :
  (length s < fuel)%nat -> number_texts fuel s = numbers_in s.
Proof. intros H. apply number_texts_fuel; [exact H | lia]. Qed.

Lemma numbers_in_skip c s :
  number_prefix (c :: s) = [] -> numbers_in (c :: s) = numbers_in s.
Proof.
  intros H. unfold numbers_in at 1. cbn [number_texts]. rewrite H.
  apply number_texts_in. simpl. lia.
Qed.

Lemma numbers_in_number t v :
  is_number_text t = true -> starts_digit v = false ->
  numbers_in (t ++ v) = t :: numbers_in v.
Proof.
  intros Ht Hv. unfold numbers_in at 1. cbn [number_texts].
  rewrite (number_prefix_text _ _ Ht Hv).
  destruct t as [|c t]; [discriminate|].
  rewrite skipn_app, skipn_all, Nat.sub_diag. cbn [skipn app].
  f_equal. apply number_texts_in. cbn [app length]. rewrite length_app. lia.
Qed.

Lemma numbers_in_texts s : Forall (fun t => is_number_text t = true) (numbers_in s).
Proof.
  remember (length s) as n eqn:En. revert s En.
  induction n as [n IH] using lt_wf_ind. intros s En.
  destruct (number_prefix_split s) as [v [E Hp]].
  destruct (number_prefix s) as [|c0 t0] eqn:Ep.
  - destruct s as [|c s']; [constructor|].
    rewrite numbers_in_skip by exact Ep.
    apply (IH (length s')); [simpl in En; lia | reflexivity].
  - destruct (Hp ltac:(discriminate)) as [Ht Hv].
    rewrite E. rewrite numbers_in_number by assumption.
    constructor; [exact Ht|].
    apply (IH (length v)); [|reflexivity].
    rewrite En, E, length_app. simpl. lia.
Qed.

Lemma extractSumFromOutput_texts stdout :
  let numbers :=
    map (fun t => Number_of_Z (number_value t)) (numbers_in stdout) in
  extractSumFromOutput stdout = mkParse (last_number numbers) numbers.
Proof.
  cbv zeta. unfold extractSumFromOutput.
  destruct stdout as [|c s]; [reflexivity|].
  cbn [truthy negb]. rewrite match_global_or_empty.
  rewrite match_from_texts by lia.
  change (number_texts (S (length (c :: s))) (c :: s)) with (numbers_in (c :: s)).
  assert (H : flat_map
                (fun n : option jsint => match n with Some z => [z] | None => [] end)
                (map parseInt10 (numbers_in (c :: s)))
              = map (fun t => Number_of_Z (number_value t)) (numbers_in (c :: s))).
  { generalize (numbers_in_texts (c :: s)).
    induction (numbers_in (c :: s)) as [|t l IHl]; intros F; [reflexivity|].
    inversion F; subst. cbn [map flat_map].
    rewrite parseInt10_number by assumption. cbn [app]. f_equal. now apply IHl. }
  rewrite H.
  destruct (map (fun t => Number_of_Z (number_value t)) (numbers_in (c :: s)))
    as [|n l] eqn:En; [reflexivity|].
  replace (length (n :: l) =? 0)%nat with false by reflexivity.
  rewrite (last_number_nth (Int 0)) by discriminate. reflexivity.
Qed.

Lemma cut_ok_nil b : cut_ok [] b.
Proof. intros _. reflexivity. Qed.

Lemma cut_ok_suffix x y b : cut_ok (x ++ y) b -> cut_ok y b.
Proof.
  destruct y as [|c y]; [intros _; apply cut_ok_nil|].
  unfold cut_ok, ends_digit_or_minus. rewrite last_of_app.
  rewrite (@last_of_nonempty (c :: y) (last_of x None)) by discriminate.
  tauto.
Qed.

Lemma starts_digit_take s : starts_digit s = false -> take_digits s = [].
Proof.
  destruct s as [|c s]; [reflexivity|]. cbn [starts_digit take_digits].
  now intros ->.
Qed.

Lemma number_text_ends t :
  is_number_text t = true -> ends_digit_or_minus t = true.
Proof.
  intros Ht. destruct (number_text_has_digit _ Ht) as [x [d [y [E Hd]]]].
  assert (Ht' := Ht).
  destruct (rev t) as [|c r] eqn:Er.
  - apply (f_equal (@rev _)) in Er. rewrite rev_involutive in Er.
    cbn [rev] in Er. rewrite E in Er. destruct x; discriminate Er.
  - apply (f_equal (@rev _)) in Er. rewrite rev_involutive in Er.
    cbn [rev] in Er. unfold ends_digit_or_minus. rewrite Er, last_of_snoc.
    apply (@number_text_any t (rev r) c [] Ht Er).
Qed.

Lemma number_prefix_none_app c a b :
  number_prefix (c :: a) = [] -> cut_ok (c :: a) b ->
  number_prefix (c :: a ++ b) = [].
Proof.
  unfold number_prefix. destruct (c =? cu "-")%N eqn:Ec.
  - destruct a as [|d a].
    + intros _ Hcut. cbn [app].
      assert (Hb : starts_digit b = false).
      { destruct (starts_digit b) eqn:Hb; [|reflexivity].
        specialize (Hcut Hb). unfold ends_digit_or_minus in Hcut.
        change (last_of [c] None) with (Some c) in Hcut. cbv beta iota in Hcut.
        rewrite Ec, orb_true_r in Hcut. discriminate. }
      now rewrite (@starts_digit_take _ Hb).
    + cbn [take_digits app]. destruct (is_digit d); [discriminate | reflexivity].
  - cbn [take_digits]. destruct (is_digit c); [discriminate | reflexivity].
Qed.

(** The numbers of a text cut where no number reaches across are those of
    the two parts. *)
Lemma numbers_in_app a : forall b,
  cut_ok a b -> numbers_in (a ++ b) = numbers_in a ++ numbers_in b.
Proof.
  remember (length a) as n eqn:En. revert a En.
  induction n as [n IH] using lt_wf_ind. intros a En b Hcut.
  destruct (number_prefix_split a) as [v [E Hp]].
  destruct (number_prefix a) as [|c0 t0] eqn:Ep.
  - destruct a as [|c a']; [reflexivity|].
    cbn [app]. rewrite (@numbers_in_skip _ _ Ep).
    rewrite (@numbers_in_skip _ _ (@number_prefix_none_app _ _ _ Ep Hcut)).
    apply (IH (length a')); [simpl in En; lia | reflexivity |].
    apply (@cut_ok_suffix [c] a' b Hcut).
  - destruct (Hp ltac:(discriminate)) as [Ht Hv]. clear Hp Ep.
    remember (c0 :: t0) as t eqn:Et.
    assert (Hcut' : cut_ok v b).
    { apply (@cut_ok_suffix t v b). now rewrite <- E. }
    assert (Hvb : starts_digit (v ++ b) = false).
    { destruct v as [|d v'].
      - cbn [app]. destruct (starts_digit b) eqn:Hb; [|reflexivity].
        specialize (Hcut Hb). rewrite E, app_nil_r in Hcut.
        rewrite (@number_text_ends _ Ht) in Hcut. discriminate.
      - exact Hv. }
    rewrite E, <- app_assoc.
    rewrite (@numbers_in_number _ _ Ht Hvb), (@numbers_in_number _ _ Ht Hv).
    cbn [app]. f_equal.
    apply (IH (length v)); [|reflexivity | exact Hcut'].
    rewrite En, E, length_app, Et. cbn [length]. lia.
Qed.

Lemma numbers_in_none s :
  forallb (fun c => negb (is_digit c)) s = true -> numbers_in s = [].
Proof.
  induction s as [|c s IH]; [reflexivity|].
  cbn [forallb]. intros H. apply andb_true_iff in H. destruct H as [Hc Hs].
  apply negb_true_iff in Hc.
  rewrite numbers_in_skip; [now apply IH|].
  unfold number_prefix. destruct (c =? cu "-")%N.
  - destruct s as [|d s']; [reflexivity|]. cbn [forallb] in Hs.
    apply andb_true_iff in Hs. destruct Hs as [Hd _]. apply negb_true_iff in Hd.
    cbn [take_digits]. now rewrite Hd.
  - cbn [take_digits]. now rewrite Hc.
Qed.

Lemma last_number_app {A} (l l' : list A) :
  last_number (l ++ l')
  = match last_number l' with Some n => Some n | None => last_number l end.
Proof.
  induction l as [|x l IH]; [cbn [app]; now destruct (last_number l')|].
  cbn [app]. destruct l as [|y l].
  - cbn [app]. destruct l' as [|z l']; [reflexivity|].
    change (last_number (x :: z :: l')) with (last_number (z :: l')).
    destruct (last_number (z :: l')) eqn:E; [reflexivity|].
    exfalso. clear -E. revert z E. induction l' as [|w l' IHl]; intros z E.
    + discriminate.
    + apply (IHl w). exact E.
  - change (last_number (x :: (y :: l) ++ l')) with (last_number ((y :: l) ++ l')).
    rewrite IH. reflexivity.
Qed.

(** ** Numerals *)

Lemma js_string_of_uint d : js (NilEmpty.string_of_uint d) = uint_codes d.
Proof.
  unfold js. induction d; cbn [NilEmpty.string_of_uint bytes_of_string uint_codes];
    [reflexivity | ..];
    (etransitivity; [| apply f_equal; exact IHd]); reflexivity.
Qed.

Lemma uint_codes_digits d : forallb is_digit (uint_codes d) = true.
Proof. induction d; cbn [uint_codes forallb]; [reflexivity | ..]; exact IHd. Qed.

Lemma uint_codes_acc d : forall acc,
  fold_left (fun acc c => 10 * acc + digit_value c) (uint_codes d) (Z.pos acc)
  = Z.pos (Pos.of_uint_acc d acc).
Proof.
  induction d; intros acc; cbn [uint_codes fold_left Pos.of_uint_acc];
    [reflexivity | ..];
    rewrite <- IHd; f_equal; unfold digit_value; simpl Z.of_N; lia.
Qed.

Lemma uint_codes_value d : digits_value (uint_codes d) = Z.of_uint d.
Proof.
  rewrite <- decimal_value_digits. unfold decimal_value, Z.of_uint.
  induction d; cbn [uint_codes fold_left Pos.of_uint];
    [reflexivity | exact IHd | ..];
    cbn [Z.of_N]; rewrite <- uint_codes_acc; reflexivity.
Qed.

Lemma string_of_uint_codes d :
  let t := js (NilZero.string_of_uint d) in
  t <> [] /\ forallb is_digit t = true /\ digits_value t = Z.of_uint d.
Proof.
  cbv zeta. unfold NilZero.string_of_uint.
  destruct d;
    [ split; [discriminate | split; reflexivity] | ..];
    rewrite js_string_of_uint;
    (split; [discriminate | split; [apply uint_codes_digits | apply uint_codes_value]]).
Qed.

Lemma digits_number_text ds :
  ds <> [] -> forallb is_digit ds = true ->
  is_number_text ds = true /\ number_value ds = digits_value ds.
Proof.
  destruct ds as [|d ds]; [congruence|]. intros _ H.
  assert (Hd : is_digit d = true).
  { cbn [forallb] in H. apply andb_true_iff in H. tauto. }
  destruct (digit_not_sign _ Hd) as [Hm _].
  unfold is_number_text, number_value. rewrite Hm. now split.
Qed.

Lemma minus_number_text ds :
  ds <> [] -> forallb is_digit ds = true ->
  is_number_text (cu "-" :: ds) = true /\
  number_value (cu "-" :: ds) = - digits_value ds.
Proof.
  intros Hn H. unfold is_number_text, number_value.
  rewrite N.eqb_refl, H. destruct ds; [congruence|]. now split.
Qed.

Lemma js_minus s : js (String "-" s) = cu "-" :: js s.
Proof. reflexivity. Qed.

(** [String(n)] for an integer is a number text, and it denotes [n]. *)
Lemma decimal_numeral_number n :
  is_number_text (decimal_numeral n) = true /\
  number_value (decimal_numeral n) = n.
Proof.
  rewrite <- (DecimalZ.of_to n) at 3.
  unfold decimal_numeral, NilZero.string_of_int, Z.of_int.
  destruct (Z.to_int n) as [d|d];
    destruct (string_of_uint_codes d) as [Hn [Hd Hv]].
  - rewrite <- Hv. now apply digits_number_text.
  - rewrite js_minus, <- Hv. now apply minus_number_text.
Qed.

(** ** The texts of the feedback *)

Lemma existsb_str_In x (l : list jsstring) : existsb (str_eqb x) l = true -> In x l.
Proof.
  intros H. apply existsb_exists in H. destruct H as [y [Hy E]].
  apply str_eqb_eq in E. now subst.
Qed.

Lemma generateFeedback_in_texts testResults score codeSource :
  In (generateFeedback testResults score codeSource) feedback_texts.
Proof.
  destruct (firstCompilationFailed testResults) eqn:Hf.
  - unfold generateFeedback. rewrite Hf. apply existsb_str_In. vm_compute. reflexivity.
  - destruct (js_eq score (inject_Z 100)) eqn:Hs.
    + unfold generateFeedback. rewrite Hf, Hs. apply existsb_str_In.
      vm_compute. reflexivity.
    + rewrite (@generateFeedback_hints _ _ codeSource Hf Hs).
      unfold triggered_hints, banded_message.
      destruct (wrong_sum_noted testResults), (validation_failed testResults),
        (hasLoop codeSource), (hasPositiveCheck codeSource);
        cbn [app];
        try (apply existsb_str_In; vm_compute; reflexivity);
        destruct (js_ge score (inject_Z 80)), (js_ge score (inject_Z 60));
        apply existsb_str_In; vm_compute; reflexivity.
Qed.

Lemma feedback_texts_nonempty : forallb truthy feedback_texts = true.
Proof. vm_compute. reflexivity. Qed.

Lemma generateFeedback_cases testResults score codeSource :
  generateFeedback testResults score codeSource
  = if firstCompilationFailed testResults then MSG_COMPILE_FAILURE
    else if js_eq score (inject_Z 100) then MSG_EXCELLENT
    else match triggered_hints testResults codeSource with
         | [] => banded_message score
         | _ :: _ => join (js " ") (triggered_hints testResults codeSource)
         end.
Proof.
  destruct (firstCompilationFailed testResults) eqn:Hf.
  - unfold generateFeedback. now rewrite Hf.
  - destruct (js_eq score (inject_Z 100)) eqn:Hs.
    + unfold generateFeedback. now rewrite Hf, Hs.
    + apply (@generateFeedback_hints _ _ codeSource Hf Hs).
Qed.

(** The two fixed verdicts are told apart from every other feedback. *)
Lemma generateFeedback_verdicts testResults score codeSource :
  (generateFeedback testResults score codeSource = MSG_COMPILE_FAILURE
   <-> firstCompilationFailed testResults = true) /\
  (generateFeedback testResults score codeSource = MSG_EXCELLENT
   <-> firstCompilationFailed testResults = false /\
       js_eq score (inject_Z 100) = true).
Proof.
  rewrite generateFeedback_cases. unfold triggered_hints, banded_message.
  destruct (firstCompilationFailed testResults), (js_eq score (inject_Z 100)),
    (wrong_sum_noted testResults), (validation_failed testResults),
    (hasLoop codeSource), (hasPositiveCheck codeSource),
    (js_ge score (inject_Z 80)), (js_ge score (inject_Z 60));
    cbn [app];
    (split;
     (split;
      [ intros H;
        first [ exfalso; revert H; apply str_neq; vm_compute; reflexivity
              | reflexivity | split; reflexivity ]
      | first [ discriminate | intros [? ?]; discriminate
              | intros _; vm_compute; reflexivity ] ])).
Qed.

(** ** Runs, case by case *)

Section RunFacts.

Variable JSCPP_run : engine.
Variable studentCode : jsstring.

(** The results stand for a prefix of the cases, in order, and each call of
    the interpreter has its result. *)
Lemma run_results_prefix testCases :
  map testCase (run_results JSCPP_run studentCode testCases)
  = firstn (length (run_results JSCPP_run studentCode testCases)) testCases /\
  run_calls JSCPP_run studentCode testCases
  = map (fun r => input (testCase r))
      (run_results JSCPP_run studentCode testCases).
Proof.
  induction testCases as [|c cs [IH1 IH2]]; [now split|].
  cbn [run_results run_calls].
  destruct (compiled (outcome_of JSCPP_run studentCode c)).
  - cbn [map length firstn]. rewrite <- IH1, <- IH2. now split.
  - now split.
Qed.

Lemma run_results_complete testCases :
  Forall (fun r => compilationFailed r = false)
    (run_results JSCPP_run studentCode testCases) ->
  length (run_results JSCPP_run studentCode testCases) = length testCases.
Proof.
  induction testCases as [|c cs IH]; [reflexivity|].
  cbn [run_results].
  destruct (compiled (outcome_of JSCPP_run studentCode c)).
  - intros F. inversion F; subst. cbn [length]. f_equal. now apply IH.
  - intros F. inversion F; subst. discriminate.
Qed.

Lemma run_results_failed_not_passed testCases :
  Forall (fun r => compilationFailed r = true -> passed r = false /\ reportedSum r = None)
    (run_results JSCPP_run studentCode testCases).
Proof.
  induction testCases as [|c cs IH]; [constructor|].
  cbn [run_results].
  destruct (compiled (outcome_of JSCPP_run studentCode c)).
  - constructor; [|exact IH]. discriminate.
  - constructor; [|constructor]. now split.
Qed.

End RunFacts.

(** ** Scores *)

Lemma functionalScore_not_NaN testResults : functionalScore testResults <> NaN.
Proof.
  unfold functionalScore.
  destruct (Z.gtb_spec (totalPoints testResults) 0) as [H|H]; [|discriminate].
  unfold js_div. rewrite (inject_Z_nonzero H).
  pose proof (fl_not_NaN (inject_Z (earnedPoints testResults)
                          / inject_Z (totalPoints testResults))) as N.
  destruct (fl _); cbn [js_mul]; [apply fl_not_NaN | | | contradiction];
    discriminate.
Qed.

(** Clamping and rounding a number that is not [NaN] gives an integer
    between 0 and 100. *)
Lemma clamped_round_integer x :
  x <> NaN ->
  exists z, Math_round (Math_max 0 (Math_min (inject_Z 100) x))
            = Num (inject_Z z) /\ 0 <= z <= 100.
Proof.
  intros N. destruct x as [q| | |]; cbn [Math_min Math_max Math_round].
  - eexists. split; [reflexivity|]. apply clamped_round_range.
  - exists 100. split; [reflexivity | lia].
  - exists 0. split; [reflexivity | lia].
  - contradiction.
Qed.

Lemma calculateScore_integer testResults codeSource :
  exists z, calculateScore testResults codeSource = Num (inject_Z z) /\
            0 <= z <= 100.
Proof.
  unfold calculateScore.
  destruct (firstCompilationFailed testResults) eqn:Hf.
  - exists 0. split; [reflexivity | lia].
  - apply clamped_round_integer.
    pose proof (functionalScore_not_NaN testResults) as N.
    destruct (functionalScore testResults); cbn [js_add];
      [apply fl_not_NaN | | | contradiction]; discriminate.
Qed.

Lemma Num_inject_Z_inj a b : Num (inject_Z a) = Num (inject_Z b) -> a = b.
Proof. intros H. now injection H. Qed.

Lemma js_eq_integer a b : js_eq (Num (inject_Z a)) (inject_Z b) = (a =? b).
Proof.
  unfold js_eq. destruct (Z.eqb_spec a b) as [->|N].
  - apply Qeq_bool_iff. reflexivity.
  - destruct (Qeq_bool (inject_Z a) (inject_Z b)) eqn:E; [|reflexivity].
    apply Qeq_bool_iff in E. unfold Qeq in E. simpl in E. lia.
Qed.

Lemma js_ge_integer a b : js_ge (Num (inject_Z a)) (inject_Z b) = (b <=? a).
Proof.
  unfold js_ge, Qle_bool, inject_Z. cbn [Qnum Qden].
  now rewrite !Z.mul_1_r.
Qed.

(** On results for a prefix of the catalog, all of it unless one failed,
    the score is 100 exactly when all four scenarios passed and both
    heuristics hold. *)
Lemma score_100_catalog testResults codeSource :
  map testCase testResults = firstn (length testResults) generateTestCases ->
  length testResults = length generateTestCases \/
  forallb passed testResults = false ->
  firstCompilationFailed testResults = false ->
  (calculateScore testResults codeSource = Num (inject_Z 100)
   <-> length testResults = 4%nat /\ forallb passed testResults = true /\
       hasLoop codeSource = true /\ hasPositiveCheck codeSource = true).
Proof.
  intros Hc Hp Hf.
  assert (Hlen : (length testResults <= 4)%nat).
  { apply (f_equal (@length _)) in Hc. rewrite length_map, length_firstn in Hc.
    change (length generateTestCases) with 4%nat in Hc. lia. }
  unfold calculateScore, qualityScore. rewrite Hf. clear Hf.
  change (length generateTestCases) with 4%nat in Hp.
  unfold generateTestCases in Hc.
  destruct testResults as [|[c1 p1 s1 n1 f1] [|[c2 p2 s2 n2 f2] [|[c3 p3 s3 n3 f3]
    [|[c4 p4 s4 n4 f4] [|r5 rs]]]]];
    cbn [length] in Hlen; try lia; clear Hlen;
    cbn [length firstn map testCase] in Hc;
    repeat match goal with
           | H : _ :: _ = _ :: _ |- _ => injection H; clear H; intros
           end; subst;
    cbn [length forallb passed] in Hp;
    destruct (hasLoop codeSource), (hasPositiveCheck codeSource);
    try destruct p1; try destruct p2; try destruct p3; try destruct p4;
    try (exfalso; destruct Hp as [Hp|Hp]; discriminate Hp);
    clear Hp; vm_compute;
    (split;
     [ intros H; first [ discriminate H | repeat split; reflexivity ]
     | intros [H1 [H2 [H3 H4]]]; first [ discriminate | reflexivity ] ]).
Qed.

Section RunScores.

Variable JSCPP_run : engine.
Variable studentCode : jsstring.

Lemma run_results_full_or_failed testCases :
  length (run_results JSCPP_run studentCode testCases) = length testCases \/
  forallb passed (run_results JSCPP_run studentCode testCases) = false.
Proof.
  induction testCases as [|c cs IH]; [now left|].
  cbn [run_results].
  destruct (compiled (outcome_of JSCPP_run studentCode c)).
  - cbn [length forallb]. destruct IH as [IH|IH]; [left; now f_equal|].
    right. rewrite IH. apply andb_false_r.
  - now right.
Qed.

Lemma gradeRun_report :
  gradeRun JSCPP_run studentCode
  = let testResults := run_results JSCPP_run studentCode generateTestCases in
    let score := calculateScore testResults studentCode in
    Normal (mkReport testResults score
              (generateFeedback testResults score studentCode)).
Proof. unfold gradeRun. now rewrite runAllTests_spec. Qed.

End RunScores.

Lemma Zsum_filter_le (f : TestResult -> Z) (p : TestResult -> bool) l :
  Forall (fun r => 0 <= f r) l ->
  0 <= Zsum (map f (filter p l)) <= Zsum (map f l).
Proof.
  induction 1 as [|r l Hr _ IH]; [simpl; lia|].
  cbn [filter]. destruct (p r); cbn [map Zsum fold_right] in *; unfold Zsum in *; lia.
Qed.

Lemma earned_le_total testResults :
  Forall (fun r => 0 <= points (testCase r)) testResults ->
  0 <= earnedPoints testResults <= totalPoints testResults.
Proof.
  intros H. rewrite earnedPoints_sum, totalPoints_sum. now apply Zsum_filter_le.
Qed.





(** ** The wrong-sum phrase *)

Lemma no_number_without_phrase : includes MSG_NO_NUMBER WRONG_SUM_PHRASE = false.
Proof. vm_compute. reflexivity. Qed.

Lemma wrong_note_with_phrase a b c :
  includes (MSG_WRONG_1 ++ a ++ MSG_WRONG_2 ++ b ++ MSG_WRONG_3 ++ c)
    WRONG_SUM_PHRASE = true.
Proof.
  assert (E : MSG_WRONG_1
              = [] ++ WRONG_SUM_PHRASE
                ++ skipn (length WRONG_SUM_PHRASE) MSG_WRONG_1)
    by (vm_compute; reflexivity).
  rewrite E. cbn [app]. rewrite <- app_assoc.
  apply (@includes_middle [] WRONG_SUM_PHRASE).
Qed.

(** ** The heuristics under surrounding text *)

Lemma ends_word_app p u :
  ends_word p = false -> ends_word u = false -> ends_word (p ++ u) = false.
Proof.
  intros Hp Hu. destruct u as [|c u]; [now rewrite app_nil_r|].
  unfold ends_word in *. rewrite last_of_app.
  now rewrite (@last_of_nonempty (c :: u) (last_of p None)) by discriminate.
Qed.

Lemma starts_word_app_false v b :
  starts_word v = false -> starts_word b = false -> starts_word (v ++ b) = false.
Proof. intros Hv Hb. destruct v; [exact Hb | exact Hv]. Qed.

Lemma hasLoop_surrounded p a b :
  ends_word p = false -> starts_word b = false ->
  hasLoop a = true -> hasLoop (p ++ a ++ b) = true.
Proof.
  intros Hp Hb H. apply hasLoop_iff in H. apply hasLoop_iff.
  destruct H as [u [kw [v [-> [Hk [Hu Hv]]]]]].
  exists (p ++ u), kw, (v ++ b). split; [now rewrite <- !app_assoc|].
  split; [exact Hk|]. split; [now apply ends_word_app|].
  now apply starts_word_app_false.
Qed.

Lemma hasPositiveCheck_surrounded p a b :
  ends_word p = false ->
  hasPositiveCheck a = true -> hasPositiveCheck (p ++ a ++ b) = true.
Proof.
  intros Hp H. apply hasPositiveCheck_iff in H. apply hasPositiveCheck_iff.
  destruct H as [u [ws [body [op [ws' [d [v [-> [Hu H]]]]]]]]].
  exists (p ++ u), ws, body, op, ws', d, (v ++ b).
  split; [now rewrite <- !app_assoc|].
  split; [now apply ends_word_app | exact H].
Qed.

Lemma qualityScore_surrounded p a b :
  ends_word p = false -> starts_word b = false ->
  qualityScore a <= qualityScore (p ++ a ++ b).
Proof.
  intros Hp Hb. rewrite !qualityScore_cases.
  pose proof (@hasLoop_surrounded p a b Hp Hb) as HL.
  pose proof (@hasPositiveCheck_surrounded p a b Hp) as HG.
  destruct (hasLoop a), (hasPositiveCheck a);
    try rewrite (HL eq_refl); try rewrite (HG eq_refl);
    destruct (hasLoop (p ++ a ++ b)), (hasPositiveCheck (p ++ a ++ b)); lia.
Qed.

Lemma quality_by_comment a :
  hasLoop (a ++ quality_comment) = true /\
  hasPositiveCheck (a ++ quality_comment) = true.
Proof.
  split.
  - apply hasLoop_iff. exists (a ++ jse "\n// "), (js "while"), (js " if (n > 0)").
    split; [rewrite <- app_assoc; f_equal; vm_compute; reflexivity|].
    split; [right; left; reflexivity|].
    split; [|reflexivity].
    unfold ends_word. rewrite last_of_app. reflexivity.
  - apply hasPositiveCheck_iff.
    exists (a ++ jse "\n// while "), (js " "), (js "n "), (js ">"), (js " "),
      (js "0"), (js ")").
    split; [rewrite <- app_assoc; f_equal; vm_compute; reflexivity|].
    split; [unfold ends_word; rewrite last_of_app; reflexivity|].
    split; [reflexivity|]. split; [reflexivity|].
    split; [right; right; left; reflexivity | reflexivity].
Qed.

(** ** A submission that answers every scenario *)

Lemma outcome_of_run JSCPP_run studentCode c :
  stdout (outcome_of JSCPP_run studentCode c)
  = concat (writes (JSCPP_run studentCode (input c))) /\
  compiled (outcome_of JSCPP_run studentCode c)
  = match completes (JSCPP_run studentCode (input c)) with
    | Normal _ => true
    | Abrupt _ => false
    end.
Proof.
  unfold outcome_of, runCProgram.
  destruct (completes (JSCPP_run studentCode (input c)));
    cbn [stdout compiled]; rewrite fold_left_app_concat; now split.
Qed.

Lemma jsint_eqb_eq a b : jsint_eqb a b = true <-> a = b.
Proof.
  destruct a as [x| |], b as [y| |]; cbn [jsint_eqb];
    try (split; [discriminate | intros [=]]); try tauto.
  rewrite Z.eqb_eq. split; [now intros -> | now intros [= ->]].
Qed.

Lemma jsint_eqb_neq a b : jsint_eqb a b = false <-> a <> b.
Proof.
  rewrite <- jsint_eqb_eq. destruct (jsint_eqb a b); split; congruence.
Qed.

Lemma jsint_eqb_refl a : jsint_eqb a a = true.
Proof. now apply jsint_eqb_eq. Qed.

Lemma judged_correct c o :
  sum (extractSumFromOutput (stdout o)) = Some (Int (expectedSum c)) ->
  judged_result c o
  = mkResult c true (Some (Int (expectedSum c))) MSG_PASSED false.
Proof.
  intros H. unfold judged_result, compareSums. rewrite H, jsint_eqb_refl.
  reflexivity.
Qed.

(** ** The page *)

Lemma str_eqb_refl a : str_eqb a a = true.
Proof. now apply str_eqb_eq. Qed.

Lemma existsb_str_iff x (l : list jsstring) :
  existsb (str_eqb x) l = true <-> In x l.
Proof.
  rewrite existsb_exists. split.
  - intros [y [Hy E]]. apply str_eqb_eq in E. now subst.
  - intros H. exists x. split; [exact H | apply str_eqb_refl].
Qed.

Lemma contains_In l token : contains l token = true <-> In token l.
Proof. apply existsb_str_iff. Qed.

Lemma classList_add_In l token x :
  In x (classList_add l token) <-> In x l \/ x = token.
Proof.
  unfold classList_add. destruct (contains l token) eqn:E.
  - apply contains_In in E. split; [tauto|]. intros [H| ->]; assumption.
  - rewrite in_app_iff. cbn [In]. split; [intros [H|[H|[]]] | intros [H|H]]; auto.
Qed.

Lemma classList_remove_In l tokens x :
  In x (classList_remove l tokens) <-> In x l /\ ~ In x tokens.
Proof.
  unfold classList_remove. rewrite filter_In, negb_true_iff.
  rewrite <- (existsb_str_iff x tokens).
  destruct (existsb (str_eqb x) tokens); split; intros [H1 H2]; split;
    congruence.
Qed.

Lemma contains_eq l l' token :
  (In token l <-> In token l') -> contains l token = contains l' token.
Proof.
  intros H. destruct (contains l token) eqn:E, (contains l' token) eqn:E';
    try reflexivity.
  - apply contains_In in E. apply H in E. apply contains_In in E. congruence.
  - apply contains_In in E'. apply H in E'. apply contains_In in E'. congruence.
Qed.

Lemma classList_remove_idem l tokens :
  classList_remove (classList_remove l tokens) tokens = classList_remove l tokens.
Proof.
  unfold classList_remove. induction l as [|c l IH]; [reflexivity|].
  cbn [filter]. destruct (negb (existsb (str_eqb c) tokens)) eqn:E.
  - cbn [filter]. rewrite E. now f_equal.
  - exact IH.
Qed.

Lemma classList_remove_app l l' tokens :
  classList_remove (l ++ l') tokens
  = classList_remove l tokens ++ classList_remove l' tokens.
Proof. apply filter_app. Qed.

Lemma classList_remove_one token tokens :
  In token tokens -> classList_remove [token] tokens = [].
Proof.
  intros H. unfold classList_remove. cbn [filter].
  apply existsb_str_iff in H. now rewrite H.
Qed.

Lemma classList_remove_add l token tokens :
  In token tokens ->
  classList_remove (classList_add l token) tokens = classList_remove l tokens.
Proof.
  intros H. unfold classList_add. destruct (contains l token); [reflexivity|].
  rewrite classList_remove_app, (@classList_remove_one _ _ H). apply app_nil_r.
Qed.

Lemma classList_add_removed l token tokens :
  In token tokens ->
  classList_add (classList_remove l tokens) token
  = classList_remove l tokens ++ [token].
Proof.
  intros H. unfold classList_add.
  destruct (contains (classList_remove l tokens) token) eqn:E; [|reflexivity].
  apply contains_In, classList_remove_In in E. tauto.
Qed.

(** *** Surrounding white space *)

Lemma skip_space_all s : forallb is_space s = true -> skip_space s = [].
Proof.
  induction s as [|c s IH]; [reflexivity|]. cbn [forallb skip_space].
  intros H. apply andb_true_iff in H. destruct H as [-> H]. now apply IH.
Qed.

Lemma skip_space_some s :
  forallb is_space s = false ->
  exists a c t, s = a ++ c :: t /\ forallb is_space a = true /\
                is_space c = false /\ skip_space s = c :: t.
Proof.
  induction s as [|c s IH]; [discriminate|]. cbn [forallb skip_space].
  destruct (is_space c) eqn:Ec.
  - cbn [andb]. intros H. destruct (IH H) as [a [d [t [-> [Ha [Hd Hs]]]]]].
    exists (c :: a), d, t. cbn [forallb app]. rewrite Ec, Ha. now repeat split.
  - intros _. exists [], c, s. now repeat split.
Qed.

Lemma forallb_rev {A} (f : A -> bool) l : forallb f (rev l) = forallb f l.
Proof.
  induction l as [|x l IH]; [reflexivity|]. cbn [rev forallb].
  rewrite forallb_app, IH. cbn [forallb]. rewrite andb_true_r. apply andb_comm.
Qed.

(** [trim] leaves nothing exactly of the texts made of white space. *)
Lemma trim_blank s : truthy (trim s) = negb (forallb is_space s).
Proof.
  unfold trim. destruct (forallb is_space s) eqn:E.
  - now rewrite (@skip_space_all _ E).
  - destruct (@skip_space_some _ E) as [a [c [t [-> [Ha [Hc ->]]]]]].
    assert (E' : forallb is_space (rev (c :: t)) = false).
    { rewrite forallb_rev. cbn [forallb]. now rewrite Hc. }
    destruct (@skip_space_some _ E') as [a' [c' [t' [_ [_ [_ ->]]]]]].
    cbn [rev]. destruct (rev t'); reflexivity.
Qed.

Lemma append_rows_spec testResults : forall index rows,
  append_rows index testResults rows = rows ++ rows_from index testResults.
Proof.
  induction testResults as [|t ts IH]; intros index rows; cbn [append_rows rows_from].
  - now rewrite app_nil_r.
  - rewrite IH, <- app_assoc. reflexivity.
Qed.

Lemma rows_from_length testResults : forall index,
  length (rows_from index testResults) = length testResults.
Proof.
  induction testResults as [|t ts IH]; intros index; [reflexivity|].
  cbn [rows_from length]. now rewrite IH.
Qed.

Lemma rows_from_nth testResults : forall index k test,
  nth_error testResults k = Some test ->
  nth_error (rows_from index testResults) k = Some (row_markup (index + k) test).
Proof.
  induction testResults as [|t ts IH]; intros index k test H.
  - destruct k; discriminate.
  - destruct k as [|k]; cbn [nth_error rows_from] in *.
    + injection H as ->. now rewrite Nat.add_0_r.
    + rewrite (IH (S index) k test H). f_equal. f_equal. lia.
Qed.

Lemma escape_newlines_no_lf s : existsb (N.eqb 10) (escape_newlines s) = false.
Proof.
  induction s as [|c s IH]; [reflexivity|]. cbn [escape_newlines].
  destruct (c =? 10)%N eqn:E.
  - cbn [existsb]. exact IH.
  - cbn [existsb]. rewrite N.eqb_sym, E. exact IH.
Qed.

(** *** The updates of the page *)

Lemma band_class_band score : In (band_class score) BANDS.
Proof.
  unfold band_class, BANDS.
  destruct (js_ge score (inject_Z 85)), (js_ge score (inject_Z 60)); simpl; auto.
Qed.

Lemma displayResults_page testResults score feedback page :
  displayResults testResults score feedback page
  = mkPage (codeEditor_value page) (runButton_disabled page)
      (loadingIndicator_classes page)
      (classList_remove (resultsSection_classes page) [HIDDEN])
      (if firstCompilationFailed testResults
       then match testResults with first :: _ => notes first | [] => [] end
       else MSG_RAN)
      (if firstCompilationFailed testResults then COLOR_RED else COLOR_GREEN)
      (NumberText score) feedback
      (classList_remove (scoreCircle_classes page) BANDS ++ [band_class score])
      (classList_remove (scoreFeedback_classes page) BANDS ++ [band_class score])
      (rows_from 0 testResults) (alerts page).
Proof.
  rewrite <- !(@classList_add_removed _ _ BANDS (band_class_band score)).
  unfold displayResults, band_class.
  rewrite append_rows_spec.
  destruct (firstCompilationFailed testResults),
    (js_ge score (inject_Z 85)), (js_ge score (inject_Z 60)); reflexivity.
Qed.

Lemma handleRunTests_run JSCPP_run page :
  truthy (trim (codeEditor_value page)) = true ->
  handleRunTests (Some JSCPP_run) page
  = let studentCode := trim (codeEditor_value page) in
    let testResults := run_results JSCPP_run studentCode generateTestCases in
    let score := calculateScore testResults studentCode in
    mkPage (codeEditor_value page) false
      (classList_remove (loadingIndicator_classes page) [HIDDEN] ++ [HIDDEN])
      (classList_remove (resultsSection_classes page) [HIDDEN])
      (if firstCompilationFailed testResults
       then match testResults with first :: _ => notes first | [] => [] end
       else MSG_RAN)
      (if firstCompilationFailed testResults then COLOR_RED else COLOR_GREEN)
      (NumberText score) (generateFeedback testResults score studentCode)
      (classList_remove (scoreCircle_classes page) BANDS ++ [band_class score])
      (classList_remove (scoreFeedback_classes page) BANDS ++ [band_class score])
      (rows_from 0 testResults) (alerts page).
Proof.
  intros H. unfold handleRunTests. rewrite H. cbn [negb].
  rewrite gradeRun_report. cbv zeta. cbn [results score feedbackText].
  rewrite displayResults_page.
  unfold setUIRunning, clearPreviousResults, classList_toggle.
  cbn [negb set_runButton_disabled set_loadingIndicator_classes
       set_resultsSection_classes set_compilationOutput set_rows
       codeEditor_value runButton_disabled loadingIndicator_classes
       resultsSection_classes compilationOutput_text compilationOutput_color
       scoreValue_text scoreFeedback_text scoreCircle_classes
       scoreFeedback_classes testResultsBody_rows alerts].
  rewrite (@classList_add_removed _ HIDDEN [HIDDEN] (or_introl eq_refl)).
  rewrite (@classList_remove_add _ HIDDEN [HIDDEN] (or_introl eq_refl)).
  reflexivity.
Qed.

Lemma handleRunTests_again JSCPP_run page :
  truthy (trim (codeEditor_value page)) = true ->
  handleRunTests (Some JSCPP_run) (handleRunTests (Some JSCPP_run) page)
  = handleRunTests (Some JSCPP_run) page.
Proof.
  intros H. rewrite (@handleRunTests_run _ page H). cbv zeta.
  rewrite handleRunTests_run by exact H. cbv zeta.
  cbn [codeEditor_value loadingIndicator_classes resultsSection_classes
       scoreCircle_classes scoreFeedback_classes alerts].
  rewrite !classList_remove_app, !classList_remove_idem.
  rewrite (@classList_remove_one HIDDEN [HIDDEN] (or_introl eq_refl)).
  rewrite (@classList_remove_one _ BANDS (band_class_band _)).
  rewrite !app_nil_r. reflexivity.
Qed.

(** ** The wrong-sum hint over a run *)

Lemma judged_wrong_sum c o :
  negb (passed (judged_result c o))
  && includes (notes (judged_result c o)) WRONG_SUM_PHRASE
  = match reportedSum (judged_result c o) with
    | Some s => negb (jsint_eqb s (Int (expectedSum c)))
    | None => false
    end.
Proof.
  unfold judged_result. cbn [passed notes reportedSum]. unfold compareSums.
  destruct (sum (extractSumFromOutput (stdout o))) as [s|].
  - destruct (jsint_eqb s (Int (expectedSum c))); [reflexivity|].
    cbn [negb cmp_passed cmp_notes andb].
    pose proof (wrong_note_with_phrase (string_of_Z (expectedSum c))
                  (String_of_number s) []) as H.
    rewrite app_nil_r in H. exact H.
  - cbn [negb cmp_passed cmp_notes andb]. apply no_number_without_phrase.
Qed.

Section RunHints.

Variable JSCPP_run : engine.
Variable studentCode : jsstring.

Lemma wrong_sum_noted_run testCases :
  wrong_sum_noted (run_results JSCPP_run studentCode testCases) = true <->
  (exists r s, In r (run_results JSCPP_run studentCode testCases) /\
               compilationFailed r = false /\
               reportedSum r = Some s /\ s <> expectedSum (testCase r)) \/
  (exists r, In r (run_results JSCPP_run studentCode testCases) /\
             compilationFailed r = true /\
             includes (notes r) WRONG_SUM_PHRASE = true).
Proof.
  induction testCases as [|c cs IH].
  - cbn [run_results]. split; [discriminate|].
    intros [[r [s [[] _]]]|[r [[] _]]].
  - cbn [run_results].
    destruct (compiled (outcome_of JSCPP_run studentCode c)).
    + set (o := outcome_of JSCPP_run studentCode c) in *.
      unfold wrong_sum_noted in *. cbn [existsb]. rewrite orb_true_iff, IH.
      rewrite judged_wrong_sum. split.
      * intros [H|[[r [s [Hr H]]]|[r [Hr H]]]].
        -- left. exists (judged_result c o).
           destruct (reportedSum (judged_result c o)) as [s|] eqn:E;
             [|discriminate].
           exists s. split; [now left|]. split; [reflexivity|].
           split; [reflexivity|]. apply negb_true_iff, jsint_eqb_neq in H. exact H.
        -- left. exists r, s. split; [now right | exact H].
        -- right. exists r. split; [now right | exact H].
      * intros [[r [s [[<-|Hr] [Hf [Hs Hne]]]]]|[r [[<-|Hr] [Hf Hi]]]].
        -- left. rewrite Hs. apply negb_true_iff, jsint_eqb_neq. exact Hne.
        -- right. left. now exists r, s.
        -- discriminate Hf.
        -- right. right. now exists r.
    + unfold wrong_sum_noted. cbn [existsb failed_result passed notes negb andb].
      rewrite orb_false_r. split.
      * intros H. right. eexists. split; [now left|]. now split.
      * intros [[r [s [[<-|[]] [Hf _]]]]|[r [[<-|[]] [_ Hi]]]];
          [discriminate Hf | exact Hi].
Qed.

Lemma run_results_passed testCases :
  Forall (fun r => passed r = true ->
                   reportedSum r = Some (Int (expectedSum (testCase r))))
    (run_results JSCPP_run studentCode testCases).
Proof.
  induction testCases as [|c cs IH]; [constructor|].
  cbn [run_results].
  destruct (compiled (outcome_of JSCPP_run studentCode c)).
  - constructor; [|exact IH].
    unfold judged_result. cbn [passed reportedSum testCase]. unfold compareSums.
    destruct (sum (extractSumFromOutput _)) as [s|]; [|discriminate].
    destruct (jsint_eqb s (Int (expectedSum c))) eqn:E; [|discriminate].
    apply jsint_eqb_eq in E. now subst.
  - constructor; [discriminate | constructor].
Qed.

End RunHints.

Lemma hint_sum_triggered testResults codeSource :
  In HINT_SUM (triggered_hints testResults codeSource)
  <-> wrong_sum_noted testResults = true.
Proof.
  unfold triggered_hints.
  assert (N1 : HINT_VALIDATION <> HINT_SUM) by (apply str_neq; vm_compute; reflexivity).
  assert (N2 : HINT_LOOP <> HINT_SUM) by (apply str_neq; vm_compute; reflexivity).
  assert (N3 : HINT_GUARD <> HINT_SUM) by (apply str_neq; vm_compute; reflexivity).
  revert N1 N2 N3.
  generalize HINT_SUM HINT_VALIDATION HINT_LOOP HINT_GUARD. intros h1 h2 h3 h4 N1 N2 N3.
  destruct (wrong_sum_noted testResults), (validation_failed testResults),
    (hasLoop codeSource), (hasPositiveCheck codeSource); cbn [app In];
    (split; [intros H; first [reflexivity | exfalso; tauto] | intros H; first [now left | discriminate H]]).
Qed.

Lemma Number_of_Z_small z : Z.abs z <= 2 ^ 53 -> Number_of_Z z = Int z.
Proof.
  intros H. unfold Number_of_Z. apply Z.leb_le in H. now rewrite H.
Qed.

Lemma Number_of_Z_rounds z : rounds_to z (Number_of_Z z).
Proof.
  unfold rounds_to, Number_of_Z.
  destruct (Z.abs z <=? 2 ^ 53) eqn:Hs; [reflexivity|].
  apply Z.leb_gt in Hs. cbv zeta.
  set (a := Z.abs z) in *. set (shift := Z.log2 a - 52).
  assert (Hl : 53 <= Z.log2 a).
  { apply Z.log2_le_pow2; lia. }
  assert (Hsh : 1 <= shift) by (unfold shift; lia).
  assert (Hp : 0 < 2 ^ shift) by (apply Z.pow_pos_nonneg; lia).
  assert (Hh : 2 ^ shift = 2 * 2 ^ (shift - 1)).
  { rewrite <- Z.pow_succ_r by lia. f_equal. lia. }
  pose proof (Z.div_mod a (2 ^ shift) ltac:(lia)) as Hd.
  pose proof (Z.mod_pos_bound a (2 ^ shift) Hp) as Hm.
  set (m := a / 2 ^ shift) in *. set (r := a mod 2 ^ shift) in *.
  set (half := 2 ^ (shift - 1)) in *.
  destruct ((half <? r) || ((r =? half) && Z.odd m)) eqn:Up.
  - exists (m + 1). split; [|split; [|reflexivity]].
    + apply orb_true_iff in Up. destruct Up as [Up|Up].
      * apply Z.ltb_lt in Up. lia.
      * apply andb_true_iff in Up. destruct Up as [Up _]. apply Z.eqb_eq in Up. lia.
    + intros E. apply orb_true_iff in Up. destruct Up as [Up|Up].
      * apply Z.ltb_lt in Up. lia.
      * apply andb_true_iff in Up. destruct Up as [_ Up].
        rewrite Z.even_add, <- Z.negb_odd, Up. reflexivity.
  - exists m. split; [|split; [|reflexivity]].
    + apply orb_false_iff in Up. destruct Up as [Up _]. apply Z.ltb_ge in Up. lia.
    + intros E. apply orb_false_iff in Up. destruct Up as [U1 U2].
      apply Z.ltb_ge in U1. assert (Er : r = half) by lia.
      apply Z.eqb_eq in Er. rewrite Er in U2. cbn [andb] in U2.
      now rewrite <- Z.negb_odd, U2.
Qed.

Lemma decimal_numeral_neg n :
  n < 0 -> decimal_numeral n = js "-" ++ decimal_numeral (- n).
Proof.
  intros H. destruct n as [|p|p]; try lia. reflexivity.
Qed.

(** Up to [2^53] a number is printed as the decimal numeral of its
    integer. *)
Lemma String_of_number_small z :
  Z.abs z <= 2 ^ 53 -> String_of_number (Int z) = decimal_numeral z.
Proof.
  intros H. unfold String_of_number, String_of_positive.
  destruct (Z.ltb_spec z 0) as [N|N].
  - replace (- z <=? 2 ^ 53) with true by (symmetry; apply Z.leb_le; lia).
    now rewrite (@decimal_numeral_neg z N).
  - replace (z <=? 2 ^ 53) with true by (symmetry; apply Z.leb_le; lia).
    reflexivity.
Qed.

Lemma string_of_Z_small z :
  Z.abs z <= 2 ^ 53 -> string_of_Z z = decimal_numeral z.
Proof.
  intros H. unfold string_of_Z. rewrite (@Number_of_Z_small z H).
  now apply String_of_number_small.
Qed.

(** ** Hints joined *)

Lemma join_spaced (l : list jsstring) :
  l <> [] ->
  join (js " ") l ++ js " " = concat (map (fun h => h ++ js " ") l).
Proof.
  induction l as [|x l IH]; [congruence|]. intros _.
  destruct l as [|y l].
  - cbn [join map concat]. now rewrite app_nil_r.
  - change (join (js " ") (x :: y :: l)) with (x ++ js " " ++ join (js " ") (y :: l)).
    rewrite map_cons, concat_cons, <- !app_assoc.
    do 2 f_equal. apply IH. discriminate.
Qed.

(** * The claims *)

(** C1 as stated fails: with a submission that runs the first two
    scenarios and hits the time limit on the third, the third result has
    compilationFailed = true, yet the sequence has three results, the
    score is 63 and the feedback is not the compile-failure message. *)
Lemma C1_counterexample :
  exists report : GradeReport,
    gradeRun sample_engine sample_source = Normal report /\
    (exists r, In r (results report) /\ compilationFailed r = true) /\
    length (results report) = 3%nat /\
    score report = Num (inject_Z 63) /\
    feedbackText report <> MSG_COMPILE_FAILURE.
Proof.
  eexists. split; [vm_compute; reflexivity|].
  cbn [results score feedbackText]. split; [|split; [|split]].
  - eexists. split; [right; right; left; reflexivity | reflexivity].
  - reflexivity.
  - reflexivity.
  - apply str_neq. vm_compute. reflexivity.
Qed.

(** C1, amended. For every grading run the orchestrator returns its
    results, and a result with compilationFailed = true is the last of the
    sequence; when it is the first result (the run failed on the first
    scenario) it is the only result, the score is 0 and the feedback is
    the fixed compile-failure message. *)
Theorem C1_failure_on_first_scenario (JSCPP_run : engine)
    (studentCode : jsstring) (testCases : list TestCase) :
  exists (testResults : list TestResult) (calls : list jsstring),
    runAllTests JSCPP_run studentCode testCases = Normal (testResults, calls) /\
    (testCases = generateTestCases ->
     gradeRun JSCPP_run studentCode
     = Normal (mkReport testResults
                 (calculateScore testResults studentCode)
                 (generateFeedback testResults
                    (calculateScore testResults studentCode) studentCode))) /\
    (forall before r after,
        testResults = before ++ r :: after ->
        compilationFailed r = true -> after = []) /\
    (firstCompilationFailed testResults = true ->
     length testResults = 1%nat /\
     calculateScore testResults studentCode = Num 0 /\
     generateFeedback testResults (calculateScore testResults studentCode)
       studentCode = MSG_COMPILE_FAILURE).
Proof.
  exists (run_results JSCPP_run studentCode testCases),
         (run_calls JSCPP_run studentCode testCases).
  split; [apply runAllTests_spec|]. split; [|split].
  - intros ->. unfold gradeRun. now rewrite runAllTests_spec.
  - apply run_results_failed_last.
  - intros H. split; [now apply run_results_first_failed|].
    unfold calculateScore, generateFeedback. rewrite H. auto.
Qed.

Lemma C1_failure_on_first_scenario_witness :
  exists (testResults : list TestResult),
    firstCompilationFailed testResults = true /\
    length testResults = 1%nat /\
    calculateScore testResults sample_source = Num 0.
Proof.
  destruct (C1_failure_on_first_scenario silent_engine sample_source
              generateTestCases) as [testResults [calls [E [_ [_ H]]]]].
  exists testResults.
  assert (Hf : firstCompilationFailed testResults = true).
  { rewrite runAllTests_spec in E. injection E as <- _. reflexivity. }
  destruct (H Hf) as [H1 [H2 _]]. auto.
Defined.

(** C2 as stated fails: when the interpreter throws the empty string, the
    diagnostic text of the adapter is empty and the note of the result is
    the fixed note, not the diagnostic. *)
Lemma C2_counterexample :
  exists (result : ExecResult) (r : TestResult) (calls : list jsstring),
    runCProgram silent_engine sample_source (jse "1\n2\n3\n4\n5\n")
    = Normal result /\
    compiled result = false /\
    runAllTests silent_engine sample_source generateTestCases
    = Normal ([r], calls) /\
    compilationFailed r = true /\
    notes r <> compileOutput result.
Proof.
  eexists. eexists. eexists.
  split; [vm_compute; reflexivity|]. split; [reflexivity|].
  split; [vm_compute; reflexivity|]. split; [reflexivity|].
  cbn [notes compileOutput]. discriminate.
Qed.

(** C2, amended. For every source text and scenario list the orchestrator
    takes the scenarios in order and hands each input to the adapter. At
    the first scenario for which the adapter reports a failure it appends a
    result with passed = false, no reported sum, compilationFailed = true
    and, as note, the diagnostic text of the adapter (the fixed note when
    that text is empty), and it takes no further scenario. For each
    scenario before, it appends the result built from output interpreter
    and judge, with compilationFailed = false. *)
Theorem C2_orchestrator (JSCPP_run : engine) (studentCode : jsstring)
    (done : list TestCase) (testCase : TestCase) (remaining : list TestCase) :
  (forall c, runCProgram JSCPP_run studentCode (input c)
             = Normal (outcome_of JSCPP_run studentCode c)) /\
  (Forall (fun c => compiled (outcome_of JSCPP_run studentCode c) = true) done ->
   compiled (outcome_of JSCPP_run studentCode testCase) = false ->
   runAllTests JSCPP_run studentCode (done ++ testCase :: remaining)
   = Normal
       (map (fun c => judged_result c (outcome_of JSCPP_run studentCode c)) done
        ++ [mkResult testCase false None
              (failure_note (outcome_of JSCPP_run studentCode testCase)) true],
        map input done ++ [input testCase])) /\
  (Forall (fun c => compiled (outcome_of JSCPP_run studentCode c) = true) done ->
   runAllTests JSCPP_run studentCode done
   = Normal
       (map (fun c => judged_result c (outcome_of JSCPP_run studentCode c)) done,
        map input done)) /\
  (compileOutput (outcome_of JSCPP_run studentCode testCase) <> [] ->
   failure_note (outcome_of JSCPP_run studentCode testCase)
   = compileOutput (outcome_of JSCPP_run studentCode testCase)) /\
  (compileOutput (outcome_of JSCPP_run studentCode testCase) = [] ->
   failure_note (outcome_of JSCPP_run studentCode testCase) = MSG_NOT_COMPILED) /\
  (forall c result,
      judged_result c result
      = mkResult c
          (cmp_passed (compareSums (expectedSum c)
                         (extractSumFromOutput (stdout result))))
          (sum (extractSumFromOutput (stdout result)))
          (cmp_notes (compareSums (expectedSum c)
                        (extractSumFromOutput (stdout result))))
          false).
Proof.
  split; [intros c; apply runCProgram_outcome|]. split; [|split; [|split; [|split]]].
  - intros Hd Ht. rewrite runAllTests_spec.
    destruct (@run_results_stop JSCPP_run studentCode done testCase remaining Hd Ht)
      as [-> ->]. reflexivity.
  - intros Hd. rewrite runAllTests_spec.
    destruct (@run_results_all JSCPP_run studentCode done Hd) as [-> ->].
    reflexivity.
  - unfold failure_note.
    destruct (compileOutput (outcome_of JSCPP_run studentCode testCase));
      [contradiction | reflexivity].
  - unfold failure_note. now intros ->.
  - reflexivity.
Qed.

Lemma C2_orchestrator_witness :
  exists (done : list TestResult) (failed : TestResult),
    runAllTests sample_engine sample_source generateTestCases
    = Normal (done ++ [failed], map input (firstn 3 generateTestCases)) /\
    length done = 2%nat /\
    notes failed = js "Time limit exceeded".
Proof.
  destruct (C2_orchestrator sample_engine sample_source
              (firstn 2 generateTestCases)
              (nth 2 generateTestCases (mkCase [] [] 0 0 false))
              (skipn 3 generateTestCases)) as [_ [H _]].
  assert (Hd : Forall
                 (fun c => compiled (outcome_of sample_engine sample_source c) = true)
                 (firstn 2 generateTestCases)).
  { constructor; [vm_compute; reflexivity|].
    constructor; [vm_compute; reflexivity|]. constructor. }
  assert (Ht : compiled (outcome_of sample_engine sample_source
                           (nth 2 generateTestCases (mkCase [] [] 0 0 false)))
               = false) by (vm_compute; reflexivity).
  specialize (H Hd Ht).
  change (firstn 2 generateTestCases
          ++ nth 2 generateTestCases (mkCase [] [] 0 0 false)
             :: skipn 3 generateTestCases)
    with generateTestCases in H.
  eexists. eexists. split; [exact H|].
  split; [reflexivity | vm_compute; reflexivity].
Defined.

(** C3 as stated fails: the code computes in doubles. With 158999999999999
    points passed out of 159999999999999 and a source with both
    heuristics, 80 * earned / total + 20 is below 99.5 and rounds to 99,
    while the quotient, the product and the sum, each rounded to a double,
    give 99.5 and the score 100. And with no result at all the sum of the
    points is 0: the quotient 0 / 0 is NaN, and the code takes 0 for the
    functional component without dividing. *)
Lemma C3_counterexample :
  (firstCompilationFailed tie_results = false /\
   earnedPoints tie_results = 158999999999999 /\
   totalPoints tie_results = 159999999999999 /\
   qualityScore sample_guarded_source = 20 /\
   calculateScore tie_results sample_guarded_source = Num (inject_Z 100) /\
   Qfloor
     (Qmax 0
        (Qmin (inject_Z 100)
           (inject_Z 80 * inject_Z (earnedPoints tie_results)
            / inject_Z (totalPoints tie_results)
            + inject_Z (qualityScore sample_guarded_source)))
      + (1 # 2)) = 99) /\
  (firstCompilationFailed [] = false /\
   js_div (inject_Z (earnedPoints [])) (inject_Z (totalPoints [])) = NaN /\
   functionalScore [] = Num 0).
Proof.
  split.
  - split; [reflexivity|]. repeat split; vm_compute; reflexivity.
  - repeat split; vm_compute; reflexivity.
Qed.

(** C3, amended. For every result sequence whose first result does not
    have compilationFailed = true, with points that are not negative and
    add up to at most 2^53, and every source text: the score is
    round(clamp(total, 0, 100)), the integer nearest to the clamped total
    (a tie going up), in 0..100, where total is functional + quality
    rounded to a double. When the sum of all points is positive,
    functional is the quotient of the points of the passed results by the
    points of all results, rounded to a double, times 80, rounded to a
    double, and total is at most 2^-40 away from
    80 * earned / sum + quality; when the sum is 0, functional is 0
    without a division. Quality starts at 20, loses 10 when no
    for/while/do keyword stands in the source, loses 10 when the
    positivity-guard pattern does not, and is not below 0. *)
Theorem C3_score_formula (testResults : list TestResult) (codeSource : jsstring) :
  firstCompilationFailed testResults = false ->
  Forall (fun r => 0 <= points (testCase r)) testResults ->
  totalPoints testResults <= 2 ^ 53 ->
  exists (score : Z) (functional total : Q),
    calculateScore testResults codeSource = Num (inject_Z score) /\
    functionalScore testResults = Num functional /\
    fl (functional + inject_Z (qualityScore codeSource)) = Num total /\
    (0 < totalPoints testResults ->
     (exists quotient,
         fl (inject_Z (earnedPoints testResults)
             / inject_Z (totalPoints testResults)) = Num quotient /\
         fl (quotient * inject_Z 80) = Num functional) /\
     (total - (1 # 1099511627776)
      <= inject_Z (earnedPoints testResults)
         / inject_Z (totalPoints testResults) * inject_Z 80
         + inject_Z (qualityScore codeSource))%Q /\
     (inject_Z (earnedPoints testResults)
      / inject_Z (totalPoints testResults) * inject_Z 80
      + inject_Z (qualityScore codeSource)
      <= total + (1 # 1099511627776))%Q) /\
    (totalPoints testResults <= 0 ->
     functional = 0%Q /\ (total == inject_Z (qualityScore codeSource))%Q) /\
    totalPoints testResults
      = Zsum (map (fun r => points (testCase r)) testResults) /\
    earnedPoints testResults
      = Zsum (map (fun r => points (testCase r)) (filter passed testResults)) /\
    qualityScore codeSource
      = Z.max 0 (20 - (if hasLoop codeSource then 0 else 10)
                    - (if hasPositiveCheck codeSource then 0 else 10)) /\
    (hasLoop codeSource = true <-> has_loop_keyword codeSource) /\
    (hasPositiveCheck codeSource = true <-> has_positivity_guard codeSource) /\
    (inject_Z score - (1 # 2) <= Qmax 0 (Qmin (inject_Z 100) total))%Q /\
    (Qmax 0 (Qmin (inject_Z 100) total) < inject_Z score + (1 # 2))%Q /\
    0 <= score <= 100.
Proof.
  intros Hfirst Hpoints _.
  pose proof (@earned_le_total testResults Hpoints) as He.
  destruct (@functionalScore_rounded testResults He)
    as [a [b [E [A0 [A1 [B0 [B1 [P Z0]]]]]]]].
  destruct (@total_rounded codeSource b B0 B1) as [c [Ec [C0 [C1 [C2 C3]]]]].
  eexists. exists b, c.
  split; [apply (@calculateScore_value testResults codeSource b c Hfirst E Ec)|].
  split; [exact E|]. split; [exact Ec|].
  split.
  { intros Ht. destruct (P Ht) as [Ea [Eb [X1 [X2 [Y1 Y2]]]]].
    split; [now exists a|].
    set (x := (inject_Z (earnedPoints testResults)
               / inject_Z (totalPoints testResults))%Q) in *.
    set (q := inject_Z (qualityScore codeSource)) in *.
    change (inject_Z 80) with 80%Q in *. clearbody x q.
    split; lra. }
  split.
  { intros Ht. pose proof (Z0 Ht) as ->. split; [reflexivity|].
    assert (Ez : fl (0 + inject_Z (qualityScore codeSource))
                 = Num (inject_Z (qualityScore codeSource))).
    { unfold qualityScore.
      destruct (hasLoop codeSource), (hasPositiveCheck codeSource);
        vm_compute; reflexivity. }
    rewrite Ez in Ec. injection Ec as <-. reflexivity. }
  split; [apply totalPoints_sum|].
  split; [apply earnedPoints_sum|].
  split; [apply qualityScore_cases|].
  split; [apply hasLoop_iff|].
  split; [apply hasPositiveCheck_iff|].
  split; [apply round_nearest|].
  split; [apply round_nearest|].
  apply clamped_round_range.
Qed.

Lemma C3_score_formula_witness :
  firstCompilationFailed sample_results = false /\
  Forall (fun r => 0 <= points (testCase r)) sample_results /\
  totalPoints sample_results <= 2 ^ 53 /\
  calculateScore sample_results sample_source = Num (inject_Z 50) /\
  exists functional total : Q,
    functionalScore sample_results = Num functional /\
    fl (functional + inject_Z (qualityScore sample_source)) = Num total /\
    (Qmax 0 (Qmin (inject_Z 100) total) < inject_Z 50 + (1 # 2))%Q.
Proof.
  assert (Hp : Forall (fun r => 0 <= points (testCase r)) sample_results).
  { unfold sample_results. constructor; [cbn; lia|].
    constructor; [cbn; lia | constructor]. }
  assert (Ht : totalPoints sample_results <= 2 ^ 53) by (vm_compute; discriminate).
  split; [reflexivity|]. split; [exact Hp|]. split; [exact Ht|].
  destruct (@C3_score_formula sample_results sample_source eq_refl Hp Ht)
    as [score [functional [total [E [Ef [Et H]]]]]].
  assert (Es : score = 50).
  { assert (E50 : calculateScore sample_results sample_source = Num (inject_Z 50))
      by (vm_compute; reflexivity).
    rewrite E50 in E. injection E as E. symmetry. exact E. }
  subst score. split; [exact E|].
  exists functional, total. split; [exact Ef|]. split; [exact Et|].
  do 7 (destruct H as [_ H]). exact (proj1 (proj2 H)).
Defined.

(** C4 as stated fails: a number is a double. On the text
    "sum = 9007199254740993" the reported sum is 9007199254740992, which is
    not the integer the digits denote. *)
Lemma C4_counterexample :
  number_value (js "9007199254740993") = 9007199254740993 /\
  extractSumFromOutput (js "sum = 9007199254740993")
  = mkParse (Some (Int 9007199254740992)) [Int 9007199254740992].
Proof. split; vm_compute; reflexivity. Qed.

(** C4, amended. For every stdout text the output interpreter collects the
    maximal pieces of the text made of an optional minus sign and one or
    more decimal digits, in their order of occurrence, takes for each the
    Number value of the base-10 integer it denotes (the integer itself up
    to 2^53 in magnitude, the nearest double beyond, an infinity from
    2^1024 on), and reports the last of these numbers as the sum (no sum
    when there is no such piece). On the text "a=3\nb=7\nsum = 10\n" the
    numbers are 3, 7, 10 and the sum is 10; on the text
    "1152921504606846977 -18014398509481987" the numbers are 2^60 and
    -18014398509481988. *)
Theorem C4_output_interpreter :
  (forall stdout : jsstring,
      exists occs : list occurrence,
        (forall u t v, In (u, t, v) occs <-> maximal_number_at stdout u t v) /\
        StronglySorted occ_precedes occs /\
        Forall2 (fun o x => rounds_to (number_value (occ_text o)) x)
          occs (allNumbers (extractSumFromOutput stdout)) /\
        (Forall (fun o => Z.abs (number_value (occ_text o)) <= 2 ^ 53) occs ->
         allNumbers (extractSumFromOutput stdout)
         = map (fun o => Int (number_value (occ_text o))) occs) /\
        sum (extractSumFromOutput stdout)
          = last_number (allNumbers (extractSumFromOutput stdout))) /\
  extractSumFromOutput (jse "a=3\nb=7\nsum = 10\n")
  = mkParse (Some (Int 10)) [Int 3; Int 7; Int 10] /\
  extractSumFromOutput (js "1152921504606846977 -18014398509481987")
  = mkParse (Some (Int (-18014398509481988)))
      [Int 1152921504606846976; Int (-18014398509481988)].
Proof.
  split; [|split; vm_compute; reflexivity].
  intros stdout. destruct (extractSumFromOutput_scan stdout) as [occs [Hin [Hs E]]].
  exists occs. cbv zeta in E. rewrite E. cbn [allNumbers sum].
  split.
  { intros u t v. rewrite Hin. split.
    - apply bounded_maximal.
    - apply maximal_bounded. }
  split; [exact Hs|]. split; [|split; [|reflexivity]].
  - clear. induction occs as [|o occs IH]; [constructor|].
    cbn [map]. constructor; [apply Number_of_Z_rounds | exact IH].
  - intros F. apply map_ext_in. intros o Ho.
    apply Number_of_Z_small. rewrite Forall_forall in F. now apply F.
Qed.

Lemma C4_output_interpreter_witness :
  exists occs : list occurrence,
    (forall u t v,
        In (u, t, v) occs <-> maximal_number_at (jse "a=3\nb=-7\n") u t v) /\
    Forall2 (fun o x => rounds_to (number_value (occ_text o)) x)
      occs [Int 3; Int (-7)].
Proof.
  destruct C4_output_interpreter as [H _].
  destruct (H (jse "a=3\nb=-7\n")) as [occs [Hin [_ [F _]]]].
  exists occs. split; [exact Hin|].
  replace (allNumbers (extractSumFromOutput (jse "a=3\nb=-7\n")))
    with [Int 3; Int (-7)] in F by (vm_compute; reflexivity).
  exact F.
Defined.

(** C5. For every expected sum and parsed output: with no reported sum the
    judge fails the test with the note that asks for a final numeric sum;
    with a reported sum that differs from the expected one it fails the
    test with a note that contains both values as the language prints
    them: up to 2^53 in magnitude the decimal numeral of the integer, text
    that is a number and denotes it; the test passes exactly when the
    reported sum is present and equal, as a number, to the expected sum.
    compare(15, sum 14) fails and its note contains "15" and "14"; a sum of
    10^21 is printed as 1e+21. *)
Theorem C5_judge (expectedSum : Z) (parseResult : ParseResult) :
  (sum parseResult = None ->
   compareSums expectedSum parseResult = mkComparison false MSG_NO_NUMBER) /\
  (forall s, sum parseResult = Some s -> s <> Int expectedSum ->
     cmp_passed (compareSums expectedSum parseResult) = false /\
     exists printedExpected printedSum,
       cmp_notes (compareSums expectedSum parseResult)
       = MSG_WRONG_1 ++ printedExpected ++ MSG_WRONG_2 ++ printedSum
           ++ MSG_WRONG_3 /\
       includes (cmp_notes (compareSums expectedSum parseResult))
         printedExpected = true /\
       includes (cmp_notes (compareSums expectedSum parseResult))
         printedSum = true /\
       printedExpected = String_of_number (Number_of_Z expectedSum) /\
       printedSum = String_of_number s /\
       (Z.abs expectedSum <= 2 ^ 53 ->
        is_number_text printedExpected = true /\
        number_value printedExpected = expectedSum) /\
       (forall z, s = Int z -> Z.abs z <= 2 ^ 53 ->
        is_number_text printedSum = true /\ number_value printedSum = z)) /\
  (cmp_passed (compareSums expectedSum parseResult) = true
   <-> sum parseResult = Some (Int expectedSum)) /\
  compareSums 15 (mkParse (Some (Int 14)) [Int 14])
  = mkComparison false
      (MSG_WRONG_1 ++ js "15" ++ MSG_WRONG_2 ++ js "14" ++ MSG_WRONG_3) /\
  includes (cmp_notes (compareSums 15 (mkParse (Some (Int 14)) [Int 14])))
    (js "15") = true /\
  includes (cmp_notes (compareSums 15 (mkParse (Some (Int 14)) [Int 14])))
    (js "14") = true /\
  compareSums 15 (mkParse (Some (Int (10 ^ 21))) [Int (10 ^ 21)])
  = mkComparison false
      (MSG_WRONG_1 ++ js "15" ++ MSG_WRONG_2 ++ js "1e+21" ++ MSG_WRONG_3) /\
  cmp_notes (compareSums 15 (mkParse (Some PosInfinity) [PosInfinity]))
  = MSG_WRONG_1 ++ js "15" ++ MSG_WRONG_2 ++ js "Infinity" ++ MSG_WRONG_3.
Proof.
  unfold compareSums. split; [|split; [|split]].
  - now intros ->.
  - intros s -> Hne. apply jsint_eqb_neq in Hne. rewrite Hne.
    cbn [negb cmp_passed cmp_notes].
    split; [reflexivity|].
    exists (string_of_Z expectedSum), (String_of_number s).
    split; [reflexivity|]. split; [apply includes_middle|].
    split.
    { rewrite !app_assoc. rewrite <- (app_assoc _ (String_of_number s)).
      apply includes_middle. }
    split; [reflexivity|]. split; [reflexivity|]. split.
    + intros H. rewrite (@string_of_Z_small _ H). apply decimal_numeral_number.
    + intros z -> H. rewrite (@String_of_number_small _ H).
      apply decimal_numeral_number.
  - destruct (sum parseResult) as [s|]; [|split; discriminate].
    destruct (jsint_eqb s (Int expectedSum)) eqn:E; cbn [negb cmp_passed].
    + apply jsint_eqb_eq in E. subst. tauto.
    + apply jsint_eqb_neq in E. split; [discriminate|]. intros H. congruence.
  - repeat split; vm_compute; reflexivity.
Qed.

Lemma C5_judge_witness :
  sum (mkParse (Some (Int 150)) [Int 10; Int 150]) = Some (Int 150) /\
  cmp_passed (compareSums 150 (mkParse (Some (Int 150)) [Int 10; Int 150])) = true.
Proof.
  split; [reflexivity|].
  destruct (C5_judge 150 (mkParse (Some (Int 150)) [Int 10; Int 150]))
    as [_ [_ [H _]]].
  apply H. reflexivity.
Defined.

(** C6. For every source text and stdin script the execution adapter
    settles with a value: its promise resolves and never rejects. The
    value holds everything written to standard output, in order, up to the
    end of the run or its failure. When the interpreter returns, the value
    has compiled = true and a diagnostic that states the exit code, as the
    language prints it: up to 2^53 in magnitude its decimal numeral, text
    that is a number and denotes the exit code; when the interpreter
    throws, it has compiled = false and the message of what was thrown as
    diagnostic. With exit code 0 the diagnostic is
    "Compilation/execution successful (exit code 0)". *)
Theorem C6_execution_adapter (JSCPP_run : engine) (cSource input : jsstring) :
  (exists outcome : ExecResult,
    runCProgram JSCPP_run cSource input = Normal outcome /\
    stdout outcome = concat (writes (JSCPP_run cSource input)) /\
    match completes (JSCPP_run cSource input) with
    | Normal exitCode =>
        compiled outcome = true /\
        exists printed,
          compileOutput outcome
          = js "Compilation/execution successful (exit code "
              ++ printed ++ js ")" /\
          printed = String_of_number (Number_of_Z exitCode) /\
          (Z.abs exitCode <= 2 ^ 53 ->
           is_number_text printed = true /\ number_value printed = exitCode)
    | Abrupt error =>
        compiled outcome = false /\
        compileOutput outcome = failure_message error
    end) /\
  (completes (JSCPP_run cSource input) = Normal 0 ->
   exists outcome : ExecResult,
     runCProgram JSCPP_run cSource input = Normal outcome /\
     compileOutput outcome
     = js "Compilation/execution successful (exit code 0)") /\
  (completes (JSCPP_run cSource input) = Normal (- 42) ->
   exists outcome : ExecResult,
     runCProgram JSCPP_run cSource input = Normal outcome /\
     compileOutput outcome
     = js "Compilation/execution successful (exit code -42)").
Proof.
  unfold runCProgram. rewrite fold_left_app_concat. cbn [app].
  split; [|split].
  - destruct (completes (JSCPP_run cSource input)) as [exitCode|error].
    + eexists. split; [reflexivity|]. cbn [stdout compiled compileOutput].
      split; [reflexivity|]. split; [reflexivity|].
      exists (string_of_Z exitCode). split; [reflexivity|].
      split; [reflexivity|].
      intros H. rewrite (@string_of_Z_small _ H). apply decimal_numeral_number.
    + eexists. split; [reflexivity|]. cbn [stdout compiled compileOutput].
      split; [reflexivity|]. split; [reflexivity|].
      destruct error as [name message|s]; cbn [message_of String_of failure_message].
      * destruct message as [|c message]; cbn [truthy negb]; [|reflexivity].
        destruct name; reflexivity.
      * reflexivity.
  - intros ->. eexists. split; [reflexivity|]. cbn [compileOutput].
    vm_compute. reflexivity.
  - intros ->. eexists. split; [reflexivity|]. cbn [compileOutput].
    vm_compute. reflexivity.
Qed.

Lemma C6_execution_adapter_witness :
  completes (reference_engine sample_guarded_source (jse "1\n2\n3\n4\n5\n"))
  = Normal 0 /\
  exists outcome : ExecResult,
    runCProgram reference_engine sample_guarded_source (jse "1\n2\n3\n4\n5\n")
    = Normal outcome /\
    compileOutput outcome = js "Compilation/execution successful (exit code 0)".
Proof.
  assert (H : completes (reference_engine sample_guarded_source
                           (jse "1\n2\n3\n4\n5\n")) = Normal 0)
    by (vm_compute; reflexivity).
  split; [exact H|].
  exact (proj1 (proj2 (C6_execution_adapter reference_engine
                         sample_guarded_source (jse "1\n2\n3\n4\n5\n"))) H).
Defined.

(** C7. For every result sequence, score and source text the feedback
    is: the fixed compile-failure message when the first result has
    compilationFailed = true; otherwise the fixed congratulation when the
    score is 100; otherwise the hints that are triggered, one space
    between a hint and the next (the feedback followed by a space is the
    hints in a row, each followed by a space), each checked on its own and
    in this order: a failed result whose
    note holds the wrong-sum phrase, a failed validation scenario, no loop
    keyword, no positivity-guard pattern; and, when no hint is triggered,
    the message of the band of the score (80 and above, 60 and above,
    anything else). *)
Theorem C7_feedback (testResults : list TestResult) (score : number)
    (codeSource : jsstring) :
  (firstCompilationFailed testResults = true ->
   generateFeedback testResults score codeSource = MSG_COMPILE_FAILURE) /\
  (firstCompilationFailed testResults = false -> score_is score 100 ->
   generateFeedback testResults score codeSource = MSG_EXCELLENT) /\
  (firstCompilationFailed testResults = false -> ~ score_is score 100 ->
   triggered_hints testResults codeSource <> [] ->
   generateFeedback testResults score codeSource ++ js " "
   = concat (map (fun hint => hint ++ js " ")
               (triggered_hints testResults codeSource))) /\
  (firstCompilationFailed testResults = false -> ~ score_is score 100 ->
   triggered_hints testResults codeSource = [] ->
   generateFeedback testResults score codeSource = banded_message score) /\
  (score_at_least score 80 -> banded_message score = MSG_GOOD) /\
  (score_at_least score 60 -> ~ score_at_least score 80 ->
   banded_message score = MSG_PROGRESS) /\
  (~ score_at_least score 60 -> banded_message score = MSG_NEEDS_WORK) /\
  triggered_hints testResults codeSource
  = (if wrong_sum_noted testResults then [HINT_SUM] else [])
    ++ (if validation_failed testResults then [HINT_VALIDATION] else [])
    ++ (if hasLoop codeSource then [] else [HINT_LOOP])
    ++ (if hasPositiveCheck codeSource then [] else [HINT_GUARD]) /\
  (wrong_sum_noted testResults = true <->
   exists t, In t testResults /\ passed t = false /\
             exists a b, notes t = a ++ WRONG_SUM_PHRASE ++ b) /\
  (validation_failed testResults = true <->
   exists t, In t testResults /\ isValidationTest (testCase t) = true /\
             passed t = false).
Proof.
  assert (Hne : ~ score_is score 100 -> js_eq score (inject_Z 100) = false).
  { intros H. destruct (js_eq score (inject_Z 100)) eqn:E; [|reflexivity].
    now apply js_eq_iff in E. }
  assert (Hge : forall z, ~ score_at_least score z ->
                          js_ge score (inject_Z z) = false).
  { intros z H. destruct (js_ge score (inject_Z z)) eqn:E; [|reflexivity].
    now apply js_ge_iff in E. }
  split; [|split; [|split; [|split]]].
  - intros H. unfold generateFeedback. now rewrite H.
  - intros H Hs. apply js_eq_iff in Hs. unfold generateFeedback.
    now rewrite H, Hs.
  - intros Hf Hs Hh. rewrite generateFeedback_hints by auto.
    rewrite <- (@join_spaced _ Hh).
    destruct (triggered_hints testResults codeSource); [contradiction | reflexivity].
  - intros Hf Hs He. rewrite generateFeedback_hints by auto.
    now rewrite He.
  - unfold banded_message.
    split; [|split; [|split; [|split; [|split]]]].
    + intros H. apply js_ge_iff in H. now rewrite H.
    + intros H6 H8. apply js_ge_iff in H6. now rewrite (Hge _ H8), H6.
    + intros H6.
      assert (H8 : ~ score_at_least score 80).
      { intros H. apply H6. destruct H as [->|[q [-> H]]]; [now left|].
        right. exists q. split; [reflexivity|].
        eapply Qle_trans; [|exact H]. discriminate. }
      now rewrite (Hge _ H8), (Hge _ H6).
    + reflexivity.
    + apply wrong_sum_noted_iff.
    + apply validation_failed_iff.
Qed.

Lemma C7_feedback_witness :
  firstCompilationFailed sample_results = false /\
  ~ score_is (Num (inject_Z 50)) 100 /\
  triggered_hints sample_results sample_source <> [] /\
  generateFeedback sample_results (Num (inject_Z 50)) sample_source
  = HINT_SUM ++ js " " ++ HINT_VALIDATION ++ js " " ++ HINT_GUARD.
Proof.
  assert (H1 : firstCompilationFailed sample_results = false) by reflexivity.
  assert (H2 : ~ score_is (Num (inject_Z 50)) 100).
  { intros [q [[= <-] H]]. discriminate. }
  assert (H3 : triggered_hints sample_results sample_source
               = [HINT_SUM; HINT_VALIDATION; HINT_GUARD])
    by (vm_compute; reflexivity).
  assert (H4 : triggered_hints sample_results sample_source <> [])
    by (rewrite H3; discriminate).
  split; [exact H1|]. split; [exact H2|]. split; [exact H4|].
  destruct (C7_feedback sample_results (Num (inject_Z 50)) sample_source)
    as [_ [_ [H _]]].
  specialize (H H1 H2 H4). rewrite H3 in H. clear H3 H4.
  apply (app_inv_tail (js " ")). rewrite H.
  generalize HINT_SUM HINT_VALIDATION HINT_GUARD (js " "). intros a b c sp.
  cbn [map concat]. now rewrite <- !app_assoc, app_nil_r.
Defined.

(** C8 as stated fails: a source with a loop and the conditional test
    [if (n < 0)], which compares a value against 0 with [<], loses the 10
    points and gets the hint. *)
Lemma C8_counterexample :
  has_wide_guard negative_test_source /\
  hasLoop negative_test_source = true /\
  hasPositiveCheck negative_test_source = false /\
  qualityScore negative_test_source = 10 /\
  In HINT_GUARD (triggered_hints [] negative_test_source).
Proof.
  split; [|split; [|split; [|split]]]; try (vm_compute; reflexivity).
  - exists (js "int main() { int n; while (1) { scanf(&n); "), (js " "),
      (js "n "), (js "<"), (js " "), (js "0"), (js ") break; } }").
    split; [vm_compute; reflexivity|].
    split; [vm_compute; reflexivity|].
    split; [vm_compute; reflexivity|].
    split; [vm_compute; reflexivity|].
    split; [|vm_compute; reflexivity].
    unfold wide_comparisons. cbn [In]. auto.
  - apply hint_guard_triggered. vm_compute. reflexivity.
Qed.

(** C8, amended. For every source text the 10-point deduction for missing
    positivity validation and the matching hint are applied exactly when
    the source has no [if], white space, opening parenthesis, text free of
    closing parentheses, and then one of the comparisons [<= 0], [< 1],
    [> 0] (white space allowed between operator and digit); a source that
    has such a test loses nothing for it. *)
Theorem C8_guard_deduction (codeSource : jsstring) (testResults : list TestResult)
    (score : number) :
  (hasPositiveCheck codeSource = true <-> has_positivity_guard codeSource) /\
  (has_positivity_guard codeSource ->
   qualityScore codeSource = 20 - (if hasLoop codeSource then 0 else 10)) /\
  (~ has_positivity_guard codeSource ->
   qualityScore codeSource = 20 - (if hasLoop codeSource then 0 else 10) - 10) /\
  (In HINT_GUARD (triggered_hints testResults codeSource)
   <-> ~ has_positivity_guard codeSource) /\
  (~ has_positivity_guard codeSource ->
   firstCompilationFailed testResults = false -> ~ score_is score 100 ->
   exists a b,
     generateFeedback testResults score codeSource = a ++ HINT_GUARD ++ b).
Proof.
  pose proof (hasPositiveCheck_iff codeSource) as Hiff.
  assert (Hneg : hasPositiveCheck codeSource = false
                 <-> ~ has_positivity_guard codeSource).
  { rewrite <- Hiff. destruct (hasPositiveCheck codeSource); split;
      congruence. }
  split; [exact Hiff|]. split; [|split; [|split]].
  - intros H. apply Hiff in H. rewrite qualityScore_cases, H.
    destruct (hasLoop codeSource); reflexivity.
  - intros H. apply Hneg in H. rewrite qualityScore_cases, H.
    destruct (hasLoop codeSource); reflexivity.
  - rewrite hint_guard_triggered. exact Hneg.
  - intros H Hf Hs.
    assert (Hs' : js_eq score (inject_Z 100) = false).
    { destruct (js_eq score (inject_Z 100)) eqn:E; [|reflexivity].
      now apply js_eq_iff in E. }
    rewrite generateFeedback_hints by assumption.
    assert (Hin : In HINT_GUARD (triggered_hints testResults codeSource)).
    { apply hint_guard_triggered. now apply Hneg. }
    destruct (triggered_hints testResults codeSource) eqn:E; [contradiction|].
    rewrite <- E in *. now apply join_contains.
Qed.

Lemma C8_guard_deduction_witness :
  has_positivity_guard sample_guarded_source /\
  qualityScore sample_guarded_source = 20.
Proof.
  assert (H : has_positivity_guard sample_guarded_source).
  { apply hasPositiveCheck_iff. vm_compute. reflexivity. }
  split; [exact H|].
  destruct (C8_guard_deduction sample_guarded_source [] (Num 0)) as [_ [Hq _]].
  rewrite (Hq H). reflexivity.
Defined.

(** C9. For every input string the result of the output interpreter has an
    absent sum exactly when its list of numbers is empty, and a sum that is
    present is the last element of the list; a string without digits (the
    empty string among them) yields an absent sum and an empty list. *)
Theorem C9_parse_result_invariant (stdout : jsstring) :
  (sum (extractSumFromOutput stdout) = None
   <-> allNumbers (extractSumFromOutput stdout) = []) /\
  (forall n, sum (extractSumFromOutput stdout) = Some n
             -> last_number (allNumbers (extractSumFromOutput stdout)) = Some n) /\
  (forallb (fun c => negb (is_digit c)) stdout = true
   -> extractSumFromOutput stdout = mkParse None []).
Proof.
  destruct (extractSumFromOutput_scan stdout) as [occs [Hin [_ E]]].
  cbv zeta in E. rewrite E. cbn [allNumbers sum].
  set (numbers := map (fun o => Number_of_Z (number_value (occ_text o))) occs).
  split; [|split].
  - destruct numbers as [|x l] using rev_ind; [tauto|].
    split; [|intros H; now destruct l].
    intros H. exfalso. clear IHl. induction l as [|y l IH]; [discriminate|].
    destruct l; [discriminate | now apply IH].
  - auto.
  - intros Hnd. destruct occs as [|[[u t] v] occs]; [reflexivity|]. exfalso.
    destruct (proj1 (Hin u t v) (or_introl eq_refl)) as [[Es Ht] _].
    destruct (number_text_has_digit _ Ht) as [x [d [y [-> Hd]]]].
    rewrite Es, !forallb_app in Hnd. cbn [forallb] in Hnd.
    rewrite Hd in Hnd. cbn [negb andb] in Hnd.
    now rewrite !andb_false_r in Hnd.
Qed.

Lemma C9_parse_result_invariant_witness :
  forallb (fun c => negb (is_digit c)) (js "no sum here") = true /\
  extractSumFromOutput (js "no sum here") = mkParse None [].
Proof.
  split; [reflexivity|].
  apply (C9_parse_result_invariant (js "no sum here")). reflexivity.
Defined.

(** C10. For the empty result sequence the scorer is defined: the sum of
    all points is 0, the guard on it makes the functional component 0
    without dividing (the quotient of the two empty sums would be NaN), and
    the score is the quality component alone, an integer between 0 and
    20, not NaN. *)
Theorem C10_empty_results (codeSource : jsstring) :
  firstCompilationFailed [] = false /\
  totalPoints [] = 0 /\
  js_div (inject_Z (earnedPoints [])) (inject_Z (totalPoints [])) = NaN /\
  functionalScore [] = Num 0 /\
  calculateScore [] codeSource = Num (inject_Z (qualityScore codeSource)) /\
  0 <= qualityScore codeSource <= 20 /\
  In (qualityScore codeSource) [0; 10; 20].
Proof.
  split; [reflexivity|]. split; [reflexivity|]. split; [reflexivity|].
  split; [reflexivity|].
  split; [|split; [apply qualityScore_range|]].
  - unfold calculateScore, qualityScore. cbn [firstCompilationFailed].
    destruct (hasLoop codeSource), (hasPositiveCheck codeSource);
      vm_compute; reflexivity.
  - unfold qualityScore.
    destruct (hasLoop codeSource), (hasPositiveCheck codeSource); simpl; auto.
Qed.


(** * Further properties of the pipeline *)

(** X1. The output interpreter works piece by piece: when a text is cut
    at a place no number reaches across (the second part does not start
    with a digit, or the first does not end with a digit or a minus sign),
    its numbers are those of the first part followed by those of the
    second, and its sum is the sum of the second part when that has one
    and the sum of the first part otherwise. *)
Theorem extractSumFromOutput_app (a b : jsstring) :
  cut_ok a b ->
  allNumbers (extractSumFromOutput (a ++ b))
  = allNumbers (extractSumFromOutput a) ++ allNumbers (extractSumFromOutput b) /\
  sum (extractSumFromOutput (a ++ b))
  = match sum (extractSumFromOutput b) with
    | Some n => Some n
    | None => sum (extractSumFromOutput a)
    end.
Proof.
  intros Hcut. rewrite !extractSumFromOutput_texts. cbn [allNumbers sum].
  rewrite (numbers_in_app Hcut), map_app. split; [reflexivity|].
  apply last_number_app.
Qed.

Lemma extractSumFromOutput_app_witness :
  cut_ok (jse "a=3\nb=-7\n") (js "sum = 10") /\
  allNumbers (extractSumFromOutput (jse "a=3\nb=-7\n" ++ js "sum = 10"))
  = allNumbers (extractSumFromOutput (jse "a=3\nb=-7\n"))
    ++ allNumbers (extractSumFromOutput (js "sum = 10")).
Proof.
  assert (H : cut_ok (jse "a=3\nb=-7\n") (js "sum = 10"))
    by (intros _; vm_compute; reflexivity).
  split; [exact H|].
  exact (proj1 (extractSumFromOutput_app H)).
Defined.

(** X2. A run that prints its sum last is read as meant: for every
    integer n of magnitude at most 2^53 (the integers a number holds and
    prints exactly), every text before it that does not end with a digit
    or a minus sign and every text after it without a digit, the sum read
    from the output is n, the numbers read are those of the text before
    followed by n, and the judge passes the output exactly when n is the
    expected sum; the text printed for n is a number that denotes n. *)
Theorem printed_sum_is_reported (before after : jsstring) (n expectedSum : Z) :
  Z.abs n <= 2 ^ 53 ->
  ends_digit_or_minus before = false ->
  forallb (fun c => negb (is_digit c)) after = true ->
  let parseResult := extractSumFromOutput (before ++ string_of_Z n ++ after) in
  sum parseResult = Some (Int n) /\
  allNumbers parseResult = allNumbers (extractSumFromOutput before) ++ [Int n] /\
  cmp_passed (compareSums expectedSum parseResult) = (n =? expectedSum) /\
  is_number_text (string_of_Z n) = true /\
  number_value (string_of_Z n) = n.
Proof.
  intros Hn53 Hb Ha. cbv zeta.
  rewrite (@string_of_Z_small n Hn53).
  destruct (decimal_numeral_number n) as [Ht Hv].
  cut (sum (extractSumFromOutput (before ++ decimal_numeral n ++ after))
       = Some (Int n) /\
       allNumbers (extractSumFromOutput (before ++ decimal_numeral n ++ after))
       = allNumbers (extractSumFromOutput before) ++ [Int n] /\
       cmp_passed
         (compareSums expectedSum
            (extractSumFromOutput (before ++ decimal_numeral n ++ after)))
       = (n =? expectedSum)); [tauto|].
  assert (Hs : starts_digit after = false).
  { destruct after as [|c s]; [reflexivity|]. cbn [forallb] in Ha.
    apply andb_true_iff in Ha. destruct Ha as [Ha _].
    now apply negb_true_iff in Ha. }
  assert (Hn : numbers_in (before ++ decimal_numeral n ++ after)
               = numbers_in before ++ [decimal_numeral n]).
  { rewrite numbers_in_app by (intros _; exact Hb).
    rewrite (@numbers_in_number _ _ Ht Hs), (@numbers_in_none _ Ha). reflexivity. }
  assert (Hsum : sum (extractSumFromOutput (before ++ decimal_numeral n ++ after))
                 = Some (Int n)).
  { rewrite extractSumFromOutput_texts. cbn [sum].
    rewrite Hn, map_app, last_number_app. cbn [map last_number].
    now rewrite Hv, (@Number_of_Z_small n Hn53). }
  split; [exact Hsum|]. split.
  - rewrite !extractSumFromOutput_texts. cbn [allNumbers].
    rewrite Hn, map_app. cbn [map]. now rewrite Hv, (@Number_of_Z_small n Hn53).
  - unfold compareSums. rewrite Hsum. cbn [jsint_eqb].
    destruct (n =? expectedSum); reflexivity.
Qed.

Lemma printed_sum_is_reported_witness :
  Z.abs 39 <= 2 ^ 53 /\
  ends_digit_or_minus (jse "Enter 5 numbers:\nsum = ") = false /\
  forallb (fun c => negb (is_digit c)) (jse "\n") = true /\
  sum (extractSumFromOutput
         (jse "Enter 5 numbers:\nsum = " ++ js "39" ++ jse "\n"))
  = Some (Int 39).
Proof.
  assert (H0 : Z.abs 39 <= 2 ^ 53) by (vm_compute; discriminate).
  assert (H1 : ends_digit_or_minus (jse "Enter 5 numbers:\nsum = ") = false)
    by (vm_compute; reflexivity).
  assert (H2 : forallb (fun c => negb (is_digit c)) (jse "\n") = true)
    by (vm_compute; reflexivity).
  split; [exact H0|]. split; [exact H1|]. split; [exact H2|].
  exact (proj1 (@printed_sum_is_reported _ _ 39 39 H0 H1 H2)).
Defined.

(** X3. The wrong-sum hint is deduced from the text of the notes. Over the
    results of a run it is triggered exactly when some scenario that ran
    reported a number that differs from its expected sum, or when the run
    that failed left a diagnostic that contains the wrong-sum phrase: a
    scenario without any number in its output does not trigger it, and a
    message of the interpreter can. *)
Theorem wrong_sum_hint_coupling (JSCPP_run : engine) (studentCode : jsstring)
    (testCases : list TestCase) :
  exists (testResults : list TestResult) (calls : list jsstring),
    runAllTests JSCPP_run studentCode testCases = Normal (testResults, calls) /\
    (In HINT_SUM (triggered_hints testResults studentCode) <->
     (exists r s, In r testResults /\ compilationFailed r = false /\
                  reportedSum r = Some s /\ s <> Int (expectedSum (testCase r))) \/
     (exists r, In r testResults /\ compilationFailed r = true /\
                includes (notes r) WRONG_SUM_PHRASE = true)).
Proof.
  exists (run_results JSCPP_run studentCode testCases),
    (run_calls JSCPP_run studentCode testCases).
  split; [apply runAllTests_spec|].
  rewrite hint_sum_triggered. apply wrong_sum_noted_run.
Qed.

(** X4. The results of the orchestrator stand for a prefix of the
    scenarios, in their order, and the interpreter was called once per
    result, with the input of its scenario. When no result has
    compilationFailed = true every scenario has its result. A result with
    compilationFailed = true is not passed and reports no sum; a passed
    result reports the expected sum of its scenario. *)
Theorem runAllTests_prefix (JSCPP_run : engine) (studentCode : jsstring)
    (testCases : list TestCase) :
  exists (testResults : list TestResult) (calls : list jsstring),
    runAllTests JSCPP_run studentCode testCases = Normal (testResults, calls) /\
    map testCase testResults = firstn (length testResults) testCases /\
    calls = map (fun r => input (testCase r)) testResults /\
    (Forall (fun r => compilationFailed r = false) testResults ->
     length testResults = length testCases) /\
    Forall (fun r => compilationFailed r = true ->
                     passed r = false /\ reportedSum r = None) testResults /\
    Forall (fun r => passed r = true ->
                     reportedSum r = Some (Int (expectedSum (testCase r)))) testResults.
Proof.
  exists (run_results JSCPP_run studentCode testCases),
    (run_calls JSCPP_run studentCode testCases).
  split; [apply runAllTests_spec|].
  destruct (run_results_prefix JSCPP_run studentCode testCases) as [H1 H2].
  split; [exact H1|]. split; [exact H2|].
  split; [apply run_results_complete|].
  split; [apply run_results_failed_not_passed | apply run_results_passed].
Qed.

(** X5. A submission that answers every scenario gets the full functional
    share. When, for each scenario of the catalog, the interpreter returns
    and the last number of what it wrote is the expected sum, the run has
    the four results, all passed, each with the expected sum and the note
    of success; the score is 80 plus the quality score; the feedback is
    the congratulation when both heuristics hold, the hint for the guard
    when only the guard is missing, the hint for the loop when only the
    loop is missing, and the hint for the loop, one space and the hint for
    the guard when both are missing. *)
Theorem correct_submission_report (JSCPP_run : engine) (studentCode : jsstring) :
  (forall c, In c generateTestCases ->
     (exists exitCode,
         completes (JSCPP_run studentCode (input c)) = Normal exitCode) /\
     sum (extractSumFromOutput (concat (writes (JSCPP_run studentCode (input c)))))
     = Some (Int (expectedSum c))) ->
  gradeRun JSCPP_run studentCode
  = Normal
      (mkReport
         (map (fun c => mkResult c true (Some (Int (expectedSum c))) MSG_PASSED false)
            generateTestCases)
         (Num (inject_Z (80 + qualityScore studentCode)))
         (if hasLoop studentCode
          then if hasPositiveCheck studentCode then MSG_EXCELLENT else HINT_GUARD
          else if hasPositiveCheck studentCode then HINT_LOOP
               else HINT_LOOP ++ js " " ++ HINT_GUARD)) /\
  qualityScore studentCode
  = (if hasLoop studentCode then 10 else 0)
    + (if hasPositiveCheck studentCode then 10 else 0).
Proof.
  intros H. split.
  2: { unfold qualityScore.
       destruct (hasLoop studentCode), (hasPositiveCheck studentCode); reflexivity. }
  rewrite gradeRun_report. cbv zeta.
  assert (Hc : Forall (fun c => compiled (outcome_of JSCPP_run studentCode c) = true)
                 generateTestCases).
  { apply Forall_forall. intros c Hin. destruct (H c Hin) as [[x Hx] _].
    destruct (outcome_of_run JSCPP_run studentCode c) as [_ ->]. now rewrite Hx. }
  destruct (run_results_all JSCPP_run studentCode Hc) as [-> _].
  assert (Hr : map (fun c => judged_result c (outcome_of JSCPP_run studentCode c))
                 generateTestCases
               = map (fun c => mkResult c true (Some (Int (expectedSum c)))
                                 MSG_PASSED false)
                   generateTestCases).
  { apply map_ext_in. intros c Hin. apply judged_correct.
    destruct (outcome_of_run JSCPP_run studentCode c) as [-> _].
    exact (proj2 (H c Hin)). }
  rewrite Hr. clear H Hc Hr.
  rewrite generateFeedback_cases.
  unfold calculateScore, qualityScore, triggered_hints, banded_message.
  destruct (hasLoop studentCode), (hasPositiveCheck studentCode);
    vm_compute; reflexivity.
Qed.

Lemma correct_submission_report_witness :
  (exists testResults,
      gradeRun reference_engine bare_source
      = Normal (mkReport testResults (Num (inject_Z 80))
                  (HINT_LOOP ++ js " " ++ HINT_GUARD))) /\
  (exists testResults,
      gradeRun reference_engine summing_source
      = Normal (mkReport testResults (Num (inject_Z 90)) HINT_GUARD)).
Proof.
  assert (H : forall source c, In c generateTestCases ->
            (exists exitCode,
                completes (reference_engine source (input c)) = Normal exitCode) /\
            sum (extractSumFromOutput
                   (concat (writes (reference_engine source (input c)))))
            = Some (Int (expectedSum c))).
  { intros source c Hin. unfold generateTestCases in Hin. cbn [In] in Hin.
    destruct Hin as [<-|[<-|[<-|[<-|[]]]]];
      (split; [exists 0; vm_compute; reflexivity | vm_compute; reflexivity]). }
  split; eexists.
  - etransitivity.
    + exact (proj1 (@correct_submission_report reference_engine bare_source
                      (H bare_source))).
    + vm_compute. reflexivity.
  - etransitivity.
    + exact (proj1 (@correct_submission_report reference_engine summing_source
                      (H summing_source))).
    + vm_compute. reflexivity.
Defined.

(** X6. Full marks, exactly. For every grading run the score is 100 exactly
    when the run has four results, all passed, and the source has a loop
    keyword and the positivity-guard pattern; and the feedback is the
    congratulation exactly when the score is 100. *)
Theorem full_marks_iff (JSCPP_run : engine) (studentCode : jsstring) :
  exists report : GradeReport,
    gradeRun JSCPP_run studentCode = Normal report /\
    (score report = Num (inject_Z 100)
     <-> length (results report) = 4%nat /\
         forallb passed (results report) = true /\
         hasLoop studentCode = true /\ hasPositiveCheck studentCode = true) /\
    (feedbackText report = MSG_EXCELLENT
     <-> score report = Num (inject_Z 100)).
Proof.
  rewrite gradeRun_report. cbv zeta. eexists. split; [reflexivity|].
  cbn [score results feedbackText].
  set (rs := run_results JSCPP_run studentCode generateTestCases).
  assert (Hs : firstCompilationFailed rs = false ->
               (calculateScore rs studentCode = Num (inject_Z 100)
                <-> length rs = 4%nat /\ forallb passed rs = true /\
                    hasLoop studentCode = true /\
                    hasPositiveCheck studentCode = true)).
  { apply score_100_catalog.
    - apply (run_results_prefix JSCPP_run studentCode generateTestCases).
    - apply run_results_full_or_failed. }
  destruct (firstCompilationFailed rs) eqn:Hf.
  - assert (H1 : length rs = 1%nat) by (now apply run_results_first_failed).
    assert (H0 : calculateScore rs studentCode = Num 0)
      by (unfold calculateScore; now rewrite Hf).
    rewrite H0. split.
    + split; [discriminate|]. intros [H4 _]. rewrite H1 in H4. discriminate H4.
    + split; [|discriminate]. intros H.
      apply generateFeedback_verdicts in H. destruct H as [H _]. congruence.
  - split; [now apply Hs|].
    destruct (calculateScore_integer rs studentCode) as [z [Ez _]].
    rewrite (proj2 (generateFeedback_verdicts rs (calculateScore rs studentCode)
                      studentCode)).
    rewrite Ez, js_eq_integer. split.
    + intros [_ H]. apply Z.eqb_eq in H. now subst.
    + intros H. apply Num_inject_Z_inj in H. subst. now split.
Qed.





(** X9. The feedback is one of twenty fixed texts, whatever the notes and
    the source hold: the compile-failure message, the congratulation, one
    of the three band messages, or the hints of one of the fifteen
    non-empty choices among the four, joined in their order. It is never
    the empty string. *)
Theorem feedback_is_fixed_text (testResults : list TestResult) (score : number)
    (codeSource : jsstring) :
  In (generateFeedback testResults score codeSource) feedback_texts /\
  length feedback_texts = 20%nat /\
  generateFeedback testResults score codeSource <> [].
Proof.
  pose proof (generateFeedback_in_texts testResults score codeSource) as H.
  split; [exact H|]. split; [vm_compute; reflexivity|].
  pose proof feedback_texts_nonempty as N.
  rewrite forallb_forall in N. specialize (N _ H).
  intros E. rewrite E in N. discriminate N.
Qed.

(** X10. The two verdicts are told apart from every other feedback: the
    feedback is the compile-failure message exactly when the first result
    has compilationFailed = true, and the congratulation exactly when it
    has not and the score is 100. *)
Theorem feedback_verdicts (testResults : list TestResult) (score : number)
    (codeSource : jsstring) :
  (generateFeedback testResults score codeSource = MSG_COMPILE_FAILURE
   <-> firstCompilationFailed testResults = true) /\
  (generateFeedback testResults score codeSource = MSG_EXCELLENT
   <-> firstCompilationFailed testResults = false /\ score_is score 100).
Proof.
  destruct (generateFeedback_verdicts testResults score codeSource) as [H1 H2].
  split; [exact H1|]. rewrite H2, js_eq_iff. reflexivity.
Qed.

(** X11. The two heuristics read the text around a source as well: text
    put before a source (not ending in a word character) and after it (not
    starting with one) keeps a loop keyword and a positivity guard that
    were found, so the quality score of the whole is at least that of the
    source. *)
Theorem quality_kept_when_surrounded (before source after : jsstring) :
  ends_word before = false -> starts_word after = false ->
  (hasLoop source = true -> hasLoop (before ++ source ++ after) = true) /\
  (hasPositiveCheck source = true ->
   hasPositiveCheck (before ++ source ++ after) = true) /\
  qualityScore source <= qualityScore (before ++ source ++ after).
Proof.
  intros Hb Ha.
  split; [now apply hasLoop_surrounded|].
  split; [now apply hasPositiveCheck_surrounded|].
  now apply qualityScore_surrounded.
Qed.

Lemma quality_kept_when_surrounded_witness :
  ends_word (jse "/* v2 */\n") = false /\
  starts_word (jse "\n/* end */") = false /\
  qualityScore sample_guarded_source
  <= qualityScore (jse "/* v2 */\n" ++ sample_guarded_source ++ jse "\n/* end */").
Proof.
  assert (H1 : ends_word (jse "/* v2 */\n") = false) by (vm_compute; reflexivity).
  assert (H2 : starts_word (jse "\n/* end */") = false) by (vm_compute; reflexivity).
  split; [exact H1|]. split; [exact H2|].
  exact (proj2 (proj2 (@quality_kept_when_surrounded _ sample_guarded_source _
                         H1 H2))).
Defined.

(** X12. The heuristics do not tell code from comments: a source followed
    by a line break and the comment [// while if (n > 0)] has the loop
    keyword and the positivity guard, whatever the source is; its quality
    score is 20 and neither of the two hints is given. *)
Theorem quality_by_comment_alone (source : jsstring)
    (testResults : list TestResult) :
  hasLoop (source ++ quality_comment) = true /\
  hasPositiveCheck (source ++ quality_comment) = true /\
  qualityScore (source ++ quality_comment) = 20 /\
  ~ In HINT_LOOP (triggered_hints testResults (source ++ quality_comment)) /\
  ~ In HINT_GUARD (triggered_hints testResults (source ++ quality_comment)).
Proof.
  destruct (quality_by_comment source) as [HL HG].
  split; [exact HL|]. split; [exact HG|].
  split; [rewrite qualityScore_cases, HL, HG; reflexivity|].
  split.
  - unfold triggered_hints. rewrite HL, HG.
    assert (N1 : HINT_SUM <> HINT_LOOP) by (apply str_neq; vm_compute; reflexivity).
    assert (N2 : HINT_VALIDATION <> HINT_LOOP)
      by (apply str_neq; vm_compute; reflexivity).
    revert N1 N2. generalize HINT_SUM HINT_VALIDATION HINT_LOOP. intros h1 h2 h3 N1 N2.
    destruct (wrong_sum_noted testResults), (validation_failed testResults);
      cbn [app In]; tauto.
  - rewrite hint_guard_triggered, HG. discriminate.
Qed.

(** * Properties of the page *)

(** X13. Nothing runs without a source or without the interpreter. When
    the editor holds white space only (or nothing), the handler shows the
    alert that asks for code, whether the interpreter is loaded or not;
    when it holds more and the interpreter is not loaded, the handler shows
    the alert about the interpreter. In both cases nothing else on the page
    changes: the button stays as it was, and so do the results. *)
Theorem handleRunTests_refusals (JSCPP : option engine) (page : Page) :
  (forallb is_space (codeEditor_value page) = true ->
   handleRunTests JSCPP page = alert page MSG_PASTE_CODE) /\
  (forallb is_space (codeEditor_value page) = false ->
   handleRunTests None page = alert page MSG_NOT_LOADED) /\
  forall message,
    alert page message
    = mkPage (codeEditor_value page) (runButton_disabled page)
        (loadingIndicator_classes page) (resultsSection_classes page)
        (compilationOutput_text page) (compilationOutput_color page)
        (scoreValue_text page) (scoreFeedback_text page)
        (scoreCircle_classes page) (scoreFeedback_classes page)
        (testResultsBody_rows page) (alerts page ++ [message]).
Proof.
  split; [|split].
  - intros H. unfold handleRunTests. now rewrite trim_blank, H.
  - intros H. unfold handleRunTests. now rewrite trim_blank, H.
  - reflexivity.
Qed.

Lemma handleRunTests_refusals_witness :
  forallb is_space (codeEditor_value (sample_page (jse " \n"))) = true /\
  alerts (handleRunTests (Some reference_engine) (sample_page (jse " \n")))
  = [MSG_PASTE_CODE].
Proof.
  assert (H : forallb is_space (codeEditor_value (sample_page (jse " \n"))) = true)
    by (vm_compute; reflexivity).
  split; [exact H|].
  rewrite (proj1 (handleRunTests_refusals (Some reference_engine)
                    (sample_page (jse " \n"))) H).
  reflexivity.
Defined.

(** X14. A run always ends with its report on the page. When the editor
    holds more than white space and the interpreter is loaded, the handler
    grades the trimmed source and leaves: the button enabled, the loading
    indicator hidden, the results section shown, the score and the
    feedback of the grading run, one row per result, the fixed success
    line in green unless the first run failed, and the note of the first
    result in red when it did. No alert is shown, and the general error
    message of the handler never is: the grading run does not throw. *)
Theorem handleRunTests_shows_report (JSCPP_run : engine) (page : Page) :
  forallb is_space (codeEditor_value page) = false ->
  exists report : GradeReport,
    gradeRun JSCPP_run (trim (codeEditor_value page)) = Normal report /\
    let page' := handleRunTests (Some JSCPP_run) page in
    runButton_disabled page' = false /\
    contains (loadingIndicator_classes page') HIDDEN = true /\
    contains (resultsSection_classes page') HIDDEN = false /\
    scoreValue_text page' = NumberText (score report) /\
    scoreFeedback_text page' = feedbackText report /\
    length (testResultsBody_rows page') = length (results report) /\
    (firstCompilationFailed (results report) = false ->
     compilationOutput_text page' = MSG_RAN /\
     compilationOutput_color page' = COLOR_GREEN) /\
    (forall first rest, results report = first :: rest ->
     compilationFailed first = true ->
     compilationOutput_text page' = notes first /\
     compilationOutput_color page' = COLOR_RED) /\
    alerts page' = alerts page /\
    codeEditor_value page' = codeEditor_value page.
Proof.
  intros H.
  assert (Ht : truthy (trim (codeEditor_value page)) = true)
    by (now rewrite trim_blank, H).
  rewrite gradeRun_report. cbv zeta. eexists. split; [reflexivity|].
  rewrite (@handleRunTests_run JSCPP_run page Ht). cbv zeta.
  cbn [runButton_disabled loadingIndicator_classes resultsSection_classes
       scoreValue_text scoreFeedback_text testResultsBody_rows
       compilationOutput_text compilationOutput_color alerts codeEditor_value
       score feedbackText results].
  split; [reflexivity|].
  split.
  { apply contains_In, in_or_app. right. now left. }
  split.
  { destruct (contains (classList_remove (resultsSection_classes page) [HIDDEN])
                HIDDEN) eqn:E; [|reflexivity].
    apply contains_In, classList_remove_In in E. destruct E as [_ E].
    exfalso. apply E. now left. }
  split; [reflexivity|]. split; [reflexivity|].
  split; [apply rows_from_length|].
  split.
  { intros ->. now split. }
  split.
  { intros first rest E Hf. rewrite E. cbn [firstCompilationFailed].
    rewrite Hf. now split. }
  now split.
Qed.

Lemma handleRunTests_shows_report_witness :
  forallb is_space (codeEditor_value (sample_page sample_guarded_source)) = false /\
  scoreValue_text
    (handleRunTests (Some reference_engine) (sample_page sample_guarded_source))
  = NumberText (Num (inject_Z 100)).
Proof.
  assert (H : forallb is_space
                (codeEditor_value (sample_page sample_guarded_source)) = false)
    by (vm_compute; reflexivity).
  split; [exact H|].
  destruct (@handleRunTests_shows_report reference_engine
              (sample_page sample_guarded_source) H)
    as [report [Hr [_ [_ [_ [Hs _]]]]]].
  rewrite Hs. f_equal.
  assert (E : gradeRun reference_engine
                (trim (codeEditor_value (sample_page sample_guarded_source)))
              = Normal (mkReport
                          (map (fun c => mkResult c true (Some (Int (expectedSum c)))
                                           MSG_PASSED false) generateTestCases)
                          (Num (inject_Z 100)) MSG_EXCELLENT))
    by (vm_compute; reflexivity).
  rewrite E in Hr. injection Hr as <-. reflexivity.
Defined.

(** X15. Running the same submission again changes nothing: when the
    editor holds more than white space, the page after two runs in a row
    is the page after one. *)
Theorem handleRunTests_idempotent (JSCPP_run : engine) (page : Page) :
  forallb is_space (codeEditor_value page) = false ->
  handleRunTests (Some JSCPP_run) (handleRunTests (Some JSCPP_run) page)
  = handleRunTests (Some JSCPP_run) page.
Proof.
  intros H. apply handleRunTests_again. now rewrite trim_blank, H.
Qed.

Lemma handleRunTests_idempotent_witness :
  forallb is_space (codeEditor_value (sample_page sample_source)) = false /\
  handleRunTests (Some sample_engine)
    (handleRunTests (Some sample_engine) (sample_page sample_source))
  = handleRunTests (Some sample_engine) (sample_page sample_source).
Proof.
  assert (H : forallb is_space (codeEditor_value (sample_page sample_source)) = false)
    by (vm_compute; reflexivity).
  split; [exact H|].
  exact (@handleRunTests_idempotent sample_engine (sample_page sample_source) H).
Defined.

(** X16. The band of the score on the page. After the results are
    displayed, the score circle and the feedback have exactly one of the
    classes excellent, good and poor, the same for both: excellent for a
    score of 85 or more, good for 60 or more, poor for anything else (a
    score that is not a number among them); every other class they had is
    kept. *)
Theorem displayResults_band (testResults : list TestResult) (score : number)
    (feedback : jsstring) (page : Page) :
  let page' := displayResults testResults score feedback page in
  (forall token,
      contains (scoreCircle_classes page') token
      = if contains BANDS token then str_eqb (band_class score) token
        else contains (scoreCircle_classes page) token) /\
  (forall token,
      contains (scoreFeedback_classes page') token
      = if contains BANDS token then str_eqb (band_class score) token
        else contains (scoreFeedback_classes page) token) /\
  (forall z, score = Num (inject_Z z) ->
     band_class score
     = if 85 <=? z then EXCELLENT else if 60 <=? z then GOOD else POOR) /\
  band_class NaN = POOR.
Proof.
  cbv zeta. rewrite displayResults_page.
  cbn [scoreCircle_classes scoreFeedback_classes].
  assert (H : forall l token,
             contains (classList_remove l BANDS ++ [band_class score]) token
             = if contains BANDS token then str_eqb (band_class score) token
               else contains l token).
  { intros l token. unfold contains at 1. rewrite existsb_app. cbn [existsb].
    rewrite orb_false_r.
    destruct (contains BANDS token) eqn:Eb.
    - replace (existsb (str_eqb token) (classList_remove l BANDS)) with false.
      + cbn [orb]. destruct (str_eqb token (band_class score)) eqn:E1,
          (str_eqb (band_class score) token) eqn:E2; try reflexivity.
        * apply str_eqb_eq in E1. subst. now rewrite str_eqb_refl in E2.
        * apply str_eqb_eq in E2. subst. now rewrite str_eqb_refl in E1.
      + symmetry. apply not_true_is_false. intros E.
        apply existsb_str_iff, classList_remove_In in E. destruct E as [_ E].
        apply E. now apply contains_In.
    - replace (str_eqb token (band_class score)) with false.
      + rewrite orb_false_r. apply contains_eq. rewrite classList_remove_In.
        split; [tauto|]. intros Hin. split; [exact Hin|]. intros Hb.
        apply contains_In in Hb. congruence.
      + symmetry. apply not_true_is_false. intros E. apply str_eqb_eq in E.
        subst. pose proof (band_class_band score) as Hb.
        apply contains_In in Hb. congruence. }
  split; [apply H|]. split; [apply H|]. split; [|reflexivity].
  intros z ->. unfold band_class. rewrite !js_ge_integer. reflexivity.
Qed.

(** X17. The table has one row per result, in order and numbered from 1,
    whatever rows it had before; the input of a scenario is shown on one
    line, each line feed as a backslash and an n. *)
Theorem displayResults_rows (testResults : list TestResult) (score : number)
    (feedback : jsstring) (page : Page) :
  let rows := testResultsBody_rows
                (displayResults testResults score feedback page) in
  length rows = length testResults /\
  (forall k test, nth_error testResults k = Some test ->
     exists inputDisplay rest,
       nth_error rows k
       = Some (ROW_1 ++ string_of_Z (Z.of_nat k + 1) ++ ROW_2
                 ++ name (testCase test) ++ ROW_3 ++ inputDisplay ++ rest) /\
       inputDisplay = escape_newlines (input (testCase test)) /\
       existsb (N.eqb 10) inputDisplay = false /\
       length inputDisplay
       = (length (input (testCase test))
          + length (filter (N.eqb 10) (input (testCase test))))%nat).
Proof.
  cbv zeta. rewrite displayResults_page. cbn [testResultsBody_rows].
  split; [apply rows_from_length|].
  intros k test H. eexists. eexists.
  split; [rewrite (rows_from_nth testResults 0 k H); reflexivity|].
  split; [reflexivity|]. split; [apply escape_newlines_no_lf|].
  induction (input (testCase test)) as [|c s IH]; [reflexivity|].
  cbn [escape_newlines filter].
  replace (10 =? c)%N with (c =? 10)%N by apply N.eqb_sym.
  destruct (c =? 10)%N; cbn [length]; rewrite IH; lia.
Qed.

(** X18. Displaying results makes clearing before it redundant, and
    displaying the error does not replace it: after the display of results
    the page is the same whether the previous results were cleared first
    or not; the display of an error leaves the rows of the table and the
    band classes as they were. *)
Theorem displayResults_absorbs_clear (testResults : list TestResult)
    (score : number) (feedback errorMessage : jsstring) (page : Page) :
  displayResults testResults score feedback (clearPreviousResults page)
  = displayResults testResults score feedback page /\
  testResultsBody_rows (displayError errorMessage page)
  = testResultsBody_rows page /\
  scoreCircle_classes (displayError errorMessage page)
  = scoreCircle_classes page /\
  scoreFeedback_classes (displayError errorMessage page)
  = scoreFeedback_classes page.
Proof.
  split; [|now repeat split].
  rewrite !displayResults_page. unfold clearPreviousResults.
  cbn [set_resultsSection_classes set_compilationOutput set_rows
       codeEditor_value runButton_disabled loadingIndicator_classes
       resultsSection_classes scoreCircle_classes scoreFeedback_classes alerts].
  now rewrite (@classList_remove_add _ HIDDEN [HIDDEN] (or_introl eq_refl)).
Qed.

(** X19. The busy state touches the button and one class only: after
    [setUIRunning] the button is disabled exactly when the state is
    running, the loading indicator has the class hidden exactly when it is
    not, every other class of the indicator is kept, and the rest of the
    page is as it was. *)
Theorem setUIRunning_effect (isRunning : bool) (page : Page) :
  let page' := setUIRunning isRunning page in
  runButton_disabled page' = isRunning /\
  (forall token,
      contains (loadingIndicator_classes page') token
      = if str_eqb HIDDEN token then negb isRunning
        else contains (loadingIndicator_classes page) token) /\
  page'
  = mkPage (codeEditor_value page) isRunning (loadingIndicator_classes page')
      (resultsSection_classes page) (compilationOutput_text page)
      (compilationOutput_color page) (scoreValue_text page)
      (scoreFeedback_text page) (scoreCircle_classes page)
      (scoreFeedback_classes page) (testResultsBody_rows page) (alerts page).
Proof.
  cbv zeta. split; [reflexivity|]. split; [|reflexivity].
  intros token. unfold setUIRunning, classList_toggle.
  cbn [set_runButton_disabled set_loadingIndicator_classes
       loadingIndicator_classes].
  destruct (str_eqb HIDDEN token) eqn:E.
  - apply str_eqb_eq in E. subst token. destruct isRunning; cbn [negb].
    + apply not_true_is_false. intros H.
      apply contains_In, classList_remove_In in H. destruct H as [_ H].
      apply H. now left.
    + apply contains_In, classList_add_In. now right.
  - apply contains_eq. destruct isRunning; cbn [negb].
    + rewrite classList_remove_In. split; [tauto|]. intros H.
      split; [exact H|]. intros [<-|[]]. now rewrite str_eqb_refl in E.
    + rewrite classList_add_In. split; [|tauto].
      intros [H| ->]; [exact H|]. now rewrite str_eqb_refl in E.
Qed.

(** X20. The click handler is registered at most once. Through the first
    call of [initializeApp] and its retries, as long as the interpreter is
    not defined a retry is scheduled and no listener is registered; at the
    first call that finds it defined, one listener is registered when the
    button is found and none when it is not, and no retry is scheduled any
    more. *)
Theorem initializeApp_registers_once (observed : list (bool * bool)) :
  let st := boot observed (mkBoot 0 false) in
  (clickListeners st <= 1)%nat /\
  (forallb (fun o => negb (fst o)) observed = true ->
   clickListeners st = 0%nat /\
   retryScheduled st = match observed with [] => false | _ :: _ => true end) /\
  (forall waiting runButton_found later,
      observed = waiting ++ (true, runButton_found) :: later ->
      forallb (fun o => negb (fst o)) waiting = true ->
      st = mkBoot (if runButton_found then 1%nat else 0%nat) false).
Proof.
  cbv zeta.
  assert (W : forall waiting rest b,
             forallb (fun o => negb (fst o)) waiting = true ->
             boot (waiting ++ rest) (mkBoot 0 b)
             = match waiting with
               | [] => boot rest (mkBoot 0 b)
               | _ :: _ => boot rest (mkBoot 0 true)
               end).
  { induction waiting as [|[j f] w IH]; intros rest b H; [reflexivity|].
    cbn [forallb fst] in H. apply andb_true_iff in H. destruct H as [Hj Hw].
    apply negb_true_iff in Hj. subst j.
    cbn [app boot initializeApp negb clickListeners retryScheduled].
    rewrite (IH rest true Hw). now destruct w. }
  assert (A : forall rest f b,
             boot ((true, f) :: rest) (mkBoot 0 b)
             = mkBoot (if f then 1%nat else 0%nat) false).
  { intros rest f b. cbn [boot initializeApp negb clickListeners retryScheduled].
    now destruct f. }
  split; [|split].
  - assert (G : forall obs b, (clickListeners (boot obs (mkBoot 0 b)) <= 1)%nat).
    { induction obs as [|[j f] obs IH]; intros b; [cbn; lia|].
      destruct j.
      - rewrite A. destruct f; cbn; lia.
      - cbn [boot initializeApp negb clickListeners retryScheduled]. apply IH. }
    apply G.
  - intros H. pose proof (W observed [] false H) as E.
    rewrite app_nil_r in E. rewrite E. now destruct observed.
  - intros waiting f later -> H. rewrite (W waiting _ false H).
    destruct waiting; apply A.
Qed.

Lemma initializeApp_registers_once_witness :
  forallb (fun o : bool * bool => negb (fst o)) [(false, true); (false, true)]
  = true /\
  boot ([(false, true); (false, true)] ++ (true, true) :: [(true, true)])
    (mkBoot 0 false)
  = mkBoot 1 false.
Proof.
  assert (H : forallb (fun o : bool * bool => negb (fst o))
                [(false, true); (false, true)] = true) by reflexivity.
  split; [exact H|].
  exact (proj2 (proj2 (initializeApp_registers_once
                         ([(false, true); (false, true)]
                            ++ (true, true) :: [(true, true)])))
           [(false, true); (false, true)] true [(true, true)] eq_refl H).
Defined.

(** X21. The catalog agrees with the exercise: the expected sum of each
    scenario is the sum of the first five positive integers of its input,
    each input holds at least five of them, a scenario is marked as a
    validation scenario exactly when its input holds an integer that is
    not positive, and the points of the catalog add up to 100. *)
Theorem catalog_matches_exercise :
  (forall c, In c generateTestCases ->
     expectedSum c = first_five_positive_sum (input c) /\
     allNumbers (extractSumFromOutput (input c)) = map Int (integers_in (input c)) /\
     (5 <= length (filter (fun n => (0 <? n)%Z) (integers_in (input c))))%nat /\
     isValidationTest c
     = existsb (fun n => n <=? 0) (integers_in (input c))) /\
  Zsum (map points generateTestCases) = 100.
Proof.
  split; [|reflexivity].
  intros c H. unfold generateTestCases in H. cbn [In] in H.
  destruct H as [<-|[<-|[<-|[<-|[]]]]]; vm_compute;
    (split; [reflexivity | split; [reflexivity | split; [lia | reflexivity]]]).
Qed.
